(** * Schema compilation in gin-docs: a shallow embedding

    This development embeds the type-reflection / schema-compilation core of
    the [gindocs] package (tag parsing, the type registry, [typeToSchema] and
    the GORM create/update variants) and proves properties of it.

    Conventions.
    - A Go [string] is a byte string.  The functions of the Go [strings]
      package that the code calls read it as Go does: those that work on
      bytes ([Split], [Contains], [HasPrefix], [TrimPrefix], [Trim] with a
      set of ASCII bytes) by bytes, those that work on characters
      ([TrimSpace], [Fields], [ToLower]) by the runes that the UTF-8
      decoder of [unicode/utf8] finds.  The lower-case table of package
      [unicode] is an interface.
    - A [reflect.Type] is an identity (a number) into a type environment
      that records, for each type, what the code observes through
      reflection.  Type graphs may be cyclic, as Go's are.
    - Loops and recursions whose termination depends on the shape of the
      type graph take a [fuel] argument; [None] means the fuel ran out. *)

From Stdlib Require Import ZArith String Ascii List Bool Lia.
From stdpp Require Import gmap strings list.

Set Warnings "-register-all,-clear-no-such-hyp".
Local Open Scope string_scope.
Local Open Scope Z_scope.

(** ** [float64] and [strconv.ParseFloat]

    The code stores numeric bounds as [*float64] and obtains them from
    [strconv.ParseFloat] and from the conversion [float64(v)] of an [int].
    Both belong to the Go runtime, so they are taken as an interface. *)
Class Float64Model := {
  float64 : Type;
  ParseFloat : string -> option float64;
  float64_of_int : Z -> float64
}.

(** ** Slices of a string: [s[n:]], [s[:n]] and the bytes in reverse *)
Fixpoint drop_string (n : nat) (s : string) : string :=
  match n, s with
  | O, _ => s
  | S n', String _ s' => drop_string n' s'
  | S _, EmptyString => EmptyString
  end.

Fixpoint take_string (n : nat) (s : string) : string :=
  match n, s with
  | S n', String c s' => String c (take_string n' s')
  | _, _ => EmptyString
  end.

Definition rev_string (s : string) : string :=
  string_of_list_ascii (rev (list_ascii_of_string s)).

(** ** UTF-8

    A Go [string] is a sequence of bytes.  The functions of package
    [strings] that work on characters read it as UTF-8, with the decoder
    of package [unicode/utf8]: a byte that starts no well-formed sequence
    is read as the rune [RuneError], of width one. *)
Module utf8.

Definition RuneError : Z := 0xFFFD.
Definition RuneSelf : Z := 0x80.
Definition MaxRune : Z := 0x10FFFF.
Definition UTFMax : Z := 4.

(** The value of a byte, and the byte of a value. *)
Definition byte (c : ascii) : Z := Z.of_N (N_of_ascii c).
Definition toByte (n : Z) : ascii := ascii_of_N (Z.to_N (Z.land n 0xFF)).

(** [s[i]]; the decoder never reads past the end. *)
Definition at_ (s : string) (i : nat) : Z :=
  match String.get i s with
  | Some c => byte c
  | None => 0
  end.

(** The table [first]: for the first byte of a sequence, its size and
    the range accepted for its second byte; [None] for an ASCII byte and
    for a byte that starts no sequence. *)
Definition first (s0 : Z) : option (nat * Z * Z) :=
  if s0 <? 0xC2 then None
  else if s0 <? 0xE0 then Some (2%nat, 0x80, 0xBF)
  else if s0 =? 0xE0 then Some (3%nat, 0xA0, 0xBF)
  else if s0 =? 0xED then Some (3%nat, 0x80, 0x9F)
  else if s0 <? 0xF0 then Some (3%nat, 0x80, 0xBF)
  else if s0 =? 0xF0 then Some (4%nat, 0x90, 0xBF)
  else if s0 <? 0xF4 then Some (4%nat, 0x80, 0xBF)
  else if s0 =? 0xF4 then Some (4%nat, 0x80, 0x8F)
  else None.

(** [utf8.DecodeRuneInString(s)]: the first rune of [s] and its width. *)
Definition DecodeRuneInString (s : string) : Z * nat :=
  match s with
  | EmptyString => (RuneError, 0%nat)
  | String c0 _ =>
      let s0 := byte c0 in
      match first s0 with
      | None => (if s0 <? RuneSelf then s0 else RuneError, 1%nat)
      | Some (sz, lo, hi) =>
          if (String.length s <? sz)%nat then (RuneError, 1%nat) else
          let s1 := at_ s 1 in
          if (s1 <? lo) || (hi <? s1) then (RuneError, 1%nat) else
          if (sz <=? 2)%nat then
            (Z.lor (Z.shiftl (Z.land s0 0x1F) 6) (Z.land s1 0x3F), 2%nat)
          else
          let s2 := at_ s 2 in
          if (s2 <? 0x80) || (0xBF <? s2) then (RuneError, 1%nat) else
          if (sz <=? 3)%nat then
            (Z.lor (Z.shiftl (Z.land s0 0x0F) 12)
               (Z.lor (Z.shiftl (Z.land s1 0x3F) 6) (Z.land s2 0x3F)), 3%nat)
          else
          let s3 := at_ s 3 in
          if (s3 <? 0x80) || (0xBF <? s3) then (RuneError, 1%nat) else
          (Z.lor (Z.shiftl (Z.land s0 0x07) 18)
             (Z.lor (Z.shiftl (Z.land s1 0x3F) 12)
                (Z.lor (Z.shiftl (Z.land s2 0x3F) 6) (Z.land s3 0x3F))), 4%nat)
      end
  end.

(** [utf8.RuneStart(b)]: [b] is not a continuation byte. *)
Definition RuneStart (b : Z) : bool := negb (Z.land b 0xC0 =? 0x80).

(** The loop of [DecodeLastRuneInString] that walks back to the start of
    the last rune, at most [UTFMax] bytes from the end. *)
Fixpoint lastRuneStart (n : nat) (s : string) (lim start : Z) : Z :=
  match n with
  | O => start
  | S n' =>
      if start <? lim then start
      else if RuneStart (at_ s (Z.to_nat start)) then start
      else lastRuneStart n' s lim (start - 1)
  end.

(** [utf8.DecodeLastRuneInString(s)]: the last rune of [s] and its width. *)
Definition DecodeLastRuneInString (s : string) : Z * nat :=
  let end_ := Z.of_nat (String.length s) in
  if end_ =? 0 then (RuneError, 0%nat) else
  let start := end_ - 1 in
  let r := at_ s (Z.to_nat start) in
  if r <? RuneSelf then (r, 1%nat) else
  let lim := Z.max 0 (end_ - UTFMax) in
  let start := Z.max 0 (lastRuneStart 4 s lim (start - 1)) in
  let '(r, size) := DecodeRuneInString (drop_string (Z.to_nat start) s) in
  if start + Z.of_nat size =? end_ then (r, size) else (RuneError, 1%nat).

(** [utf8.AppendRune(nil, r)]: the encoding of a rune; a surrogate and a
    value out of range are written as [RuneError]. *)
Definition AppendRune (r : Z) : string :=
  let i := if r <? 0 then r + 2 ^ 32 else r in
  let tx (v : Z) := toByte (Z.lor 0x80 (Z.land v 0x3F)) in
  if i <=? 0x7F then String (toByte r) EmptyString
  else if i <=? 0x7FF then
    String (toByte (Z.lor 0xC0 (Z.shiftr r 6))) (String (tx r) EmptyString)
  else
    let three (r : Z) :=
      String (toByte (Z.lor 0xE0 (Z.shiftr r 12)))
        (String (tx (Z.shiftr r 6)) (String (tx r) EmptyString)) in
    if (MaxRune <? i) || ((0xD800 <=? i) && (i <=? 0xDFFF)) then three RuneError
    else if i <=? 0xFFFF then three r
    else
      String (toByte (Z.lor 0xF0 (Z.shiftr r 18)))
        (String (tx (Z.shiftr r 12))
           (String (tx (Z.shiftr r 6)) (String (tx r) EmptyString))).

End utf8.

(** ** The tables of package [unicode] *)
Module unicode.

Definition MaxASCII : Z := 0x7F.
Definition MaxLatin1 : Z := 0xFF.

(** [unicode.IsSpace(r)]: the white space of Latin-1, and above it the
    code points with the Unicode property [White_Space]. *)
Definition IsSpace (r : Z) : bool :=
  if (0 <=? r) && (r <=? MaxLatin1) then
    existsb (Z.eqb r) [0x09; 0x0A; 0x0B; 0x0C; 0x0D; 0x20; 0x85; 0xA0]
  else
    (r =? 0x1680) || ((0x2000 <=? r) && (r <=? 0x200A)) ||
    (r =? 0x2028) || (r =? 0x2029) || (r =? 0x202F) || (r =? 0x205F) ||
    (r =? 0x3000).

(** The lower-case mapping of the Unicode case tables,
    [unicode.To(unicode.LowerCase, r)], is data of the Go distribution
    and is taken as an interface; the code consults it for the runes
    above ASCII only. *)
Class CaseRanges := {
  To_LowerCase : Z -> Z
}.

(** [unicode.ToLower(r)] *)
Definition ToLower `{CaseRanges} (r : Z) : Z :=
  if r <=? MaxASCII then
    if (65 <=? r) && (r <=? 90) then r + 32 else r
  else To_LowerCase r.

End unicode.

(** ** The Go [strings] and [strconv] functions used by the package *)
Module GoStrings.
Import utf8.

(** The table [asciiSpace]: the white space among the ASCII bytes. *)
Definition isSpace (c : ascii) : bool :=
  let n := nat_of_ascii c in
  ((9 <=? n)%nat && (n <=? 13)%nat) || (n =? 32)%nat.

(** [strings.HasPrefix(s, prefix)] *)
Fixpoint HasPrefix (s prefix : string) : bool :=
  match prefix, s with
  | EmptyString, _ => true
  | String p prefix', String c s' => Ascii.eqb c p && HasPrefix s' prefix'
  | String _ _, EmptyString => false
  end.

(** [strings.TrimPrefix(s, prefix)] *)
Definition TrimPrefix (s prefix : string) : string :=
  if HasPrefix s prefix then drop_string (String.length prefix) s else s.

(** [strings.Contains(s, substr)] *)
Fixpoint Contains (s substr : string) : bool :=
  HasPrefix s substr ||
  match s with
  | EmptyString => false
  | String _ s' => Contains s' substr
  end.

(** [strings.Split(s, sep)] for a one-byte separator, which is what every
    call site passes.  The result is never empty. *)
Fixpoint Split (s : string) (sep : ascii) : list string :=
  match s with
  | EmptyString => [EmptyString]
  | String c s' =>
      if Ascii.eqb c sep then EmptyString :: Split s' sep
      else match Split s' sep with
           | [] => [String c EmptyString]
           | p :: ps => String c p :: ps
           end
  end.

Fixpoint inCutset (cutset : string) (c : ascii) : bool :=
  match cutset with
  | EmptyString => false
  | String d cutset' => Ascii.eqb c d || inCutset cutset' c
  end.

(** The cutset of single and double quote, written with byte codes. *)
Definition quoteCutset : string :=
  String (ascii_of_nat 39) (String (ascii_of_nat 34) EmptyString).

(** [trimLeftASCII(s, as)] and [trimRightASCII(s, as)]: the bytes of an
    ASCII set are cut off, byte by byte. *)
Fixpoint trimLeftASCII (s : string) (as_ : ascii -> bool) : string :=
  match s with
  | EmptyString => EmptyString
  | String c s' => if as_ c then trimLeftASCII s' as_ else s
  end.

Definition trimRightASCII (s : string) (as_ : ascii -> bool) : string :=
  rev_string (trimLeftASCII (rev_string s) as_).

(** [strings.Trim(s, cutset)] for a cutset of ASCII bytes, which is what
    the call site passes. *)
Definition Trim (s cutset : string) : string :=
  trimLeftASCII (trimRightASCII s (inCutset cutset)) (inCutset cutset).

(** The loop [for _, c := range s] of [strings.Map]: the rune at each
    position is mapped and written out, a negative result is dropped;
    [skip] counts the bytes of the current rune still to pass over. *)
Fixpoint mapRunes (mapping : Z -> Z) (skip : nat) (s : string) : string :=
  match s with
  | EmptyString => EmptyString
  | String _ s' =>
      match skip with
      | S k => mapRunes mapping k s'
      | O =>
          let '(c, width) := DecodeRuneInString s in
          let r := mapping c in
          String.append (if r <? 0 then EmptyString else AppendRune r)
                        (mapRunes mapping (width - 1) s')
      end
  end.

(** [strings.Map(mapping, s)] *)
Definition Map (mapping : Z -> Z) (s : string) : string := mapRunes mapping 0 s.

(** [strings.ToLower(s)].  For a string of ASCII bytes the code maps
    the bytes directly, which is what [Map] computes for it. *)
Definition ToLower `{unicode.CaseRanges} (s : string) : string :=
  Map unicode.ToLower s.

(** The loop of [indexFunc(s, f, false)]: what is left of [s] from its
    first rune that does not satisfy [f]. *)
Fixpoint trimLeftRunes (f : Z -> bool) (skip : nat) (s : string) : string :=
  match s with
  | EmptyString => EmptyString
  | String _ s' =>
      match skip with
      | S k => trimLeftRunes f k s'
      | O =>
          let '(r, width) := DecodeRuneInString s in
          if f r then trimLeftRunes f (width - 1) s' else s
      end
  end.

(** [strings.TrimLeftFunc(s, f)] *)
Definition TrimLeftFunc (s : string) (f : Z -> bool) : string :=
  trimLeftRunes f 0 s.

(** The loop of [lastIndexFunc(s, f, false)], run on the bytes of
    [s[0:i]] in reverse: it stops at the last rune that does not satisfy
    [f], and what it returns is [s[0:i]] up to and including that rune,
    in reverse. *)
Fixpoint trimRightRunes (f : Z -> bool) (skip : nat) (rs : string) : string :=
  match rs with
  | EmptyString => EmptyString
  | String _ rs' =>
      match skip with
      | S k => trimRightRunes f k rs'
      | O =>
          let '(r, size) := DecodeLastRuneInString (rev_string rs) in
          if f r then trimRightRunes f (size - 1) rs' else rs
      end
  end.

(** [lastIndexFunc(s, f, false)]: the index at which the last rune that
    does not satisfy [f] starts, and -1 when there is none. *)
Definition lastIndexFunc (s : string) (f : Z -> bool) : Z :=
  match rev_string (trimRightRunes f 0 (rev_string s)) with
  | EmptyString => -1
  | kept =>
      Z.of_nat (String.length kept)
      - Z.of_nat (snd (DecodeLastRuneInString kept))
  end.

(** [strings.TrimRightFunc(s, f)] *)
Definition TrimRightFunc (s : string) (f : Z -> bool) : string :=
  let i := lastIndexFunc s f in
  let i :=
    if (0 <=? i) && (RuneSelf <=? at_ s (Z.to_nat i)) then
      i + Z.of_nat (snd (DecodeRuneInString (drop_string (Z.to_nat i) s)))
    else i + 1 in
  take_string (Z.to_nat i) s.

(** [strings.TrimSpace(s)]: [TrimFunc(s, unicode.IsSpace)]; the code
    trims ASCII white space by bytes first, with the same result. *)
Definition TrimSpace (s : string) : string :=
  TrimRightFunc (TrimLeftFunc s unicode.IsSpace) unicode.IsSpace.

Definition flushField (acc : list ascii) (rest : list string) : list string :=
  match acc with
  | [] => rest
  | _ => string_of_list_ascii (rev acc) :: rest
  end.

(** The loop [for end, rune := range s] of [strings.FieldsFunc]: [acc]
    holds the bytes of the field in progress, last byte first, and
    [sep] tells whether the rune being passed over is a separator. *)
Fixpoint fieldsFrom (f : Z -> bool) (skip : nat) (sep : bool)
    (acc : list ascii) (s : string) : list string :=
  match s with
  | EmptyString => flushField acc []
  | String c s' =>
      match skip with
      | S k => fieldsFrom f k sep (if sep then acc else c :: acc) s'
      | O =>
          let '(r, width) := DecodeRuneInString s in
          if f r then flushField acc (fieldsFrom f (width - 1) true [] s')
          else fieldsFrom f (width - 1) false (c :: acc) s'
      end
  end.

(** [strings.FieldsFunc(s, f)] *)
Definition FieldsFunc (s : string) (f : Z -> bool) : list string :=
  fieldsFrom f 0 false [] s.

(** [strings.Fields(s)]: the maximal runs of runes that are not white
    space. *)
Definition Fields (s : string) : list string := FieldsFunc s unicode.IsSpace.

Definition digitVal (c : ascii) : option Z :=
  let n := nat_of_ascii c in
  if ((48 <=? n)%nat && (n <=? 57)%nat) then Some (Z.of_nat (n - 48)) else None.

Fixpoint parseDigits (acc : Z) (s : string) : option Z :=
  match s with
  | EmptyString => Some acc
  | String c s' =>
      match digitVal c with
      | Some d => parseDigits (10 * acc + d) s'
      | None => None
      end
  end.

Definition minInt64 : Z := - 2 ^ 63.
Definition maxInt64 : Z := 2 ^ 63 - 1.

(** [strconv.ParseInt(s, 10, 64)]: an optional sign, then one or more
    decimal digits, with a value in the 64-bit range. *)
Definition ParseInt (s : string) : option Z :=
  match s with
  | EmptyString => None
  | String c s' =>
      let neg := Ascii.eqb c "-"%char in
      let digits := if neg || Ascii.eqb c "+"%char then s' else s in
      match digits with
      | EmptyString => None
      | _ =>
          match parseDigits 0 digits with
          | Some v =>
              let v := if neg then - v else v in
              if (minInt64 <=? v) && (v <=? maxInt64) then Some v else None
          | None => None
          end
      end
  end.

(** [strconv.Atoi(s)], with Go's 64-bit [int]. *)
Definition Atoi (s : string) : option Z := ParseInt s.

(** [strconv.ParseBool(s)] *)
Definition ParseBool (s : string) : option bool :=
  if existsb (String.eqb s) ["1"; "t"; "T"; "TRUE"; "true"; "True"] then Some true
  else if existsb (String.eqb s) ["0"; "f"; "F"; "FALSE"; "false"; "False"] then Some false
  else None.

End GoStrings.
Import GoStrings.

(** ** Struct-tag directives (the tag parser) *)
Section Tags.
Context `{Float64Model} {cases : unicode.CaseRanges}.

(** [TagInfo] holds parsed information from struct field tags.  A nil
    pointer is [None]; a nil slice is the empty list. *)
Record TagInfo := {
  (* JSON tag *)
  JSONName : string;
  OmitEmpty : bool;
  JSONSkip : bool;
  (* Binding/validate tag *)
  Required : bool;
  MinLength : option Z;
  MaxLength : option Z;
  Minimum : option float64;
  Maximum : option float64;
  Enum : list string;
  Format : string;
  Pattern : string;
  BindingSkip : bool;
  (* GORM tag *)
  PrimaryKey : bool;
  AutoCreateTime : bool;
  AutoUpdateTime : bool;
  GORMSize : option Z;
  GORMDefault : option string;
  UniqueIndex : bool;
  GORMSkip : bool;
  GORMType : string;
  (* Docs tag *)
  Description : string;
  Example : string;
  Deprecated : bool;
  Hidden : bool;
  DocsFormat : string;
  DocsEnum : list string
}.

(** The zero value [var info TagInfo]. *)
Definition zeroTagInfo : TagInfo :=
  {| JSONName := ""; OmitEmpty := false; JSONSkip := false;
     Required := false; MinLength := None; MaxLength := None;
     Minimum := None; Maximum := None; Enum := []; Format := "";
     Pattern := ""; BindingSkip := false; PrimaryKey := false;
     AutoCreateTime := false; AutoUpdateTime := false; GORMSize := None;
     GORMDefault := None; UniqueIndex := false; GORMSkip := false;
     GORMType := ""; Description := ""; Example := ""; Deprecated := false;
     Hidden := false; DocsFormat := ""; DocsEnum := [] |}.

(** Field assignments [info.X = v]. *)
Definition with_Required (v : bool) (r : TagInfo) : TagInfo :=
  {| JSONName := JSONName r; OmitEmpty := OmitEmpty r;
     JSONSkip := JSONSkip r; Required := v; MinLength := MinLength r;
     MaxLength := MaxLength r; Minimum := Minimum r; Maximum := Maximum r;
     Enum := Enum r; Format := Format r; Pattern := Pattern r;
     BindingSkip := BindingSkip r; PrimaryKey := PrimaryKey r;
     AutoCreateTime := AutoCreateTime r; AutoUpdateTime := AutoUpdateTime r;
     GORMSize := GORMSize r; GORMDefault := GORMDefault r;
     UniqueIndex := UniqueIndex r; GORMSkip := GORMSkip r;
     GORMType := GORMType r; Description := Description r;
     Example := Example r; Deprecated := Deprecated r; Hidden := Hidden r;
     DocsFormat := DocsFormat r; DocsEnum := DocsEnum r |}.
Definition with_MinLength (v : option Z) (r : TagInfo) : TagInfo :=
  {| JSONName := JSONName r; OmitEmpty := OmitEmpty r;
     JSONSkip := JSONSkip r; Required := Required r; MinLength := v;
     MaxLength := MaxLength r; Minimum := Minimum r; Maximum := Maximum r;
     Enum := Enum r; Format := Format r; Pattern := Pattern r;
     BindingSkip := BindingSkip r; PrimaryKey := PrimaryKey r;
     AutoCreateTime := AutoCreateTime r; AutoUpdateTime := AutoUpdateTime r;
     GORMSize := GORMSize r; GORMDefault := GORMDefault r;
     UniqueIndex := UniqueIndex r; GORMSkip := GORMSkip r;
     GORMType := GORMType r; Description := Description r;
     Example := Example r; Deprecated := Deprecated r; Hidden := Hidden r;
     DocsFormat := DocsFormat r; DocsEnum := DocsEnum r |}.
Definition with_MaxLength (v : option Z) (r : TagInfo) : TagInfo :=
  {| JSONName := JSONName r; OmitEmpty := OmitEmpty r;
     JSONSkip := JSONSkip r; Required := Required r;
     MinLength := MinLength r; MaxLength := v; Minimum := Minimum r;
     Maximum := Maximum r; Enum := Enum r; Format := Format r;
     Pattern := Pattern r; BindingSkip := BindingSkip r;
     PrimaryKey := PrimaryKey r; AutoCreateTime := AutoCreateTime r;
     AutoUpdateTime := AutoUpdateTime r; GORMSize := GORMSize r;
     GORMDefault := GORMDefault r; UniqueIndex := UniqueIndex r;
     GORMSkip := GORMSkip r; GORMType := GORMType r;
     Description := Description r; Example := Example r;
     Deprecated := Deprecated r; Hidden := Hidden r;
     DocsFormat := DocsFormat r; DocsEnum := DocsEnum r |}.
Definition with_Minimum (v : option float64) (r : TagInfo) : TagInfo :=
  {| JSONName := JSONName r; OmitEmpty := OmitEmpty r;
     JSONSkip := JSONSkip r; Required := Required r;
     MinLength := MinLength r; MaxLength := MaxLength r; Minimum := v;
     Maximum := Maximum r; Enum := Enum r; Format := Format r;
     Pattern := Pattern r; BindingSkip := BindingSkip r;
     PrimaryKey := PrimaryKey r; AutoCreateTime := AutoCreateTime r;
     AutoUpdateTime := AutoUpdateTime r; GORMSize := GORMSize r;
     GORMDefault := GORMDefault r; UniqueIndex := UniqueIndex r;
     GORMSkip := GORMSkip r; GORMType := GORMType r;
     Description := Description r; Example := Example r;
     Deprecated := Deprecated r; Hidden := Hidden r;
     DocsFormat := DocsFormat r; DocsEnum := DocsEnum r |}.
Definition with_Maximum (v : option float64) (r : TagInfo) : TagInfo :=
  {| JSONName := JSONName r; OmitEmpty := OmitEmpty r;
     JSONSkip := JSONSkip r; Required := Required r;
     MinLength := MinLength r; MaxLength := MaxLength r;
     Minimum := Minimum r; Maximum := v; Enum := Enum r; Format := Format r;
     Pattern := Pattern r; BindingSkip := BindingSkip r;
     PrimaryKey := PrimaryKey r; AutoCreateTime := AutoCreateTime r;
     AutoUpdateTime := AutoUpdateTime r; GORMSize := GORMSize r;
     GORMDefault := GORMDefault r; UniqueIndex := UniqueIndex r;
     GORMSkip := GORMSkip r; GORMType := GORMType r;
     Description := Description r; Example := Example r;
     Deprecated := Deprecated r; Hidden := Hidden r;
     DocsFormat := DocsFormat r; DocsEnum := DocsEnum r |}.
Definition with_Enum (v : list string) (r : TagInfo) : TagInfo :=
  {| JSONName := JSONName r; OmitEmpty := OmitEmpty r;
     JSONSkip := JSONSkip r; Required := Required r;
     MinLength := MinLength r; MaxLength := MaxLength r;
     Minimum := Minimum r; Maximum := Maximum r; Enum := v;
     Format := Format r; Pattern := Pattern r; BindingSkip := BindingSkip r;
     PrimaryKey := PrimaryKey r; AutoCreateTime := AutoCreateTime r;
     AutoUpdateTime := AutoUpdateTime r; GORMSize := GORMSize r;
     GORMDefault := GORMDefault r; UniqueIndex := UniqueIndex r;
     GORMSkip := GORMSkip r; GORMType := GORMType r;
     Description := Description r; Example := Example r;
     Deprecated := Deprecated r; Hidden := Hidden r;
     DocsFormat := DocsFormat r; DocsEnum := DocsEnum r |}.
Definition with_Format (v : string) (r : TagInfo) : TagInfo :=
  {| JSONName := JSONName r; OmitEmpty := OmitEmpty r;
     JSONSkip := JSONSkip r; Required := Required r;
     MinLength := MinLength r; MaxLength := MaxLength r;
     Minimum := Minimum r; Maximum := Maximum r; Enum := Enum r; Format := v;
     Pattern := Pattern r; BindingSkip := BindingSkip r;
     PrimaryKey := PrimaryKey r; AutoCreateTime := AutoCreateTime r;
     AutoUpdateTime := AutoUpdateTime r; GORMSize := GORMSize r;
     GORMDefault := GORMDefault r; UniqueIndex := UniqueIndex r;
     GORMSkip := GORMSkip r; GORMType := GORMType r;
     Description := Description r; Example := Example r;
     Deprecated := Deprecated r; Hidden := Hidden r;
     DocsFormat := DocsFormat r; DocsEnum := DocsEnum r |}.
Definition with_BindingSkip (v : bool) (r : TagInfo) : TagInfo :=
  {| JSONName := JSONName r; OmitEmpty := OmitEmpty r;
     JSONSkip := JSONSkip r; Required := Required r;
     MinLength := MinLength r; MaxLength := MaxLength r;
     Minimum := Minimum r; Maximum := Maximum r; Enum := Enum r;
     Format := Format r; Pattern := Pattern r; BindingSkip := v;
     PrimaryKey := PrimaryKey r; AutoCreateTime := AutoCreateTime r;
     AutoUpdateTime := AutoUpdateTime r; GORMSize := GORMSize r;
     GORMDefault := GORMDefault r; UniqueIndex := UniqueIndex r;
     GORMSkip := GORMSkip r; GORMType := GORMType r;
     Description := Description r; Example := Example r;
     Deprecated := Deprecated r; Hidden := Hidden r;
     DocsFormat := DocsFormat r; DocsEnum := DocsEnum r |}.
Definition with_PrimaryKey (v : bool) (r : TagInfo) : TagInfo :=
  {| JSONName := JSONName r; OmitEmpty := OmitEmpty r;
     JSONSkip := JSONSkip r; Required := Required r;
     MinLength := MinLength r; MaxLength := MaxLength r;
     Minimum := Minimum r; Maximum := Maximum r; Enum := Enum r;
     Format := Format r; Pattern := Pattern r; BindingSkip := BindingSkip r;
     PrimaryKey := v; AutoCreateTime := AutoCreateTime r;
     AutoUpdateTime := AutoUpdateTime r; GORMSize := GORMSize r;
     GORMDefault := GORMDefault r; UniqueIndex := UniqueIndex r;
     GORMSkip := GORMSkip r; GORMType := GORMType r;
     Description := Description r; Example := Example r;
     Deprecated := Deprecated r; Hidden := Hidden r;
     DocsFormat := DocsFormat r; DocsEnum := DocsEnum r |}.
Definition with_AutoCreateTime (v : bool) (r : TagInfo) : TagInfo :=
  {| JSONName := JSONName r; OmitEmpty := OmitEmpty r;
     JSONSkip := JSONSkip r; Required := Required r;
     MinLength := MinLength r; MaxLength := MaxLength r;
     Minimum := Minimum r; Maximum := Maximum r; Enum := Enum r;
     Format := Format r; Pattern := Pattern r; BindingSkip := BindingSkip r;
     PrimaryKey := PrimaryKey r; AutoCreateTime := v;
     AutoUpdateTime := AutoUpdateTime r; GORMSize := GORMSize r;
     GORMDefault := GORMDefault r; UniqueIndex := UniqueIndex r;
     GORMSkip := GORMSkip r; GORMType := GORMType r;
     Description := Description r; Example := Example r;
     Deprecated := Deprecated r; Hidden := Hidden r;
     DocsFormat := DocsFormat r; DocsEnum := DocsEnum r |}.
Definition with_AutoUpdateTime (v : bool) (r : TagInfo) : TagInfo :=
  {| JSONName := JSONName r; OmitEmpty := OmitEmpty r;
     JSONSkip := JSONSkip r; Required := Required r;
     MinLength := MinLength r; MaxLength := MaxLength r;
     Minimum := Minimum r; Maximum := Maximum r; Enum := Enum r;
     Format := Format r; Pattern := Pattern r; BindingSkip := BindingSkip r;
     PrimaryKey := PrimaryKey r; AutoCreateTime := AutoCreateTime r;
     AutoUpdateTime := v; GORMSize := GORMSize r;
     GORMDefault := GORMDefault r; UniqueIndex := UniqueIndex r;
     GORMSkip := GORMSkip r; GORMType := GORMType r;
     Description := Description r; Example := Example r;
     Deprecated := Deprecated r; Hidden := Hidden r;
     DocsFormat := DocsFormat r; DocsEnum := DocsEnum r |}.
Definition with_GORMSize (v : option Z) (r : TagInfo) : TagInfo :=
  {| JSONName := JSONName r; OmitEmpty := OmitEmpty r;
     JSONSkip := JSONSkip r; Required := Required r;
     MinLength := MinLength r; MaxLength := MaxLength r;
     Minimum := Minimum r; Maximum := Maximum r; Enum := Enum r;
     Format := Format r; Pattern := Pattern r; BindingSkip := BindingSkip r;
     PrimaryKey := PrimaryKey r; AutoCreateTime := AutoCreateTime r;
     AutoUpdateTime := AutoUpdateTime r; GORMSize := v;
     GORMDefault := GORMDefault r; UniqueIndex := UniqueIndex r;
     GORMSkip := GORMSkip r; GORMType := GORMType r;
     Description := Description r; Example := Example r;
     Deprecated := Deprecated r; Hidden := Hidden r;
     DocsFormat := DocsFormat r; DocsEnum := DocsEnum r |}.
Definition with_GORMDefault (v : option string) (r : TagInfo) : TagInfo :=
  {| JSONName := JSONName r; OmitEmpty := OmitEmpty r;
     JSONSkip := JSONSkip r; Required := Required r;
     MinLength := MinLength r; MaxLength := MaxLength r;
     Minimum := Minimum r; Maximum := Maximum r; Enum := Enum r;
     Format := Format r; Pattern := Pattern r; BindingSkip := BindingSkip r;
     PrimaryKey := PrimaryKey r; AutoCreateTime := AutoCreateTime r;
     AutoUpdateTime := AutoUpdateTime r; GORMSize := GORMSize r;
     GORMDefault := v; UniqueIndex := UniqueIndex r; GORMSkip := GORMSkip r;
     GORMType := GORMType r; Description := Description r;
     Example := Example r; Deprecated := Deprecated r; Hidden := Hidden r;
     DocsFormat := DocsFormat r; DocsEnum := DocsEnum r |}.
Definition with_UniqueIndex (v : bool) (r : TagInfo) : TagInfo :=
  {| JSONName := JSONName r; OmitEmpty := OmitEmpty r;
     JSONSkip := JSONSkip r; Required := Required r;
     MinLength := MinLength r; MaxLength := MaxLength r;
     Minimum := Minimum r; Maximum := Maximum r; Enum := Enum r;
     Format := Format r; Pattern := Pattern r; BindingSkip := BindingSkip r;
     PrimaryKey := PrimaryKey r; AutoCreateTime := AutoCreateTime r;
     AutoUpdateTime := AutoUpdateTime r; GORMSize := GORMSize r;
     GORMDefault := GORMDefault r; UniqueIndex := v; GORMSkip := GORMSkip r;
     GORMType := GORMType r; Description := Description r;
     Example := Example r; Deprecated := Deprecated r; Hidden := Hidden r;
     DocsFormat := DocsFormat r; DocsEnum := DocsEnum r |}.
Definition with_GORMSkip (v : bool) (r : TagInfo) : TagInfo :=
  {| JSONName := JSONName r; OmitEmpty := OmitEmpty r;
     JSONSkip := JSONSkip r; Required := Required r;
     MinLength := MinLength r; MaxLength := MaxLength r;
     Minimum := Minimum r; Maximum := Maximum r; Enum := Enum r;
     Format := Format r; Pattern := Pattern r; BindingSkip := BindingSkip r;
     PrimaryKey := PrimaryKey r; AutoCreateTime := AutoCreateTime r;
     AutoUpdateTime := AutoUpdateTime r; GORMSize := GORMSize r;
     GORMDefault := GORMDefault r; UniqueIndex := UniqueIndex r;
     GORMSkip := v; GORMType := GORMType r; Description := Description r;
     Example := Example r; Deprecated := Deprecated r; Hidden := Hidden r;
     DocsFormat := DocsFormat r; DocsEnum := DocsEnum r |}.
Definition with_GORMType (v : string) (r : TagInfo) : TagInfo :=
  {| JSONName := JSONName r; OmitEmpty := OmitEmpty r;
     JSONSkip := JSONSkip r; Required := Required r;
     MinLength := MinLength r; MaxLength := MaxLength r;
     Minimum := Minimum r; Maximum := Maximum r; Enum := Enum r;
     Format := Format r; Pattern := Pattern r; BindingSkip := BindingSkip r;
     PrimaryKey := PrimaryKey r; AutoCreateTime := AutoCreateTime r;
     AutoUpdateTime := AutoUpdateTime r; GORMSize := GORMSize r;
     GORMDefault := GORMDefault r; UniqueIndex := UniqueIndex r;
     GORMSkip := GORMSkip r; GORMType := v; Description := Description r;
     Example := Example r; Deprecated := Deprecated r; Hidden := Hidden r;
     DocsFormat := DocsFormat r; DocsEnum := DocsEnum r |}.
Definition with_Description (v : string) (r : TagInfo) : TagInfo :=
  {| JSONName := JSONName r; OmitEmpty := OmitEmpty r;
     JSONSkip := JSONSkip r; Required := Required r;
     MinLength := MinLength r; MaxLength := MaxLength r;
     Minimum := Minimum r; Maximum := Maximum r; Enum := Enum r;
     Format := Format r; Pattern := Pattern r; BindingSkip := BindingSkip r;
     PrimaryKey := PrimaryKey r; AutoCreateTime := AutoCreateTime r;
     AutoUpdateTime := AutoUpdateTime r; GORMSize := GORMSize r;
     GORMDefault := GORMDefault r; UniqueIndex := UniqueIndex r;
     GORMSkip := GORMSkip r; GORMType := GORMType r; Description := v;
     Example := Example r; Deprecated := Deprecated r; Hidden := Hidden r;
     DocsFormat := DocsFormat r; DocsEnum := DocsEnum r |}.
Definition with_Example (v : string) (r : TagInfo) : TagInfo :=
  {| JSONName := JSONName r; OmitEmpty := OmitEmpty r;
     JSONSkip := JSONSkip r; Required := Required r;
     MinLength := MinLength r; MaxLength := MaxLength r;
     Minimum := Minimum r; Maximum := Maximum r; Enum := Enum r;
     Format := Format r; Pattern := Pattern r; BindingSkip := BindingSkip r;
     PrimaryKey := PrimaryKey r; AutoCreateTime := AutoCreateTime r;
     AutoUpdateTime := AutoUpdateTime r; GORMSize := GORMSize r;
     GORMDefault := GORMDefault r; UniqueIndex := UniqueIndex r;
     GORMSkip := GORMSkip r; GORMType := GORMType r;
     Description := Description r; Example := v; Deprecated := Deprecated r;
     Hidden := Hidden r; DocsFormat := DocsFormat r;
     DocsEnum := DocsEnum r |}.
Definition with_Deprecated (v : bool) (r : TagInfo) : TagInfo :=
  {| JSONName := JSONName r; OmitEmpty := OmitEmpty r;
     JSONSkip := JSONSkip r; Required := Required r;
     MinLength := MinLength r; MaxLength := MaxLength r;
     Minimum := Minimum r; Maximum := Maximum r; Enum := Enum r;
     Format := Format r; Pattern := Pattern r; BindingSkip := BindingSkip r;
     PrimaryKey := PrimaryKey r; AutoCreateTime := AutoCreateTime r;
     AutoUpdateTime := AutoUpdateTime r; GORMSize := GORMSize r;
     GORMDefault := GORMDefault r; UniqueIndex := UniqueIndex r;
     GORMSkip := GORMSkip r; GORMType := GORMType r;
     Description := Description r; Example := Example r; Deprecated := v;
     Hidden := Hidden r; DocsFormat := DocsFormat r;
     DocsEnum := DocsEnum r |}.
Definition with_Hidden (v : bool) (r : TagInfo) : TagInfo :=
  {| JSONName := JSONName r; OmitEmpty := OmitEmpty r;
     JSONSkip := JSONSkip r; Required := Required r;
     MinLength := MinLength r; MaxLength := MaxLength r;
     Minimum := Minimum r; Maximum := Maximum r; Enum := Enum r;
     Format := Format r; Pattern := Pattern r; BindingSkip := BindingSkip r;
     PrimaryKey := PrimaryKey r; AutoCreateTime := AutoCreateTime r;
     AutoUpdateTime := AutoUpdateTime r; GORMSize := GORMSize r;
     GORMDefault := GORMDefault r; UniqueIndex := UniqueIndex r;
     GORMSkip := GORMSkip r; GORMType := GORMType r;
     Description := Description r; Example := Example r;
     Deprecated := Deprecated r; Hidden := v; DocsFormat := DocsFormat r;
     DocsEnum := DocsEnum r |}.
Definition with_DocsFormat (v : string) (r : TagInfo) : TagInfo :=
  {| JSONName := JSONName r; OmitEmpty := OmitEmpty r;
     JSONSkip := JSONSkip r; Required := Required r;
     MinLength := MinLength r; MaxLength := MaxLength r;
     Minimum := Minimum r; Maximum := Maximum r; Enum := Enum r;
     Format := Format r; Pattern := Pattern r; BindingSkip := BindingSkip r;
     PrimaryKey := PrimaryKey r; AutoCreateTime := AutoCreateTime r;
     AutoUpdateTime := AutoUpdateTime r; GORMSize := GORMSize r;
     GORMDefault := GORMDefault r; UniqueIndex := UniqueIndex r;
     GORMSkip := GORMSkip r; GORMType := GORMType r;
     Description := Description r; Example := Example r;
     Deprecated := Deprecated r; Hidden := Hidden r; DocsFormat := v;
     DocsEnum := DocsEnum r |}.
Definition with_DocsEnum (v : list string) (r : TagInfo) : TagInfo :=
  {| JSONName := JSONName r; OmitEmpty := OmitEmpty r;
     JSONSkip := JSONSkip r; Required := Required r;
     MinLength := MinLength r; MaxLength := MaxLength r;
     Minimum := Minimum r; Maximum := Maximum r; Enum := Enum r;
     Format := Format r; Pattern := Pattern r; BindingSkip := BindingSkip r;
     PrimaryKey := PrimaryKey r; AutoCreateTime := AutoCreateTime r;
     AutoUpdateTime := AutoUpdateTime r; GORMSize := GORMSize r;
     GORMDefault := GORMDefault r; UniqueIndex := UniqueIndex r;
     GORMSkip := GORMSkip r; GORMType := GORMType r;
     Description := Description r; Example := Example r;
     Deprecated := Deprecated r; Hidden := Hidden r;
     DocsFormat := DocsFormat r; DocsEnum := v |}.

(** [parseJSONTag] parses a json struct tag value.  The result is
    [(name, omitEmpty, skip)]; [None] stands for the run-time panic of
    the index expression [parts[0]] on an empty slice. *)
Definition parseJSONTag (tag : string) : option (string * bool * bool) :=
  if String.eqb tag "" then Some ("", false, false)
  else if String.eqb tag "-" then Some ("", false, true)
  else
    let parts := Split tag ","%char in
    match parts with
    | [] => None
    | name :: opts =>
        let omitEmpty :=
          fold_left (fun omitEmpty opt =>
                       if String.eqb opt "omitempty" then true else omitEmpty)
                    opts false in
        Some (name, omitEmpty, false)
    end.

(** One iteration of the loop of [parseBindingTag]: the [switch] on one
    comma-separated part. *)
Definition bindingClause (info : TagInfo) (part : string) : TagInfo :=
  let part := TrimSpace part in
  if String.eqb part "required" then with_Required true info
  else if String.eqb part "email" then with_Format "email" info
  else if String.eqb part "url" || String.eqb part "uri"
          || String.eqb part "http_url" then with_Format "uri" info
  else if String.eqb part "uuid" || String.eqb part "uuid3"
          || String.eqb part "uuid4" || String.eqb part "uuid5"
       then with_Format "uuid" info
  else if String.eqb part "ipv4" then with_Format "ipv4" info
  else if String.eqb part "ipv6" then with_Format "ipv6" info
  else if String.eqb part "ip" then with_Format "ipv4" info
  else if String.eqb part "datetime" then with_Format "date-time" info
  else if HasPrefix part "oneof=" then
    let values := TrimPrefix part "oneof=" in
    with_Enum (Fields values) info
  else if HasPrefix part "min=" then
    match Atoi (TrimPrefix part "min=") with
    | Some v =>
        with_Minimum (Some (float64_of_int v)) (with_MinLength (Some v) info)
    | None => info
    end
  else if HasPrefix part "max=" then
    match Atoi (TrimPrefix part "max=") with
    | Some v =>
        with_Maximum (Some (float64_of_int v)) (with_MaxLength (Some v) info)
    | None => info
    end
  else if HasPrefix part "gte=" then
    match ParseFloat (TrimPrefix part "gte=") with
    | Some v => with_Minimum (Some v) info
    | None => info
    end
  else if HasPrefix part "gt=" then
    match ParseFloat (TrimPrefix part "gt=") with
    | Some v => with_Minimum (Some v) info
    | None => info
    end
  else if HasPrefix part "lte=" then
    match ParseFloat (TrimPrefix part "lte=") with
    | Some v => with_Maximum (Some v) info
    | None => info
    end
  else if HasPrefix part "lt=" then
    match ParseFloat (TrimPrefix part "lt=") with
    | Some v => with_Maximum (Some v) info
    | None => info
    end
  else if HasPrefix part "len=" then
    match Atoi (TrimPrefix part "len=") with
    | Some v => with_MaxLength (Some v) (with_MinLength (Some v) info)
    | None => info
    end
  else info.

(** [parseBindingTag] parses a binding or validate struct tag value. *)
Definition parseBindingTag (tag : string) : TagInfo :=
  let info := zeroTagInfo in
  if String.eqb tag "" || String.eqb tag "-" then
    if String.eqb tag "-" then with_BindingSkip true info else info
  else
    let parts := Split tag ","%char in
    fold_left bindingClause parts info.

(** One iteration of the loop of [parseGORMTag]. *)
Definition gormClause (info : TagInfo) (part : string) : TagInfo :=
  let part := TrimSpace part in
  let lower := ToLower part in
  if String.eqb lower "primarykey" || String.eqb lower "primary_key"
  then with_PrimaryKey true info
  else if String.eqb lower "autocreatetime" then with_AutoCreateTime true info
  else if String.eqb lower "autoupdatetime" then with_AutoUpdateTime true info
  else if String.eqb lower "uniqueindex" || HasPrefix lower "uniqueindex:"
  then with_UniqueIndex true info
  else if HasPrefix lower "size:" then
    match Atoi (TrimPrefix lower "size:") with
    | Some v => with_GORMSize (Some v) info
    | None => info
    end
  else if HasPrefix lower "default:" then
    let val := TrimPrefix part "default:" in
    let val := TrimPrefix val "Default:" in
    (* Remove surrounding quotes. *)
    let val := Trim val quoteCutset in
    with_GORMDefault (Some val) info
  else if HasPrefix lower "type:" then
    with_GORMType (TrimPrefix part "type:") info
  else info.

(** [parseGORMTag] parses a gorm struct tag value. *)
Definition parseGORMTag (tag : string) : TagInfo :=
  let info := zeroTagInfo in
  if String.eqb tag "" then info
  else if String.eqb tag "-" || String.eqb tag "-:all" then
    with_GORMSkip true info
  else
    (* GORM tags use semicolons as separators. *)
    let parts := Split tag ";"%char in
    fold_left gormClause parts info.

(** One iteration of the loop of [parseDocsTag]. *)
Definition docsClause (info : TagInfo) (part : string) : TagInfo :=
  let part := TrimSpace part in
  if String.eqb part "deprecated" then with_Deprecated true info
  else if String.eqb part "hidden" then with_Hidden true info
  else if HasPrefix part "description:" then
    with_Description (TrimPrefix part "description:") info
  else if HasPrefix part "example:" then
    with_Example (TrimPrefix part "example:") info
  else if HasPrefix part "format:" then
    with_DocsFormat (TrimPrefix part "format:") info
  else if HasPrefix part "enum:" then
    let enumStr := TrimPrefix part "enum:" in
    with_DocsEnum (Split enumStr "|"%char) info
  else info.

(** [parseDocsTag] parses a docs struct tag value. *)
Definition parseDocsTag (tag : string) : TagInfo :=
  let info := zeroTagInfo in
  if String.eqb tag "" then info
  else
    let parts := Split tag ","%char in
    fold_left docsClause parts info.

(** [mergeTags] merges parsed tag info from all tag sources into a single
    [TagInfo]. *)
Definition mergeTags (jsonTag bindingTag gormTag docsTag : string)
  : option TagInfo :=
  match parseJSONTag jsonTag with
  | None => None
  | Some (name, omitEmpty, jsonSkip) =>
      let binding := parseBindingTag bindingTag in
      let gorm := parseGORMTag gormTag in
      let docs := parseDocsTag docsTag in
      let info :=
        {| (* JSON *)
           JSONName := name; OmitEmpty := omitEmpty; JSONSkip := jsonSkip;
           (* Binding *)
           Required := Required binding; MinLength := MinLength binding;
           MaxLength := MaxLength binding; Minimum := Minimum binding;
           Maximum := Maximum binding; Enum := Enum binding;
           Format := Format binding; Pattern := Pattern binding;
           BindingSkip := BindingSkip binding;
           (* GORM *)
           PrimaryKey := PrimaryKey gorm;
           AutoCreateTime := AutoCreateTime gorm;
           AutoUpdateTime := AutoUpdateTime gorm; GORMSize := GORMSize gorm;
           GORMDefault := GORMDefault gorm; UniqueIndex := UniqueIndex gorm;
           GORMSkip := GORMSkip gorm; GORMType := GORMType gorm;
           (* Docs *)
           Description := Description docs; Example := Example docs;
           Deprecated := Deprecated docs; Hidden := Hidden docs;
           DocsFormat := DocsFormat docs; DocsEnum := DocsEnum docs |} in
      (* Docs format overrides binding format. *)
      let info :=
        if negb (String.eqb (DocsFormat info) "")
        then with_Format (DocsFormat info) info else info in
      (* Docs enum overrides binding enum. *)
      let info :=
        if (0 <? Z.of_nat (length (DocsEnum info)))
        then with_Enum (DocsEnum info) info else info in
      Some info
  end.

End Tags.

(** ** Reflection: what the code observes of a [reflect.Type] *)
Module reflect.

(** [reflect.Kind] *)
Inductive kind :=
| Invalid | Bool | Int | Int8 | Int16 | Int32 | Int64
| Uint | Uint8 | Uint16 | Uint32 | Uint64 | Uintptr
| Float32 | Float64 | Complex64 | Complex128
| Array | Chan | Func | Interface | Map | Ptr | Slice | String | Struct
| UnsafePointer.

(** The identity of a type.  Two [reflect.Type] values are [==] exactly
    when they are the same identity. *)
Definition rtype := nat.

(** [reflect.StructTag], as the sequence of its [key:value] pairs. *)
Definition StructTag := list (string * string).

(** [reflect.StructField].  A field is exported when its [PkgPath] is
    empty. *)
Record StructField := {
  FieldName : string;
  FieldPkgPath : string;
  FieldType : rtype;
  FieldTag : StructTag;
  Anonymous : bool
}.

Definition IsExported (field : StructField) : bool :=
  String.eqb (FieldPkgPath field) "".

(** [tag.Get(key)]: the value of the first pair with that key, or the
    empty string. *)
Fixpoint Get (tag : StructTag) (key : string) : string :=
  match tag with
  | [] => ""
  | (k, v) :: tag' => if String.eqb k key then v else Get tag' key
  end.

(** What reflection reports about one type. *)
Record TypeInfo := {
  tKind : kind;
  tName : string;            (* Name(): empty for unnamed types *)
  tPkgPath : string;         (* PkgPath(): the defining package *)
  tString : string;          (* String() *)
  tElem : rtype;             (* Elem() of a pointer, slice, array or map *)
  tFields : list StructField; (* Field(0) .. Field(NumField()-1) *)
  tTextMarshaler : bool      (* T or *T implements encoding.TextMarshaler *)
}.

(** The types of a program: a table indexed by identity, and the
    identities of [time.Time] and [*time.Time]. *)
Record Types := {
  types : list TypeInfo;
  timeTime : rtype;
  ptrTimeTime : rtype
}.

Definition invalidType : TypeInfo :=
  {| tKind := Invalid; tName := ""; tPkgPath := ""; tString := "";
     tElem := O; tFields := []; tTextMarshaler := false |}.

Definition info (U : Types) (t : rtype) : TypeInfo :=
  default invalidType (types U !! t).

Definition Kind (U : Types) (t : rtype) : kind := tKind (info U t).
Definition Name (U : Types) (t : rtype) : string := tName (info U t).
Definition PkgPath (U : Types) (t : rtype) : string := tPkgPath (info U t).
Definition TypeString (U : Types) (t : rtype) : string := tString (info U t).
Definition Elem (U : Types) (t : rtype) : rtype := tElem (info U t).
Definition Fields (U : Types) (t : rtype) : list StructField :=
  tFields (info U t).
Definition ImplementsTextMarshaler (U : Types) (t : rtype) : bool :=
  tTextMarshaler (info U t).

Definition isPtr (k : kind) : bool :=
  match k with Ptr => true | _ => false end.
Definition isStruct (k : kind) : bool :=
  match k with Struct => true | _ => false end.
Definition isUint8 (k : kind) : bool :=
  match k with Uint8 => true | _ => false end.

End reflect.

(** ** OpenAPI schema objects *)
Module Schema.
Section WithFloat.
Context `{Float64Model}.

(** A value of type [interface{}] as the code produces it. *)
Inductive AnyValue :=
| VInt64 (v : Z)
| VFloat64 (v : float64)
| VBool (v : bool)
| VString (v : string).

(** [SchemaObject] represents a JSON Schema object. *)
Inductive SchemaObject := mkSchemaObject {
  Ref : string;
  Type_ : string;
  Format : string;
  Title : string;
  Description : string;
  Default : option AnyValue;
  Example : option AnyValue;
  Deprecated : bool;
  ReadOnly : bool;
  WriteOnly : bool;
  Nullable : bool;
  Minimum : option float64;
  Maximum : option float64;
  ExclusiveMinimum : option float64;
  ExclusiveMaximum : option float64;
  MultipleOf : option float64;
  MinLength : option Z;
  MaxLength : option Z;
  Pattern : string;
  Items : option SchemaObject;
  MinItems : option Z;
  MaxItems : option Z;
  Properties : gmap string SchemaObject;
  Required : list string;
  AdditionalProperties : option SchemaObject;
  Enum : list AnyValue;
  AllOf : list SchemaObject;
  OneOf : list SchemaObject;
  AnyOf : list SchemaObject
}.

(** The zero value [SchemaObject{}]. *)
Definition zero : SchemaObject :=
  {| Ref := ""; Type_ := ""; Format := ""; Title := ""; Description := "";
     Default := None; Example := None; Deprecated := false;
     ReadOnly := false; WriteOnly := false; Nullable := false;
     Minimum := None; Maximum := None; ExclusiveMinimum := None;
     ExclusiveMaximum := None; MultipleOf := None; MinLength := None;
     MaxLength := None; Pattern := ""; Items := None; MinItems := None;
     MaxItems := None; Properties := ∅; Required := [];
     AdditionalProperties := None; Enum := []; AllOf := []; OneOf := [];
     AnyOf := [] |}.

(** Field assignments [schema.X = v], also used for composite literals. *)
Definition with_Ref (v : string) (r : SchemaObject) : SchemaObject :=
  {| Ref := v; Type_ := Type_ r; Format := Format r; Title := Title r;
     Description := Description r; Default := Default r;
     Example := Example r; Deprecated := Deprecated r;
     ReadOnly := ReadOnly r; WriteOnly := WriteOnly r;
     Nullable := Nullable r; Minimum := Minimum r; Maximum := Maximum r;
     ExclusiveMinimum := ExclusiveMinimum r;
     ExclusiveMaximum := ExclusiveMaximum r; MultipleOf := MultipleOf r;
     MinLength := MinLength r; MaxLength := MaxLength r;
     Pattern := Pattern r; Items := Items r; MinItems := MinItems r;
     MaxItems := MaxItems r; Properties := Properties r;
     Required := Required r; AdditionalProperties := AdditionalProperties r;
     Enum := Enum r; AllOf := AllOf r; OneOf := OneOf r; AnyOf := AnyOf r |}.
Definition with_Type_ (v : string) (r : SchemaObject) : SchemaObject :=
  {| Ref := Ref r; Type_ := v; Format := Format r; Title := Title r;
     Description := Description r; Default := Default r;
     Example := Example r; Deprecated := Deprecated r;
     ReadOnly := ReadOnly r; WriteOnly := WriteOnly r;
     Nullable := Nullable r; Minimum := Minimum r; Maximum := Maximum r;
     ExclusiveMinimum := ExclusiveMinimum r;
     ExclusiveMaximum := ExclusiveMaximum r; MultipleOf := MultipleOf r;
     MinLength := MinLength r; MaxLength := MaxLength r;
     Pattern := Pattern r; Items := Items r; MinItems := MinItems r;
     MaxItems := MaxItems r; Properties := Properties r;
     Required := Required r; AdditionalProperties := AdditionalProperties r;
     Enum := Enum r; AllOf := AllOf r; OneOf := OneOf r; AnyOf := AnyOf r |}.
Definition with_Format (v : string) (r : SchemaObject) : SchemaObject :=
  {| Ref := Ref r; Type_ := Type_ r; Format := v; Title := Title r;
     Description := Description r; Default := Default r;
     Example := Example r; Deprecated := Deprecated r;
     ReadOnly := ReadOnly r; WriteOnly := WriteOnly r;
     Nullable := Nullable r; Minimum := Minimum r; Maximum := Maximum r;
     ExclusiveMinimum := ExclusiveMinimum r;
     ExclusiveMaximum := ExclusiveMaximum r; MultipleOf := MultipleOf r;
     MinLength := MinLength r; MaxLength := MaxLength r;
     Pattern := Pattern r; Items := Items r; MinItems := MinItems r;
     MaxItems := MaxItems r; Properties := Properties r;
     Required := Required r; AdditionalProperties := AdditionalProperties r;
     Enum := Enum r; AllOf := AllOf r; OneOf := OneOf r; AnyOf := AnyOf r |}.
Definition with_Description (v : string) (r : SchemaObject) : SchemaObject :=
  {| Ref := Ref r; Type_ := Type_ r; Format := Format r; Title := Title r;
     Description := v; Default := Default r; Example := Example r;
     Deprecated := Deprecated r; ReadOnly := ReadOnly r;
     WriteOnly := WriteOnly r; Nullable := Nullable r; Minimum := Minimum r;
     Maximum := Maximum r; ExclusiveMinimum := ExclusiveMinimum r;
     ExclusiveMaximum := ExclusiveMaximum r; MultipleOf := MultipleOf r;
     MinLength := MinLength r; MaxLength := MaxLength r;
     Pattern := Pattern r; Items := Items r; MinItems := MinItems r;
     MaxItems := MaxItems r; Properties := Properties r;
     Required := Required r; AdditionalProperties := AdditionalProperties r;
     Enum := Enum r; AllOf := AllOf r; OneOf := OneOf r; AnyOf := AnyOf r |}.
Definition with_Default (v : option AnyValue) (r : SchemaObject) : SchemaObject :=
  {| Ref := Ref r; Type_ := Type_ r; Format := Format r; Title := Title r;
     Description := Description r; Default := v; Example := Example r;
     Deprecated := Deprecated r; ReadOnly := ReadOnly r;
     WriteOnly := WriteOnly r; Nullable := Nullable r; Minimum := Minimum r;
     Maximum := Maximum r; ExclusiveMinimum := ExclusiveMinimum r;
     ExclusiveMaximum := ExclusiveMaximum r; MultipleOf := MultipleOf r;
     MinLength := MinLength r; MaxLength := MaxLength r;
     Pattern := Pattern r; Items := Items r; MinItems := MinItems r;
     MaxItems := MaxItems r; Properties := Properties r;
     Required := Required r; AdditionalProperties := AdditionalProperties r;
     Enum := Enum r; AllOf := AllOf r; OneOf := OneOf r; AnyOf := AnyOf r |}.
Definition with_Example (v : option AnyValue) (r : SchemaObject) : SchemaObject :=
  {| Ref := Ref r; Type_ := Type_ r; Format := Format r; Title := Title r;
     Description := Description r; Default := Default r; Example := v;
     Deprecated := Deprecated r; ReadOnly := ReadOnly r;
     WriteOnly := WriteOnly r; Nullable := Nullable r; Minimum := Minimum r;
     Maximum := Maximum r; ExclusiveMinimum := ExclusiveMinimum r;
     ExclusiveMaximum := ExclusiveMaximum r; MultipleOf := MultipleOf r;
     MinLength := MinLength r; MaxLength := MaxLength r;
     Pattern := Pattern r; Items := Items r; MinItems := MinItems r;
     MaxItems := MaxItems r; Properties := Properties r;
     Required := Required r; AdditionalProperties := AdditionalProperties r;
     Enum := Enum r; AllOf := AllOf r; OneOf := OneOf r; AnyOf := AnyOf r |}.
Definition with_Deprecated (v : bool) (r : SchemaObject) : SchemaObject :=
  {| Ref := Ref r; Type_ := Type_ r; Format := Format r; Title := Title r;
     Description := Description r; Default := Default r;
     Example := Example r; Deprecated := v; ReadOnly := ReadOnly r;
     WriteOnly := WriteOnly r; Nullable := Nullable r; Minimum := Minimum r;
     Maximum := Maximum r; ExclusiveMinimum := ExclusiveMinimum r;
     ExclusiveMaximum := ExclusiveMaximum r; MultipleOf := MultipleOf r;
     MinLength := MinLength r; MaxLength := MaxLength r;
     Pattern := Pattern r; Items := Items r; MinItems := MinItems r;
     MaxItems := MaxItems r; Properties := Properties r;
     Required := Required r; AdditionalProperties := AdditionalProperties r;
     Enum := Enum r; AllOf := AllOf r; OneOf := OneOf r; AnyOf := AnyOf r |}.
Definition with_ReadOnly (v : bool) (r : SchemaObject) : SchemaObject :=
  {| Ref := Ref r; Type_ := Type_ r; Format := Format r; Title := Title r;
     Description := Description r; Default := Default r;
     Example := Example r; Deprecated := Deprecated r; ReadOnly := v;
     WriteOnly := WriteOnly r; Nullable := Nullable r; Minimum := Minimum r;
     Maximum := Maximum r; ExclusiveMinimum := ExclusiveMinimum r;
     ExclusiveMaximum := ExclusiveMaximum r; MultipleOf := MultipleOf r;
     MinLength := MinLength r; MaxLength := MaxLength r;
     Pattern := Pattern r; Items := Items r; MinItems := MinItems r;
     MaxItems := MaxItems r; Properties := Properties r;
     Required := Required r; AdditionalProperties := AdditionalProperties r;
     Enum := Enum r; AllOf := AllOf r; OneOf := OneOf r; AnyOf := AnyOf r |}.
Definition with_Minimum (v : option float64) (r : SchemaObject) : SchemaObject :=
  {| Ref := Ref r; Type_ := Type_ r; Format := Format r; Title := Title r;
     Description := Description r; Default := Default r;
     Example := Example r; Deprecated := Deprecated r;
     ReadOnly := ReadOnly r; WriteOnly := WriteOnly r;
     Nullable := Nullable r; Minimum := v; Maximum := Maximum r;
     ExclusiveMinimum := ExclusiveMinimum r;
     ExclusiveMaximum := ExclusiveMaximum r; MultipleOf := MultipleOf r;
     MinLength := MinLength r; MaxLength := MaxLength r;
     Pattern := Pattern r; Items := Items r; MinItems := MinItems r;
     MaxItems := MaxItems r; Properties := Properties r;
     Required := Required r; AdditionalProperties := AdditionalProperties r;
     Enum := Enum r; AllOf := AllOf r; OneOf := OneOf r; AnyOf := AnyOf r |}.
Definition with_Maximum (v : option float64) (r : SchemaObject) : SchemaObject :=
  {| Ref := Ref r; Type_ := Type_ r; Format := Format r; Title := Title r;
     Description := Description r; Default := Default r;
     Example := Example r; Deprecated := Deprecated r;
     ReadOnly := ReadOnly r; WriteOnly := WriteOnly r;
     Nullable := Nullable r; Minimum := Minimum r; Maximum := v;
     ExclusiveMinimum := ExclusiveMinimum r;
     ExclusiveMaximum := ExclusiveMaximum r; MultipleOf := MultipleOf r;
     MinLength := MinLength r; MaxLength := MaxLength r;
     Pattern := Pattern r; Items := Items r; MinItems := MinItems r;
     MaxItems := MaxItems r; Properties := Properties r;
     Required := Required r; AdditionalProperties := AdditionalProperties r;
     Enum := Enum r; AllOf := AllOf r; OneOf := OneOf r; AnyOf := AnyOf r |}.
Definition with_MinLength (v : option Z) (r : SchemaObject) : SchemaObject :=
  {| Ref := Ref r; Type_ := Type_ r; Format := Format r; Title := Title r;
     Description := Description r; Default := Default r;
     Example := Example r; Deprecated := Deprecated r;
     ReadOnly := ReadOnly r; WriteOnly := WriteOnly r;
     Nullable := Nullable r; Minimum := Minimum r; Maximum := Maximum r;
     ExclusiveMinimum := ExclusiveMinimum r;
     ExclusiveMaximum := ExclusiveMaximum r; MultipleOf := MultipleOf r;
     MinLength := v; MaxLength := MaxLength r; Pattern := Pattern r;
     Items := Items r; MinItems := MinItems r; MaxItems := MaxItems r;
     Properties := Properties r; Required := Required r;
     AdditionalProperties := AdditionalProperties r; Enum := Enum r;
     AllOf := AllOf r; OneOf := OneOf r; AnyOf := AnyOf r |}.
Definition with_MaxLength (v : option Z) (r : SchemaObject) : SchemaObject :=
  {| Ref := Ref r; Type_ := Type_ r; Format := Format r; Title := Title r;
     Description := Description r; Default := Default r;
     Example := Example r; Deprecated := Deprecated r;
     ReadOnly := ReadOnly r; WriteOnly := WriteOnly r;
     Nullable := Nullable r; Minimum := Minimum r; Maximum := Maximum r;
     ExclusiveMinimum := ExclusiveMinimum r;
     ExclusiveMaximum := ExclusiveMaximum r; MultipleOf := MultipleOf r;
     MinLength := MinLength r; MaxLength := v; Pattern := Pattern r;
     Items := Items r; MinItems := MinItems r; MaxItems := MaxItems r;
     Properties := Properties r; Required := Required r;
     AdditionalProperties := AdditionalProperties r; Enum := Enum r;
     AllOf := AllOf r; OneOf := OneOf r; AnyOf := AnyOf r |}.
Definition with_Items (v : option SchemaObject) (r : SchemaObject) : SchemaObject :=
  {| Ref := Ref r; Type_ := Type_ r; Format := Format r; Title := Title r;
     Description := Description r; Default := Default r;
     Example := Example r; Deprecated := Deprecated r;
     ReadOnly := ReadOnly r; WriteOnly := WriteOnly r;
     Nullable := Nullable r; Minimum := Minimum r; Maximum := Maximum r;
     ExclusiveMinimum := ExclusiveMinimum r;
     ExclusiveMaximum := ExclusiveMaximum r; MultipleOf := MultipleOf r;
     MinLength := MinLength r; MaxLength := MaxLength r;
     Pattern := Pattern r; Items := v; MinItems := MinItems r;
     MaxItems := MaxItems r; Properties := Properties r;
     Required := Required r; AdditionalProperties := AdditionalProperties r;
     Enum := Enum r; AllOf := AllOf r; OneOf := OneOf r; AnyOf := AnyOf r |}.
Definition with_Properties (v : gmap string SchemaObject) (r : SchemaObject) : SchemaObject :=
  {| Ref := Ref r; Type_ := Type_ r; Format := Format r; Title := Title r;
     Description := Description r; Default := Default r;
     Example := Example r; Deprecated := Deprecated r;
     ReadOnly := ReadOnly r; WriteOnly := WriteOnly r;
     Nullable := Nullable r; Minimum := Minimum r; Maximum := Maximum r;
     ExclusiveMinimum := ExclusiveMinimum r;
     ExclusiveMaximum := ExclusiveMaximum r; MultipleOf := MultipleOf r;
     MinLength := MinLength r; MaxLength := MaxLength r;
     Pattern := Pattern r; Items := Items r; MinItems := MinItems r;
     MaxItems := MaxItems r; Properties := v; Required := Required r;
     AdditionalProperties := AdditionalProperties r; Enum := Enum r;
     AllOf := AllOf r; OneOf := OneOf r; AnyOf := AnyOf r |}.
Definition with_Required (v : list string) (r : SchemaObject) : SchemaObject :=
  {| Ref := Ref r; Type_ := Type_ r; Format := Format r; Title := Title r;
     Description := Description r; Default := Default r;
     Example := Example r; Deprecated := Deprecated r;
     ReadOnly := ReadOnly r; WriteOnly := WriteOnly r;
     Nullable := Nullable r; Minimum := Minimum r; Maximum := Maximum r;
     ExclusiveMinimum := ExclusiveMinimum r;
     ExclusiveMaximum := ExclusiveMaximum r; MultipleOf := MultipleOf r;
     MinLength := MinLength r; MaxLength := MaxLength r;
     Pattern := Pattern r; Items := Items r; MinItems := MinItems r;
     MaxItems := MaxItems r; Properties := Properties r; Required := v;
     AdditionalProperties := AdditionalProperties r; Enum := Enum r;
     AllOf := AllOf r; OneOf := OneOf r; AnyOf := AnyOf r |}.
Definition with_AdditionalProperties (v : option SchemaObject) (r : SchemaObject) : SchemaObject :=
  {| Ref := Ref r; Type_ := Type_ r; Format := Format r; Title := Title r;
     Description := Description r; Default := Default r;
     Example := Example r; Deprecated := Deprecated r;
     ReadOnly := ReadOnly r; WriteOnly := WriteOnly r;
     Nullable := Nullable r; Minimum := Minimum r; Maximum := Maximum r;
     ExclusiveMinimum := ExclusiveMinimum r;
     ExclusiveMaximum := ExclusiveMaximum r; MultipleOf := MultipleOf r;
     MinLength := MinLength r; MaxLength := MaxLength r;
     Pattern := Pattern r; Items := Items r; MinItems := MinItems r;
     MaxItems := MaxItems r; Properties := Properties r;
     Required := Required r; AdditionalProperties := v; Enum := Enum r;
     AllOf := AllOf r; OneOf := OneOf r; AnyOf := AnyOf r |}.
Definition with_Enum (v : list AnyValue) (r : SchemaObject) : SchemaObject :=
  {| Ref := Ref r; Type_ := Type_ r; Format := Format r; Title := Title r;
     Description := Description r; Default := Default r;
     Example := Example r; Deprecated := Deprecated r;
     ReadOnly := ReadOnly r; WriteOnly := WriteOnly r;
     Nullable := Nullable r; Minimum := Minimum r; Maximum := Maximum r;
     ExclusiveMinimum := ExclusiveMinimum r;
     ExclusiveMaximum := ExclusiveMaximum r; MultipleOf := MultipleOf r;
     MinLength := MinLength r; MaxLength := MaxLength r;
     Pattern := Pattern r; Items := Items r; MinItems := MinItems r;
     MaxItems := MaxItems r; Properties := Properties r;
     Required := Required r; AdditionalProperties := AdditionalProperties r;
     Enum := v; AllOf := AllOf r; OneOf := OneOf r; AnyOf := AnyOf r |}.
Definition with_AllOf (v : list SchemaObject) (r : SchemaObject) : SchemaObject :=
  {| Ref := Ref r; Type_ := Type_ r; Format := Format r; Title := Title r;
     Description := Description r; Default := Default r;
     Example := Example r; Deprecated := Deprecated r;
     ReadOnly := ReadOnly r; WriteOnly := WriteOnly r;
     Nullable := Nullable r; Minimum := Minimum r; Maximum := Maximum r;
     ExclusiveMinimum := ExclusiveMinimum r;
     ExclusiveMaximum := ExclusiveMaximum r; MultipleOf := MultipleOf r;
     MinLength := MinLength r; MaxLength := MaxLength r;
     Pattern := Pattern r; Items := Items r; MinItems := MinItems r;
     MaxItems := MaxItems r; Properties := Properties r;
     Required := Required r; AdditionalProperties := AdditionalProperties r;
     Enum := Enum r; AllOf := v; OneOf := OneOf r; AnyOf := AnyOf r |}.

End WithFloat.
End Schema.

(** ** The type registry and the schema compiler *)
Section Compiler.
Context `{Float64Model} {cases : unicode.CaseRanges}.
Local Abbreviation SchemaObject := Schema.SchemaObject.

(** [TypeRegistry] manages schema deduplication and $ref generation.
    [schemas] is the map from name to schema.  [seen] tracks the types
    currently being processed; the Go map [seen] only ever holds the value
    [true], so it is the set of its keys.  The mutex is not modelled: the
    compiler runs on one goroutine. *)
Record TypeRegistry := {
  schemas : gmap string SchemaObject;
  seen : gset reflect.rtype
}.

(** [newTypeRegistry] creates a new TypeRegistry. *)
Definition newTypeRegistry : TypeRegistry :=
  {| schemas := ∅; seen := ∅ |}.

(** [Register] adds a schema to the registry under the given name. *)
Definition Register (name : string) (schema : SchemaObject)
  (r : TypeRegistry) : TypeRegistry :=
  {| schemas := <[name := schema]> (schemas r); seen := seen r |}.

(** [Get] retrieves a schema by name. *)
Definition Get (name : string) (r : TypeRegistry) : option SchemaObject :=
  schemas r !! name.

(** [Has] checks if a schema with the given name exists. *)
Definition Has (name : string) (r : TypeRegistry) : bool :=
  match schemas r !! name with
  | Some _ => true
  | None => false
  end.

(** [All] returns a copy of all registered schemas. *)
Definition All (r : TypeRegistry) : gmap string SchemaObject := schemas r.

(** [RefPath] returns the OpenAPI $ref path for a named schema. *)
Definition RefPath (name : string) : string :=
  String.append "#/components/schemas/" name.

(** [SchemaRef] returns a SchemaObject that is a $ref to a named component. *)
Definition SchemaRef (name : string) : SchemaObject :=
  Schema.with_Ref (RefPath name) Schema.zero.

(** [markSeen] marks a type as currently being processed. *)
Definition markSeen (t : reflect.rtype) (r : TypeRegistry) : TypeRegistry :=
  {| schemas := schemas r; seen := {[t]} ∪ seen r |}.

(** [unmarkSeen] removes a type from the processing set. *)
Definition unmarkSeen (t : reflect.rtype) (r : TypeRegistry) : TypeRegistry :=
  {| schemas := schemas r; seen := seen r ∖ {[t]} |}.

(** [isSeen] checks if a type is currently being processed. *)
Definition isSeen (t : reflect.rtype) (r : TypeRegistry) : bool :=
  bool_decide (t ∈ seen r).

(** The loop [for t.Kind() == reflect.Ptr { t = t.Elem() }]. *)
Fixpoint derefPtr (fuel : nat) (U : reflect.Types) (t : reflect.rtype)
  : option reflect.rtype :=
  if reflect.isPtr (reflect.Kind U t) then
    match fuel with
    | O => None
    | S fuel' => derefPtr fuel' U (reflect.Elem U t)
    end
  else Some t.

(** [schemaName] generates a schema name from a reflect.Type. *)
Definition schemaName (fuel : nat) (U : reflect.Types) (t : reflect.rtype)
  : option string :=
  (* Dereference pointers. *)
  t ← derefPtr fuel U t;
  let name := reflect.Name U t in
  if String.eqb name "" then
    (* Anonymous struct — use a generated name. *)
    Some "AnonymousStruct"
  else Some name.

(** [specialTypeSchema] handles well-known types that need special
    treatment; [None] is the nil result. *)
Definition specialTypeSchema (U : reflect.Types) (t : reflect.rtype)
  : option SchemaObject :=
  (* time.Time → string with date-time format. *)
  if Nat.eqb t (reflect.timeTime U) then
    Some (Schema.with_Format "date-time" (Schema.with_Type_ "string" Schema.zero))
  (* Types that implement encoding.TextMarshaler serialize as strings. *)
  else if reflect.ImplementsTextMarshaler U t then
    Some (Schema.with_Type_ "string" Schema.zero)
  else None.

(** [parseDefaultValue] converts a string default to the appropriate Go
    type. *)
Definition parseDefaultValue (val schemaType : string) : Schema.AnyValue :=
  if String.eqb schemaType "integer" then
    match ParseInt val with Some v => Schema.VInt64 v | None => Schema.VString val end
  else if String.eqb schemaType "number" then
    match ParseFloat val with Some v => Schema.VFloat64 v | None => Schema.VString val end
  else if String.eqb schemaType "boolean" then
    match ParseBool val with Some v => Schema.VBool v | None => Schema.VString val end
  else Schema.VString val.

(** [parseExampleValue] converts a string example to the appropriate Go
    type. *)
Definition parseExampleValue (val schemaType : string) : Schema.AnyValue :=
  if String.eqb schemaType "integer" then
    match ParseInt val with Some v => Schema.VInt64 v | None => Schema.VString val end
  else if String.eqb schemaType "number" then
    match ParseFloat val with Some v => Schema.VFloat64 v | None => Schema.VString val end
  else if String.eqb schemaType "boolean" then
    match ParseBool val with Some v => Schema.VBool v | None => Schema.VString val end
  else Schema.VString val.

(** [applyTagConstraints] applies parsed tag information to a schema. *)
Definition applyTagConstraints (schema : SchemaObject) (tags : TagInfo)
  : SchemaObject :=
  (* Description. *)
  let schema :=
    if negb (String.eqb (Description tags) "")
    then Schema.with_Description (Description tags) schema else schema in
  (* Add "Must be unique" to description if unique index. *)
  let schema :=
    if UniqueIndex tags then
      if negb (String.eqb (Schema.Description schema) "")
      then Schema.with_Description
             (String.append (Schema.Description schema) ". Must be unique")
             schema
      else Schema.with_Description "Must be unique" schema
    else schema in
  (* Format. *)
  let schema :=
    if negb (String.eqb (Format tags) "")
    then Schema.with_Format (Format tags) schema else schema in
  (* Enum. *)
  let schema :=
    if (0 <? Z.of_nat (length (Enum tags)))
    then Schema.with_Enum
           (fold_left (fun enum v => (enum ++ [Schema.VString v])%list) (Enum tags)
                      (Schema.Enum schema))
           schema
    else schema in
  (* Numeric constraints — only apply to number/integer types. *)
  let schema :=
    if String.eqb (Schema.Type_ schema) "integer" || String.eqb (Schema.Type_ schema) "number"
    then Schema.with_Maximum (Maximum tags) (Schema.with_Minimum (Minimum tags) schema)
    else schema in
  (* String constraints — only apply to string types. *)
  let schema :=
    if String.eqb (Schema.Type_ schema) "string" then
      let schema :=
        Schema.with_MaxLength (MaxLength tags)
          (Schema.with_MinLength (MinLength tags) schema) in
      (* GORM size as maxLength. *)
      match GORMSize tags, Schema.MaxLength schema with
      | Some _, None => Schema.with_MaxLength (GORMSize tags) schema
      | _, _ => schema
      end
    else schema in
  (* Default value. *)
  let schema :=
    match GORMDefault tags with
    | Some d => Schema.with_Default (Some (parseDefaultValue d (Schema.Type_ schema))) schema
    | None => schema
    end in
  (* ReadOnly for primary keys and auto-timestamps. *)
  let schema :=
    if PrimaryKey tags || AutoCreateTime tags || AutoUpdateTime tags
    then Schema.with_ReadOnly true schema else schema in
  (* Deprecated. *)
  let schema :=
    if Deprecated tags then Schema.with_Deprecated true schema else schema in
  (* Example. *)
  if negb (String.eqb (Example tags) "")
  then Schema.with_Example (Some (parseExampleValue (Example tags) (Schema.Type_ schema)))
         schema
  else schema.

(** A [for i := 0; i < t.NumField(); i++] loop: [body] is run on each
    field in order, threading the schema under construction and the
    registry. *)
Fixpoint forEachField
  (body : reflect.StructField -> SchemaObject * TypeRegistry ->
          option (SchemaObject * TypeRegistry))
  (fields : list reflect.StructField) (st : SchemaObject * TypeRegistry)
  : option (SchemaObject * TypeRegistry) :=
  match fields with
  | [] => Some st
  | field :: rest =>
      match body field st with
      | Some st' => forEachField body rest st'
      | None => None
      end
  end.

(** The test that opens every field loop:
    [if field.Anonymous { embeddedType := field.Type; for ... Ptr ...;
     if embeddedType.Kind() == reflect.Struct &&
        specialTypeSchema(embeddedType) == nil { ... } }].
    The result is [Some (Some embeddedType)] when the guarded block is
    entered and [Some None] when it is not. *)
Definition embeddedStruct (fuel : nat) (U : reflect.Types)
  (field : reflect.StructField) : option (option reflect.rtype) :=
  if reflect.Anonymous field then
    embeddedType ← derefPtr fuel U (reflect.FieldType field);
    if reflect.isStruct (reflect.Kind U embeddedType) then
      (* Check if it's a special type (like time.Time). *)
      match specialTypeSchema U embeddedType with
      | None => Some (Some embeddedType)
      | Some _ => Some None
      end
    else Some None
  else Some None.

(** [tagInfo := mergeTags(field.Tag.Get("json"), ...)] *)
Definition fieldTags (field : reflect.StructField) : option TagInfo :=
  mergeTags (reflect.Get (reflect.FieldTag field) "json")
            (reflect.Get (reflect.FieldTag field) "binding")
            (reflect.Get (reflect.FieldTag field) "gorm")
            (reflect.Get (reflect.FieldTag field) "docs").

(** [propName := tagInfo.JSONName; if propName == "" { propName = field.Name }] *)
Definition propertyName (tagInfo : TagInfo) (field : reflect.StructField)
  : string :=
  if String.eqb (JSONName tagInfo) "" then reflect.FieldName field
  else JSONName tagInfo.

End Compiler.

(** *** The compiler proper *)
Section Compile.
Context `{Float64Model}.
Local Abbreviation SchemaObject := Schema.SchemaObject.

(** [typeToSchema] converts a Go reflect.Type to an OpenAPI SchemaObject.
    It registers struct types in the registry and returns $ref for known
    types.  [structToSchema] converts a struct type and registers it;
    [processStructFields] processes struct fields, handling embedded
    structs recursively; [fieldToSchema] generates a schema for a struct
    field, applying tag constraints. *)
Fixpoint typeToSchema `{unicode.CaseRanges} (fuel : nat) (U : reflect.Types)
  (t : reflect.rtype) (registry : TypeRegistry) {struct fuel}
  : option (SchemaObject * TypeRegistry) :=
  match fuel with
  | O => None
  | S fuel' =>
      (* Dereference pointers. *)
      t ← derefPtr fuel' U t;
      (* Handle special types first. *)
      match specialTypeSchema U t with
      | Some schema => Some (schema, registry)
      | None =>
          match reflect.Kind U t with
          | reflect.Bool => Some (Schema.with_Type_ "boolean" Schema.zero, registry)
          | reflect.Int | reflect.Int8 | reflect.Int16 | reflect.Int32
          | reflect.Uint | reflect.Uint8 | reflect.Uint16 | reflect.Uint32 =>
              Some (Schema.with_Format "int32" (Schema.with_Type_ "integer" Schema.zero), registry)
          | reflect.Int64 | reflect.Uint64 =>
              Some (Schema.with_Format "int64" (Schema.with_Type_ "integer" Schema.zero), registry)
          | reflect.Float32 =>
              Some (Schema.with_Format "float" (Schema.with_Type_ "number" Schema.zero), registry)
          | reflect.Float64 =>
              Some (Schema.with_Format "double" (Schema.with_Type_ "number" Schema.zero), registry)
          | reflect.String => Some (Schema.with_Type_ "string" Schema.zero, registry)
          | reflect.Slice | reflect.Array =>
              '(elemSchema, registry) ←
                typeToSchema fuel' U (reflect.Elem U t) registry;
              (* []byte is a string (base64) *)
              if reflect.isUint8 (reflect.Kind U (reflect.Elem U t)) then
                Some (Schema.with_Format "byte" (Schema.with_Type_ "string" Schema.zero), registry)
              else
                Some (Schema.with_Items (Some elemSchema) (Schema.with_Type_ "array" Schema.zero),
                      registry)
          | reflect.Map =>
              '(valSchema, registry) ←
                typeToSchema fuel' U (reflect.Elem U t) registry;
              Some (Schema.with_AdditionalProperties (Some valSchema)
                      (Schema.with_Type_ "object" Schema.zero),
                    registry)
          | reflect.Struct => structToSchema fuel' U t registry
          | reflect.Interface =>
              (* interface{} / any *)
              Some (Schema.zero, registry)
          | _ => Some (Schema.with_Type_ "string" Schema.zero, registry)
          end
      end
  end

with structToSchema `{unicode.CaseRanges} (fuel : nat) (U : reflect.Types)
  (t : reflect.rtype) (registry : TypeRegistry) {struct fuel}
  : option (SchemaObject * TypeRegistry) :=
  match fuel with
  | O => None
  | S fuel' =>
      (* Dereference pointers. *)
      t ← derefPtr fuel' U t;
      name ← schemaName fuel' U t;
      (* If already registered, return a $ref. *)
      if Has name registry then Some (SchemaRef name, registry)
      (* Check for circular references. *)
      else if isSeen t registry then Some (SchemaRef name, registry)
      else
        (* Mark as being processed. *)
        let registry := markSeen t registry in
        let schema := Schema.with_Properties ∅ (Schema.with_Type_ "object" Schema.zero) in
        (* Process all fields including embedded structs. *)
        '(schema, registry) ← processStructFields fuel' U t schema registry;
        (* Register the schema. *)
        let registry := Register name schema registry in
        (* defer registry.unmarkSeen(t) *)
        let registry := unmarkSeen t registry in
        Some (SchemaRef name, registry)
  end

with processStructFields `{unicode.CaseRanges} (fuel : nat) (U : reflect.Types)
  (t : reflect.rtype) (schema : SchemaObject) (registry : TypeRegistry)
  {struct fuel}
  : option (SchemaObject * TypeRegistry) :=
  match fuel with
  | O => None
  | S fuel' =>
      forEachField
        (fun field '(schema, registry) =>
           (* Skip unexported fields. *)
           if negb (reflect.IsExported field) then Some (schema, registry)
           else
             (* Handle embedded structs. *)
             embedded ← embeddedStruct fuel' U field;
             match embedded with
             | Some embeddedType =>
                 processStructFields fuel' U embeddedType schema registry
             | None =>
                 (* Parse all tags. *)
                 tagInfo ← fieldTags field;
                 (* Skip hidden or skipped fields. *)
                 if JSONSkip tagInfo || GORMSkip tagInfo || Hidden tagInfo
                 then Some (schema, registry)
                 else
                   (* Determine property name. *)
                   let propName := propertyName tagInfo field in
                   (* Generate schema for the field type. *)
                   '(fieldSchema, registry) ←
                     fieldToSchema fuel' U (reflect.FieldType field) tagInfo
                                   registry;
                   let schema :=
                     Schema.with_Properties
                       (<[propName := fieldSchema]> (Schema.Properties schema))
                       schema in
                   (* Add to required list. *)
                   let schema :=
                     if Required tagInfo
                     then Schema.with_Required (Schema.Required schema ++ [propName])%list
                                        schema
                     else schema in
                   Some (schema, registry)
             end)
        (reflect.Fields U t) (schema, registry)
  end

with fieldToSchema `{unicode.CaseRanges} (fuel : nat) (U : reflect.Types)
  (t : reflect.rtype) (tags : TagInfo) (registry : TypeRegistry)
  {struct fuel}
  : option (SchemaObject * TypeRegistry) :=
  match fuel with
  | O => None
  | S fuel' =>
      (* Get the base schema from the type. *)
      '(baseSchema, registry) ← typeToSchema fuel' U t registry;
      (* If it's a $ref, we can't add constraints directly. *)
      if negb (String.eqb (Schema.Ref baseSchema) "") then
        (* Apply description via wrapper if needed. *)
        if negb (String.eqb (Description tags) "") || Deprecated tags then
          Some (Schema.with_Deprecated (Deprecated tags)
                  (Schema.with_Description (Description tags)
                     (Schema.with_AllOf [baseSchema] Schema.zero)),
                registry)
        else Some (baseSchema, registry)
      else
        (* Apply tag constraints to the schema. *)
        Some (applyTagConstraints baseSchema tags, registry)
  end.

(** [SchemaFromType] generates an OpenAPI schema for the type of a Go
    value and registers it. *)
Definition SchemaFromType `{unicode.CaseRanges} (fuel : nat)
  (U : reflect.Types) (t : reflect.rtype) (registry : TypeRegistry)
  : option (SchemaObject * TypeRegistry) :=
  typeToSchema fuel U t registry.

End Compile.

(** ** GORM model variants *)
Section Variants.
Context `{Float64Model} {cases : unicode.CaseRanges}.

Local Abbreviation SchemaObject := Schema.SchemaObject.

(** [shouldSkipForCreate] determines if a field should be excluded from
    create variants. *)
Definition shouldSkipForCreate (U : reflect.Types)
  (field : reflect.StructField) : bool :=
  let name := reflect.FieldName field in
  let gormTag := ToLower (reflect.Get (reflect.FieldTag field) "gorm") in
  (* Skip primary keys. *)
  if Contains gormTag "primarykey" || Contains gormTag "primary_key" then true
  (* Skip auto-timestamps. *)
  else if Contains gormTag "autocreatetime" || Contains gormTag "autoupdatetime"
  then true
  (* Skip common auto-generated fields by name. *)
  else if String.eqb name "ID" || String.eqb name "CreatedAt"
          || String.eqb name "UpdatedAt" || String.eqb name "DeletedAt"
  then true
  (* Skip gorm.DeletedAt type. *)
  else if String.eqb (reflect.TypeString U (reflect.FieldType field))
                     "gorm.DeletedAt"
  then true
  (* Skip time.Time fields named like timestamps. *)
  else if Nat.eqb (reflect.FieldType field) (reflect.timeTime U)
          || Nat.eqb (reflect.FieldType field) (reflect.ptrTimeTime U)
  then
    let lower := ToLower name in
    if Contains lower "created" || Contains lower "updated"
       || Contains lower "deleted"
    then true else false
  else false.

(** The body of the field loop of [generateCreateVariant]; the loop of
    [processCreateFields] has the same statements.  [processEmbedded] is
    the recursive call [processCreateFields(embeddedType, schema,
    registry)]. *)
Definition createFieldStep (fuel : nat) (U : reflect.Types)
  (processEmbedded : reflect.rtype -> SchemaObject -> TypeRegistry ->
                     option (SchemaObject * TypeRegistry))
  (field : reflect.StructField) (st : SchemaObject * TypeRegistry)
  : option (SchemaObject * TypeRegistry) :=
  let '(schema, registry) := st in
  if negb (reflect.IsExported field) then Some (schema, registry)
  else
    (* Handle embedded structs. *)
    embedded ← embeddedStruct fuel U field;
    match embedded with
    | Some embeddedType =>
        (* Recurse into embedded struct but skip auto-fields. *)
        processEmbedded embeddedType schema registry
    | None =>
        if shouldSkipForCreate U field then Some (schema, registry)
        else
          tagInfo ← fieldTags field;
          if JSONSkip tagInfo || GORMSkip tagInfo || Hidden tagInfo
          then Some (schema, registry)
          else
            let propName := propertyName tagInfo field in
            '(fieldSchema, registry) ←
              fieldToSchema fuel U (reflect.FieldType field) tagInfo registry;
            let schema :=
              Schema.with_Properties
                (<[propName := fieldSchema]> (Schema.Properties schema))
                schema in
            let schema :=
              if Required tagInfo
              then Schema.with_Required
                     (Schema.Required schema ++ [propName])%list schema
              else schema in
            Some (schema, registry)
    end.

(** [processCreateFields] processes struct fields for the create variant. *)
Fixpoint processCreateFields (fuel : nat) (U : reflect.Types)
  (t : reflect.rtype) (schema : SchemaObject) (registry : TypeRegistry)
  {struct fuel} : option (SchemaObject * TypeRegistry) :=
  match fuel with
  | O => None
  | S fuel' =>
      forEachField (createFieldStep fuel' U (processCreateFields fuel' U))
                   (reflect.Fields U t) (schema, registry)
  end.

(** [generateCreateVariant] creates a schema variant for creating a
    resource.  Excludes ID, CreatedAt, UpdatedAt, DeletedAt, and other
    auto-generated fields. *)
Definition generateCreateVariant (fuel : nat) (U : reflect.Types)
  (t : reflect.rtype) (registry : TypeRegistry)
  : option (SchemaObject * TypeRegistry) :=
  let schema := Schema.with_Properties ∅ (Schema.with_Type_ "object" Schema.zero) in
  forEachField (createFieldStep fuel U (processCreateFields fuel U))
               (reflect.Fields U t) (schema, registry).

(** The body of the field loop of [generateUpdateVariant]; the loop of
    [processUpdateFields] has the same statements. *)
Definition updateFieldStep (fuel : nat) (U : reflect.Types)
  (processEmbedded : reflect.rtype -> SchemaObject -> TypeRegistry ->
                     option (SchemaObject * TypeRegistry))
  (field : reflect.StructField) (st : SchemaObject * TypeRegistry)
  : option (SchemaObject * TypeRegistry) :=
  let '(schema, registry) := st in
  if negb (reflect.IsExported field) then Some (schema, registry)
  else
    (* Handle embedded structs. *)
    embedded ← embeddedStruct fuel U field;
    match embedded with
    | Some embeddedType => processEmbedded embeddedType schema registry
    | None =>
        if shouldSkipForCreate U field then Some (schema, registry)
        else
          tagInfo ← fieldTags field;
          if JSONSkip tagInfo || GORMSkip tagInfo || Hidden tagInfo
          then Some (schema, registry)
          else
            let propName := propertyName tagInfo field in
            '(fieldSchema, registry) ←
              fieldToSchema fuel U (reflect.FieldType field) tagInfo registry;
            (* Clear readOnly for update variants. *)
            let fieldSchema :=
              if String.eqb (Schema.Ref fieldSchema) ""
              then Schema.with_ReadOnly false fieldSchema
              else fieldSchema in
            let schema :=
              Schema.with_Properties
                (<[propName := fieldSchema]> (Schema.Properties schema))
                schema in
            (* No required fields in update variant. *)
            Some (schema, registry)
    end.

(** [processUpdateFields] processes struct fields for the update variant. *)
Fixpoint processUpdateFields (fuel : nat) (U : reflect.Types)
  (t : reflect.rtype) (schema : SchemaObject) (registry : TypeRegistry)
  {struct fuel} : option (SchemaObject * TypeRegistry) :=
  match fuel with
  | O => None
  | S fuel' =>
      forEachField (updateFieldStep fuel' U (processUpdateFields fuel' U))
                   (reflect.Fields U t) (schema, registry)
  end.

(** [generateUpdateVariant] creates a schema variant for updating a
    resource.  All fields are optional (no required array). *)
Definition generateUpdateVariant (fuel : nat) (U : reflect.Types)
  (t : reflect.rtype) (registry : TypeRegistry)
  : option (SchemaObject * TypeRegistry) :=
  let schema := Schema.with_Properties ∅ (Schema.with_Type_ "object" Schema.zero) in
  forEachField (updateFieldStep fuel U (processUpdateFields fuel U))
               (reflect.Fields U t) (schema, registry).

(** One iteration of the loop of [registerGORMModels], for a model whose
    dynamic type is [t]. *)
Definition registerGORMModel (fuel : nat) (U : reflect.Types)
  (registry : TypeRegistry) (t : reflect.rtype) : option TypeRegistry :=
  t ← derefPtr fuel U t;
  if negb (reflect.isStruct (reflect.Kind U t)) then Some registry
  else
    let name := reflect.Name U t in
    if String.eqb name "" then Some registry
    else
      (* Generate full model schema (for responses). *)
      '(_, registry) ← typeToSchema fuel U t registry;
      (* Generate Create variant (without auto-fields). *)
      '(createSchema, registry) ← generateCreateVariant fuel U t registry;
      let registry := Register (String.append "Create" name) createSchema registry in
      (* Generate Update variant (all fields optional). *)
      '(updateSchema, registry) ← generateUpdateVariant fuel U t registry;
      let registry := Register (String.append "Update" name) updateSchema registry in
      Some registry.

(** [registerGORMModels] processes registered GORM models and creates
    schema variants. *)
Fixpoint registerGORMModels (fuel : nat) (U : reflect.Types)
  (models : list reflect.rtype) (registry : TypeRegistry)
  : option TypeRegistry :=
  match models with
  | [] => Some registry
  | model :: rest =>
      registry ← registerGORMModel fuel U registry model;
      registerGORMModels fuel U rest registry
  end.

End Variants.

(** ** Example type universes

    Go declarations written as type tables.  Identity 0 is [time.Time] and
    identity 1 is [*time.Time] in every table. *)
Module Examples.

Definition basic (k : reflect.kind) (name : string) : reflect.TypeInfo :=
  {| reflect.tKind := k; reflect.tName := name; reflect.tPkgPath := "";
     reflect.tString := name; reflect.tElem := O; reflect.tFields := [];
     reflect.tTextMarshaler := false |}.

(** An unnamed pointer, slice or map type with element [elem]. *)
Definition composite (k : reflect.kind) (str : string) (elem : reflect.rtype)
  : reflect.TypeInfo :=
  {| reflect.tKind := k; reflect.tName := ""; reflect.tPkgPath := "";
     reflect.tString := str; reflect.tElem := elem; reflect.tFields := [];
     reflect.tTextMarshaler := false |}.

(** A struct type [pkg.name]; an empty [name] is a struct literal. *)
Definition structType (pkg name : string) (fields : list reflect.StructField)
  : reflect.TypeInfo :=
  {| reflect.tKind := reflect.Struct; reflect.tName := name;
     reflect.tPkgPath := pkg;
     reflect.tString := String.append pkg (String.append "." name);
     reflect.tElem := O; reflect.tFields := fields;
     reflect.tTextMarshaler := false |}.

(** An exported, named field. *)
Definition field (name : string) (t : reflect.rtype) (tag : reflect.StructTag)
  : reflect.StructField :=
  {| reflect.FieldName := name; reflect.FieldPkgPath := "";
     reflect.FieldType := t; reflect.FieldTag := tag;
     reflect.Anonymous := false |}.

(** An exported embedded field. *)
Definition embedded (name : string) (t : reflect.rtype)
  : reflect.StructField :=
  {| reflect.FieldName := name; reflect.FieldPkgPath := "";
     reflect.FieldType := t; reflect.FieldTag := [];
     reflect.Anonymous := true |}.

Definition unexported (name : string) (t : reflect.rtype)
  : reflect.StructField :=
  {| reflect.FieldName := name; reflect.FieldPkgPath := "time";
     reflect.FieldType := t; reflect.FieldTag := [];
     reflect.Anonymous := false |}.

(** [time.Time]: a struct with unexported fields that implements
    [encoding.TextMarshaler]. *)
Definition timeInfo : reflect.TypeInfo :=
  {| reflect.tKind := reflect.Struct; reflect.tName := "Time";
     reflect.tPkgPath := "time"; reflect.tString := "time.Time";
     reflect.tElem := O;
     reflect.tFields := [unexported "wall" 4%nat; unexported "ext" 5%nat];
     reflect.tTextMarshaler := true |}.

(** The types shared by the tables: 0 [time.Time], 1 [*time.Time],
    2 [string], 3 [uint], 4 [uint64], 5 [int64], 6 [int], 7 [uint8]. *)
Definition prelude : list reflect.TypeInfo :=
  [ timeInfo; composite reflect.Ptr "*time.Time" 0%nat;
    basic reflect.String "string"; basic reflect.Uint "uint";
    basic reflect.Uint64 "uint64"; basic reflect.Int64 "int64";
    basic reflect.Int "int"; basic reflect.Uint8 "uint8" ].

Definition universe (decls : list reflect.TypeInfo) : reflect.Types :=
  {| reflect.types := prelude ++ decls; reflect.timeTime := 0%nat;
     reflect.ptrTimeTime := 1%nat |}.

(** The types of the package tests:
<<
  8  type TestNode struct {
         ID       uint       `json:"id"`
         Name     string     `json:"name"`
         Children []TestNode `json:"children"` }
  9  []TestNode
  10 type TestUser struct {
         ID    uint   `json:"id" gorm:"primarykey"`
         Name  string `json:"name" binding:"required,min=2,max=100"`
         Email string `json:"email" binding:"required,email" gorm:"size:200;uniqueIndex"`
         Role  string `json:"role" binding:"oneof=admin user moderator" gorm:"default:'user'"`
         Age   int    `json:"age,omitempty" binding:"gte=0,lte=150"`
         Bio   string `json:"bio,omitempty" gorm:"type:text" docs:"description:User biography"` }
  11 type TestEmbeddedBase struct {
         ID        uint      `json:"id" gorm:"primarykey"`
         CreatedAt time.Time `json:"created_at" gorm:"autoCreateTime"` }
  12 type TestEmbeddedChild struct {
         TestEmbeddedBase
         Name string `json:"name" binding:"required"` }
  13 *TestNode
  14 **TestNode
  15 []uint8
  16 []*uint8
  17 *uint8
>> *)
Definition testTypes : reflect.Types :=
  universe
    [ structType "gindocs" "TestNode"
        [ field "ID" 3%nat [("json", "id")];
          field "Name" 2%nat [("json", "name")];
          field "Children" 9%nat [("json", "children")] ];
      composite reflect.Slice "[]gindocs.TestNode" 8%nat;
      structType "gindocs" "TestUser"
        [ field "ID" 3%nat [("json", "id"); ("gorm", "primarykey")];
          field "Name" 2%nat
            [("json", "name"); ("binding", "required,min=2,max=100")];
          field "Email" 2%nat
            [("json", "email"); ("binding", "required,email");
             ("gorm", "size:200;uniqueIndex")];
          field "Role" 2%nat
            [("json", "role"); ("binding", "oneof=admin user moderator");
             ("gorm", "default:'user'")];
          field "Age" 6%nat
            [("json", "age,omitempty"); ("binding", "gte=0,lte=150")];
          field "Bio" 2%nat
            [("json", "bio,omitempty"); ("gorm", "type:text");
             ("docs", "description:User biography")] ];
      structType "gindocs" "TestEmbeddedBase"
        [ field "ID" 3%nat [("json", "id"); ("gorm", "primarykey")];
          field "CreatedAt" 0%nat
            [("json", "created_at"); ("gorm", "autoCreateTime")] ];
      structType "gindocs" "TestEmbeddedChild"
        [ embedded "TestEmbeddedBase" 11%nat;
          field "Name" 2%nat [("json", "name"); ("binding", "required")] ];
      composite reflect.Ptr "*gindocs.TestNode" 8%nat;
      composite reflect.Ptr "**gindocs.TestNode" 13%nat;
      composite reflect.Slice "[]uint8" 7%nat;
      composite reflect.Slice "[]*uint8" 17%nat;
      composite reflect.Ptr "*uint8" 7%nat ].

(** An entity with an identity key, a plain field and an auto-timestamp:
<<
  8  type Entity struct {
         ID        uint      `json:"id" gorm:"primarykey"`
         Name      string    `json:"name" binding:"required"`
         CreatedAt time.Time `json:"createdAt" gorm:"autoCreateTime"` }
>> *)
Definition entityTypes : reflect.Types :=
  universe
    [ structType "models" "Entity"
        [ field "ID" 3%nat [("json", "id"); ("gorm", "primarykey")];
          field "Name" 2%nat [("json", "name"); ("binding", "required")];
          field "CreatedAt" 0%nat
            [("json", "createdAt"); ("gorm", "autoCreateTime")] ] ].

(** A recursive map type inside a document struct:
<<
  8  type Tree map[string]Tree
  9  type Doc struct { Meta Tree `json:"meta"` }
>> *)
Definition treeTypes : reflect.Types :=
  universe
    [ {| reflect.tKind := reflect.Map; reflect.tName := "Tree";
         reflect.tPkgPath := "docs"; reflect.tString := "docs.Tree";
         reflect.tElem := 8%nat; reflect.tFields := [];
         reflect.tTextMarshaler := false |};
      structType "docs" "Doc" [ field "Meta" 8%nat [("json", "meta")] ] ].

(** A struct that embeds a pointer to itself:
<<
  8  type Node struct { *Node; Label string `json:"label"` }
  9  *Node
>> *)
Definition selfEmbedTypes : reflect.Types :=
  universe
    [ structType "lists" "Node"
        [ embedded "Node" 9%nat; field "Label" 2%nat [("json", "label")] ];
      composite reflect.Ptr "*lists.Node" 8%nat ].

(** Two distinct struct types named [Item], in two packages:
<<
  8  package catalog; type Item struct { Title string `json:"title"` }
  9  package billing; type Item struct { Price int64  `json:"price"` }
>> *)
Definition itemTypes : reflect.Types :=
  universe
    [ structType "catalog" "Item" [ field "Title" 2%nat [("json", "title")] ];
      structType "billing" "Item" [ field "Price" 5%nat [("json", "price")] ] ].


End Examples.


(** ** Relationship detection and handler names *)
Section Relationships.
Context `{Float64Model} {cases : unicode.CaseRanges}.

(** [RelType] represents the type of a GORM relationship. *)
Inductive RelType :=
| RelHasOne      (* a has-one relationship *)
| RelHasMany     (* a has-many relationship *)
| RelBelongsTo   (* a belongs-to relationship *)
| RelMany2Many.  (* a many-to-many relationship *)

(** [RelationshipInfo] describes a detected GORM relationship: the struct
    field name, the relationship type and the name of the related
    model. *)
Record RelationshipInfo := {
  FieldName : string;
  Type_ : RelType;
  RelatedModel : string
}.

(** [isSpecialType] checks if a type is a known special type (like
    time.Time). *)
Definition isSpecialType (U : reflect.Types) (t : reflect.rtype) : bool :=
  match specialTypeSchema U t with
  | Some _ => true
  | None => false
  end.

Definition isSlice (k : reflect.kind) : bool :=
  match k with reflect.Slice => true | _ => false end.

(** The inner loop [for j := 0; j < t.NumField(); j++] of
    [detectRelationships]: is there a field named [fkName]? *)
Definition hasFieldNamed (U : reflect.Types) (t : reflect.rtype)
  (fkName : string) : bool :=
  existsb (fun f => String.eqb (reflect.FieldName f) fkName)
          (reflect.Fields U t).

(** One iteration of the field loop of [detectRelationships]. *)
Definition relationshipStep (fuel : nat) (U : reflect.Types)
  (t : reflect.rtype) (relationships : list RelationshipInfo)
  (field : reflect.StructField) : option (list RelationshipInfo) :=
  if negb (reflect.IsExported field) then Some relationships
  else
    ft ← derefPtr fuel U (reflect.FieldType field);
    let gormTag := reflect.Get (reflect.FieldTag field) "gorm" in
    if isSlice (reflect.Kind U ft)
       && reflect.isStruct (reflect.Kind U (reflect.Elem U ft))
    then
      (* HasMany or Many2Many. *)
      let relType :=
        if Contains (ToLower gormTag) "many2many" then RelMany2Many
        else RelHasMany in
      Some (relationships ++
            [{| FieldName := reflect.FieldName field; Type_ := relType;
                RelatedModel := reflect.Name U (reflect.Elem U ft) |}])%list
    else if reflect.isStruct (reflect.Kind U ft) && negb (isSpecialType U ft)
    then
      (* HasOne or BelongsTo.  If there's a corresponding ForeignKey
         field, it's BelongsTo. *)
      let fkName := String.append (reflect.FieldName field) "ID" in
      let relType := if hasFieldNamed U t fkName then RelBelongsTo else RelHasOne in
      let relType :=
        if Contains (ToLower gormTag) "foreignkey" then RelBelongsTo
        else relType in
      Some (relationships ++
            [{| FieldName := reflect.FieldName field; Type_ := relType;
                RelatedModel := reflect.Name U ft |}])%list
    else Some relationships.

(** The loop [for i := 0; i < t.NumField(); i++] of
    [detectRelationships]. *)
Fixpoint relationshipLoop (fuel : nat) (U : reflect.Types)
  (t : reflect.rtype) (fields : list reflect.StructField)
  (relationships : list RelationshipInfo) : option (list RelationshipInfo) :=
  match fields with
  | [] => Some relationships
  | field :: rest =>
      relationships ← relationshipStep fuel U t relationships field;
      relationshipLoop fuel U t rest relationships
  end.

(** [detectRelationships] analyzes a struct for GORM relationships. *)
Definition detectRelationships (fuel : nat) (U : reflect.Types)
  (t : reflect.rtype) : option (list RelationshipInfo) :=
  t ← derefPtr fuel U t;
  if negb (reflect.isStruct (reflect.Kind U t)) then Some []
  else relationshipLoop fuel U t (reflect.Fields U t) [].

End Relationships.

(** [parts[len(parts)-1]]; [None] is the run-time panic on an empty
    slice. *)
Definition lastPart (parts : list string) : option string :=
  List.last (List.map Some parts) None.

(** [handlerFuncName] extracts a clean function name from a handler's
    full path. *)
Definition handlerFuncName (handlerName : string) : option string :=
  (* Handler names look like: main.createUser or
     github.com/foo/bar.Handler.func1 *)
  let parts := Split handlerName "/"%char in
  last ← lastPart parts;
  (* Split by dot to get the function name. *)
  let dotParts := Split last "."%char in
  if (1 <? Z.of_nat (length dotParts)) then lastPart dotParts
  else Some last.

(** [handlerPackageName] extracts the package name from a handler's full
    path. *)
Definition handlerPackageName (handlerName : string) : option string :=
  let parts := Split handlerName "/"%char in
  last ← lastPart parts;
  let dotParts := Split last "."%char in
  if (1 <? Z.of_nat (length dotParts)) then List.head dotParts
  else Some last.

(** [isStringType] checks if a field name suggests a string-like value. *)
Definition isStringType `{unicode.CaseRanges} (fieldName : string) : bool :=
  let lower := ToLower fieldName in
  Contains lower "name" || Contains lower "email" || Contains lower "title"
  || Contains lower "description" || Contains lower "content"
  || Contains lower "body" || Contains lower "bio".

(** ** A model with relationships
<<
  8  type Author struct { ID uint `json:"id"`; Name string `json:"name"` }
  9  type Label struct { ID uint `json:"id"` }
  10 type Comment struct { ID uint `json:"id"`; Body string `json:"body"` }
  11 type Profile struct { Bio string `json:"bio"` }
  12 type Post struct {
         ID        uint      `json:"id" gorm:"primarykey"`
         Author    Author    `json:"author"`
         AuthorID  uint      `json:"author_id"`
         Labels    []Label   `json:"labels" gorm:"many2many:post_labels"`
         Comments  []Comment `json:"comments"`
         Profile   *Profile  `json:"profile"`
         Editors   []*Author `json:"editors"`
         CreatedAt time.Time `json:"created_at"`
         reviewer  Author }
  13 []Label   14 []Comment   15 *Profile   16 *Author   17 []*Author
>> *)
Module Blog.

Definition blogTypes : reflect.Types :=
  Examples.universe
    [ Examples.structType "blog" "Author"
        [ Examples.field "ID" 3%nat [("json", "id")];
          Examples.field "Name" 2%nat [("json", "name")] ];
      Examples.structType "blog" "Label"
        [ Examples.field "ID" 3%nat [("json", "id")] ];
      Examples.structType "blog" "Comment"
        [ Examples.field "ID" 3%nat [("json", "id")];
          Examples.field "Body" 2%nat [("json", "body")] ];
      Examples.structType "blog" "Profile"
        [ Examples.field "Bio" 2%nat [("json", "bio")] ];
      Examples.structType "blog" "Post"
        [ Examples.field "ID" 3%nat [("json", "id"); ("gorm", "primarykey")];
          Examples.field "Author" 8%nat [("json", "author")];
          Examples.field "AuthorID" 3%nat [("json", "author_id")];
          Examples.field "Labels" 13%nat
            [("json", "labels"); ("gorm", "many2many:post_labels")];
          Examples.field "Comments" 14%nat [("json", "comments")];
          Examples.field "Profile" 15%nat [("json", "profile")];
          Examples.field "Editors" 17%nat [("json", "editors")];
          Examples.field "CreatedAt" 0%nat [("json", "created_at")];
          {| reflect.FieldName := "reviewer"; reflect.FieldPkgPath := "blog";
             reflect.FieldType := 8%nat; reflect.FieldTag := [];
             reflect.Anonymous := false |} ];
      Examples.composite reflect.Slice "[]blog.Label" 9%nat;
      Examples.composite reflect.Slice "[]blog.Comment" 10%nat;
      Examples.composite reflect.Ptr "*blog.Profile" 11%nat;
      Examples.composite reflect.Ptr "*blog.Author" 8%nat;
      Examples.composite reflect.Slice "[]*blog.Author" 16%nat ].

End Blog.

(** ** A product with an index and an anonymous struct with a time stamp
<<
  package catalog
  8  type Product struct {
         Code string `json:"code" gorm:"index:idx_primary_key_code"`
         Name string `json:"name"` }
>>
    and
<<
  8  struct { X int `json:"x"` }
  9  struct { time.Time }
>>
    The second struct literal has the promoted method [MarshalText] of
    the embedded [time.Time], so it implements [encoding.TextMarshaler]. *)
Module Catalog.



End Catalog.

(** ** Specification vocabulary

    Predicates in which the properties below are stated.  They describe
    clauses, type graphs and field lists without running the compiler. *)
Section Vocabulary.
Context `{Float64Model} {cases : unicode.CaseRanges}.

(** A clause [prefix ++ value] whose value [parse] rejects. *)
Definition failsWith {A : Type} (parse : string -> option A)
  (prefix part : string) : bool :=
  HasPrefix part prefix &&
  match parse (TrimPrefix part prefix) with
  | None => true
  | Some _ => false
  end.

(** A validation clause with an unparseable numeric bound. *)
Definition unparseableBound (part : string) : bool :=
  let part := TrimSpace part in
  failsWith Atoi "min=" part || failsWith Atoi "max=" part
  || failsWith Atoi "len=" part
  || failsWith ParseFloat "gte=" part || failsWith ParseFloat "gt=" part
  || failsWith ParseFloat "lte=" part || failsWith ParseFloat "lt=" part.

(** A persistence clause [size:] with an unparseable value. *)
Definition unparseableSize (part : string) : bool :=
  failsWith Atoi "size:" (ToLower (TrimSpace part)).

(** [t'] is what the loop [for t.Kind() == reflect.Ptr { t = t.Elem() }]
    leaves in [t]. *)
Inductive DerefsTo (U : reflect.Types) : reflect.rtype -> reflect.rtype -> Prop :=
| DerefsTo_here t :
    reflect.isPtr (reflect.Kind U t) = false -> DerefsTo U t t
| DerefsTo_elem t t' :
    reflect.isPtr (reflect.Kind U t) = true ->
    DerefsTo U (reflect.Elem U t) t' -> DerefsTo U t t'.

(** [p] is [n] pointer levels above [t]: [p = *...*t]. *)
Fixpoint PointerTo (U : reflect.Types) (n : nat) (p t : reflect.rtype) : Prop :=
  match n with
  | O => p = t
  | S n' =>
      reflect.isPtr (reflect.Kind U p) = true /\
      PointerTo U n' (reflect.Elem U p) t
  end.

(** The field is an embedded struct [e] whose fields are flattened into
    the enclosing object. *)
Definition EmbedsStruct (U : reflect.Types) (field : reflect.StructField)
  (e : reflect.rtype) : Prop :=
  reflect.Anonymous field = true /\
  DerefsTo U (reflect.FieldType field) e /\
  reflect.isStruct (reflect.Kind U e) = true /\
  specialTypeSchema U e = None.

(** [Visits U fields g]: a field loop over [fields] handles [g] as a
    field of its own, directly or after flattening embedded structs.
    Unexported fields are passed over. *)
Inductive Visits (U : reflect.Types)
  : list reflect.StructField -> reflect.StructField -> Prop :=
| Visits_here f fs :
    reflect.IsExported f = true ->
    (forall e, ~ EmbedsStruct U f e) ->
    Visits U (f :: fs) f
| Visits_embedded f fs e g :
    reflect.IsExported f = true ->
    EmbedsStruct U f e ->
    Visits U (reflect.Fields U e) g ->
    Visits U (f :: fs) g
| Visits_later f fs g :
    Visits U fs g -> Visits U (f :: fs) g.

(** The field is emitted under the property name [k]: its tags do not
    skip or hide it. *)
Definition EmittedAs (field : reflect.StructField) (k : string) : Prop :=
  exists tagInfo,
    fieldTags field = Some tagInfo /\
    JSONSkip tagInfo || GORMSkip tagInfo || Hidden tagInfo = false /\
    propertyName tagInfo field = k.

(** The composite kinds through which [typeToSchema] recurses without
    consulting the registry. *)
Definition hasElem (k : reflect.kind) : bool :=
  match k with
  | reflect.Ptr | reflect.Slice | reflect.Array | reflect.Map => true
  | _ => false
  end.

(** A type graph in which every cycle passes through a named field of a
    struct: [rank] decreases from a pointer, slice, array or map to its
    element and from a struct to the structs it embeds. *)
Definition Ranked (U : reflect.Types) (rank : reflect.rtype -> nat) : Prop :=
  forall t,
    (hasElem (reflect.Kind U t) = true ->
     (rank (reflect.Elem U t) < rank t)%nat) /\
    (forall f e, In f (reflect.Fields U t) ->
                 reflect.IsExported f = true ->
                 EmbedsStruct U f e -> (rank e < rank t)%nat).

(** A decision procedure for [Ranked] on a type table. *)
Definition rankedb (U : reflect.Types) (rank : reflect.rtype -> nat) : bool :=
  forallb
    (fun t =>
       (if hasElem (reflect.Kind U t)
        then (rank (reflect.Elem U t) <? rank t)%nat else true) &&
       forallb
         (fun f =>
            if reflect.IsExported f then
              match embeddedStruct (length (reflect.types U)) U f with
              | Some (Some e) => (rank e <? rank t)%nat
              | Some None => true
              | None => false
              end
            else true)
         (reflect.Fields U t))
    (seq 0 (length (reflect.types U))).

(** No schema of the tree is marked read-only. *)
Inductive NoReadOnly : Schema.SchemaObject -> Prop :=
| NoReadOnly_intro s :
    Schema.ReadOnly s = false ->
    (forall i, Schema.Items s = Some i -> NoReadOnly i) ->
    (forall a, Schema.AdditionalProperties s = Some a -> NoReadOnly a) ->
    (forall k v, Schema.Properties s !! k = Some v -> NoReadOnly v) ->
    (forall v, In v (Schema.AllOf s) -> NoReadOnly v) ->
    (forall v, In v (Schema.OneOf s) -> NoReadOnly v) ->
    (forall v, In v (Schema.AnyOf s) -> NoReadOnly v) ->
    NoReadOnly s.

(** The number of types of the table that are not being processed. *)
Definition unseen (U : reflect.Types) (r : TypeRegistry) : nat :=
  length (List.filter (fun t => negb (isSeen t r))
                      (seq 0 (length (reflect.types U)))).


End Vocabulary.
(** * Properties *)

(** ** Strings *)
Section StringFacts.

Lemma Split_nonempty (s : string) (sep : ascii) : Split s sep <> [].
Proof.
  destruct s as [|c s]; simpl; [discriminate|].
  destruct (Ascii.eqb c sep); [discriminate|].
  destruct (Split s sep); discriminate.
Qed.

Lemma HasPrefix_cons (s : string) (c : ascii) (p : string) :
  HasPrefix s (String c p) = true ->
  exists s', s = String c s' /\ HasPrefix s' p = true.
Proof.
  destruct s as [|d s]; simpl; [discriminate|].
  intros Hp. apply andb_prop in Hp as [Hc Hp].
  apply Ascii.eqb_eq in Hc. subst d. eauto.
Qed.

Lemma append_cons (c : ascii) (a b : string) :
  String.append (String c a) b = String c (String.append a b).
Proof. reflexivity. Qed.

Lemma append_nil_l (a : string) : String.append EmptyString a = a.
Proof. reflexivity. Qed.

Lemma append_assoc (a b c : string) :
  String.append (String.append a b) c = String.append a (String.append b c).
Proof.
  induction a as [|x a IH]; [reflexivity|].
  now rewrite !append_cons, IH.
Qed.

Lemma append_nil_r (a : string) : String.append a EmptyString = a.
Proof.
  induction a as [|x a IH]; [reflexivity|]. now rewrite append_cons, IH.
Qed.

Lemma HasPrefix_app (pre s : string) : HasPrefix (String.append pre s) pre = true.
Proof.
  induction pre as [|c pre IH]; [destruct s; reflexivity|].
  rewrite append_cons. cbn [HasPrefix]. rewrite Ascii.eqb_refl. exact IH.
Qed.

Lemma Contains_prefix (s sub : string) :
  HasPrefix s sub = true -> Contains s sub = true.
Proof. intros Hp. destruct s; cbn [Contains]; rewrite Hp; reflexivity. Qed.

Lemma Contains_app (pre sub post : string) :
  Contains (String.append pre (String.append sub post)) sub = true.
Proof.
  induction pre as [|c pre IH].
  - rewrite append_nil_l. apply Contains_prefix, HasPrefix_app.
  - rewrite append_cons. cbn [Contains]. rewrite IH. apply orb_true_r.
Qed.

(** [sub] occurs in [s]. *)
Definition Substring (sub s : string) : Prop :=
  exists pre post, s = String.append pre (String.append sub post).

Lemma Substring_refl (s : string) : Substring s s.
Proof.
  exists EmptyString, EmptyString. now rewrite append_nil_l, append_nil_r.
Qed.

Lemma Substring_trans (a b c : string) :
  Substring a b -> Substring b c -> Substring a c.
Proof.
  intros (p1 & q1 & ->) (p2 & q2 & ->).
  exists (String.append p2 p1), (String.append q1 q2).
  now rewrite !append_assoc.
Qed.

Lemma Substring_Contains (sub s : string) :
  Substring sub s -> Contains s sub = true.
Proof. intros (pre & post & ->). apply Contains_app. Qed.

Lemma Substring_cons (p s : string) (c : ascii) :
  Substring p s -> Substring p (String c s).
Proof. intros (pre & post & ->). exists (String c pre), post. reflexivity. Qed.

(** The first piece of a split is a prefix and the others occur later. *)
Lemma Split_shape (s : string) (sep : ascii) :
  exists q qs, Split s sep = q :: qs /\
    (exists post, s = String.append q post) /\
    (forall p, In p qs -> Substring p s).
Proof.
  induction s as [|c s (q & qs & E & (post & Hq) & Hqs)]; cbn [Split].
  - exists EmptyString, []. repeat split; [now exists EmptyString|intros ? []].
  - destruct (Ascii.eqb c sep).
    + exists EmptyString, (Split s sep). repeat split.
      * now exists (String c s).
      * intros p Hin. apply Substring_cons. rewrite E in Hin.
        destruct Hin as [<-|Hin]; [|now apply Hqs].
        exists EmptyString, post. exact Hq.
    + rewrite E. exists (String c q), qs. repeat split.
      * exists post. now rewrite append_cons, <- Hq.
      * intros p Hin. apply Substring_cons. now apply Hqs.
Qed.

Lemma Split_Substring (s : string) (sep : ascii) (p : string) :
  In p (Split s sep) -> Substring p s.
Proof.
  destruct (Split_shape s sep) as (q & qs & -> & (post & Hq) & Hqs).
  intros [<-|Hin]; [|now apply Hqs].
  exists EmptyString, post. exact Hq.
Qed.

Lemma list_ascii_app (a b : string) :
  list_ascii_of_string (String.append a b)
  = (list_ascii_of_string a ++ list_ascii_of_string b)%list.
Proof.
  induction a as [|x a IH]; [reflexivity|].
  rewrite append_cons. cbn [list_ascii_of_string]. now rewrite IH.
Qed.

Lemma string_of_list_app (a b : list ascii) :
  string_of_list_ascii (a ++ b)
  = String.append (string_of_list_ascii a) (string_of_list_ascii b).
Proof.
  induction a as [|x a IH]; [reflexivity|].
  cbn [app string_of_list_ascii]. now rewrite IH, append_cons.
Qed.

Lemma rev_string_app (a b : string) :
  rev_string (String.append a b) = String.append (rev_string b) (rev_string a).
Proof.
  unfold rev_string. now rewrite list_ascii_app, rev_app_distr, string_of_list_app.
Qed.

Lemma rev_string_involutive (a : string) : rev_string (rev_string a) = a.
Proof.
  unfold rev_string.
  now rewrite list_ascii_of_string_of_list_ascii, rev_involutive,
    string_of_list_ascii_of_string.
Qed.

End StringFacts.

(** Boolean comparisons in the hypotheses, turned into arithmetic. *)
Ltac bool_lia :=
  repeat match goal with
         | H : (_ || _) = false |- _ => apply orb_false_elim in H as [? ?]
         | H : (_ && _) = true |- _ => apply andb_prop in H as [? ?]
         | H : negb _ = true |- _ => apply negb_true_iff in H
         | H : negb _ = false |- _ => apply negb_false_iff in H
         | H : (_ <? _) = true |- _ => apply Z.ltb_lt in H
         | H : (_ <? _) = false |- _ => apply Z.ltb_ge in H
         | H : (_ <=? _) = true |- _ => apply Z.leb_le in H
         | H : (_ <=? _) = false |- _ => apply Z.leb_gt in H
         | H : (_ =? _) = true |- _ => apply Z.eqb_eq in H
         | H : (_ =? _) = false |- _ => apply Z.eqb_neq in H
         | H : (_ || _) = true |- _ => apply orb_prop in H as [?|?]
         | H : (_ && _) = false |- _ => apply andb_false_iff in H as [?|?]
         | H : (_ <? _)%nat = true |- _ => apply Nat.ltb_lt in H
         | H : (_ <? _)%nat = false |- _ => apply Nat.ltb_ge in H
         | H : (_ <=? _)%nat = true |- _ => apply Nat.leb_le in H
         | H : (_ <=? _)%nat = false |- _ => apply Nat.leb_gt in H
         end;
  try lia.

(** ** The decoder *)
Section Utf8Facts.
Import utf8.

(** [s] is empty or begins with a byte that is not a continuation byte. *)
Definition startsRune (s : string) : Prop :=
  match s with
  | EmptyString => True
  | String c _ => RuneStart (byte c) = true
  end.

Lemma RuneStart_range (c : ascii) :
  RuneStart (byte c) = (byte c <? 0x80) || (0xBF <? byte c).
Proof. destruct c as [[] [] [] [] [] [] [] []]; reflexivity. Qed.

Lemma first_Some (s0 : Z) (sz : nat) (lo hi : Z) :
  first s0 = Some (sz, lo, hi) ->
  (sz = 2 \/ sz = 3 \/ sz = 4)%nat /\ 0x80 <= lo /\ hi <= 0xBF /\ 0xC2 <= s0.
Proof.
  unfold first.
  repeat match goal with
         | |- context [if ?c then _ else _] => destruct c eqn:?
         end; intros [= <- <- <-]; bool_lia; repeat split; auto; lia.
Qed.

(** A rune is at least one byte wide and lies within the string. *)
Lemma DecodeRuneInString_width (s : string) :
  s <> EmptyString ->
  (1 <= snd (DecodeRuneInString s) <= String.length s)%nat.
Proof.
  destruct s as [|c0 s]; [congruence|]. intros _.
  unfold DecodeRuneInString.
  destruct (first (byte c0)) as [[[sz lo] hi]|] eqn:F;
    [|cbn [snd String.length]; lia].
  destruct (first_Some _ _ _ _ F) as (Hsz & _).
  repeat match goal with
         | |- context [if ?c then _ else _] => destruct c eqn:?
         end; cbn [snd]; cbn [String.length] in *; bool_lia.
Qed.

(** A rune other than [RuneError] begins with a byte that starts a
    sequence. *)
Lemma DecodeRuneInString_start (s : string) :
  fst (DecodeRuneInString s) <> RuneError -> s <> EmptyString /\ startsRune s.
Proof.
  destruct s as [|c0 s]; [cbn; congruence|]. intros Hr.
  split; [discriminate|]. cbn [startsRune]. rewrite RuneStart_range.
  revert Hr. unfold DecodeRuneInString.
  destruct (first (byte c0)) as [[[sz lo] hi]|] eqn:F.
  - intros _. destruct (first_Some _ _ _ _ F) as (_ & _ & _ & H0).
    apply orb_true_iff. right. apply Z.ltb_lt. lia.
  - cbn [fst]. unfold RuneSelf. destruct (byte c0 <? 128) eqn:E; [reflexivity|].
    congruence.
Qed.

(** The bytes after a sequence that ends at a rune boundary do not
    change what is decoded. *)
Lemma DecodeRuneInString_app (a b : string) :
  a <> EmptyString -> startsRune b ->
  DecodeRuneInString (String.append a b) = DecodeRuneInString a.
Proof.
  destruct a as [|c0 a]; [congruence|]. intros _ Hb.
  assert (Hd : forall d b', b = String d b' ->
             forall lo hi, 0x80 <= lo -> hi <= 0xBF ->
             (byte d <? lo) || (hi <? byte d) = true).
  { intros d b' -> lo hi Hlo Hhi. cbn [startsRune] in Hb.
    rewrite RuneStart_range in Hb. apply orb_true_iff.
    apply orb_prop in Hb as [Hb|Hb]; [left|right]; apply Z.ltb_lt;
      [apply Z.ltb_lt in Hb|apply Z.ltb_lt in Hb]; lia. }
  unfold DecodeRuneInString. rewrite append_cons.
  destruct (first (byte c0)) as [[[sz lo] hi]|] eqn:F; [|reflexivity].
  destruct (first_Some _ _ _ _ F) as (Hsz & Hlo & Hhi & _).
  destruct a as [|c1 [|c2 [|c3 a]]]; destruct b as [|d b];
    destruct Hsz as [-> | [-> | ->]];
    rewrite ?append_cons, ?append_nil_l;
    cbn [String.length at_ String.get Nat.ltb Nat.leb];
    rewrite ?(Hd _ _ eq_refl lo hi Hlo Hhi),
            ?(Hd _ _ eq_refl 0x80 0xBF ltac:(lia) ltac:(lia));
    repeat match goal with
           | |- context [if ?c then _ else _] => destruct c eqn:?
           end; reflexivity.
Qed.

Lemma DecodeRuneInString_ascii (c : ascii) (s : string) :
  byte c < 0x80 -> DecodeRuneInString (String c s) = (byte c, 1%nat).
Proof.
  intros Hc. unfold DecodeRuneInString, first, RuneSelf.
  destruct (byte c <? 194) eqn:E; [|bool_lia].
  destruct (byte c <? 128) eqn:E'; [reflexivity|bool_lia].
Qed.

End Utf8Facts.

(** ** Runes and substrings *)
Section RuneFacts.
Import utf8.

Lemma startsRune_app (a b : string) :
  startsRune a -> startsRune b -> startsRune (String.append a b).
Proof. destruct a; [now rewrite append_nil_l|auto]. Qed.

Lemma startsRune_ascii (c : ascii) (s : string) :
  byte c < 0x80 -> startsRune (String c s).
Proof.
  intros Hc. cbn [startsRune]. rewrite RuneStart_range.
  apply orb_true_iff. left. now apply Z.ltb_lt.
Qed.






End RuneFacts.

(** ** Slices *)
Section SliceFacts.
Import utf8.

Lemma take_drop_string (n : nat) (s : string) :
  String.append (take_string n s) (drop_string n s) = s.
Proof.
  revert s. induction n as [|n IH]; intros [|c s]; try reflexivity.
  cbn [take_string drop_string]. now rewrite append_cons, IH.
Qed.

Lemma length_drop_string (n : nat) (s : string) :
  String.length (drop_string n s) = (String.length s - n)%nat.
Proof.
  revert s. induction n as [|n IH]; intros [|c s]; cbn [drop_string String.length];
    auto; lia.
Qed.

Lemma drop_string_app (a b : string) :
  drop_string (String.length a) (String.append a b) = b.
Proof. induction a as [|c a IH]; [reflexivity|]. now rewrite append_cons. Qed.

Lemma take_string_app (a b : string) :
  take_string (String.length a) (String.append a b) = a.
Proof.
  induction a as [|c a IH]; [now destruct b|].
  rewrite append_cons. cbn [String.length take_string]. now rewrite IH.
Qed.

Lemma at_drop_string (s : string) (i : nat) :
  at_ s i = at_ (drop_string i s) 0.
Proof.
  revert s. induction i as [|i IH]; intros [|c s]; try reflexivity.
  cbn [drop_string]. rewrite <- IH. reflexivity.
Qed.

Lemma length_string_of_list (l : list ascii) :
  String.length (string_of_list_ascii l) = List.length l.
Proof. induction l as [|c l IH]; [reflexivity|]. cbn. now rewrite IH. Qed.

Lemma length_list_of_string (s : string) :
  List.length (list_ascii_of_string s) = String.length s.
Proof. induction s as [|c s IH]; [reflexivity|]. cbn. now rewrite IH. Qed.

Lemma length_rev_string (s : string) :
  String.length (rev_string s) = String.length s.
Proof.
  unfold rev_string.
  now rewrite length_string_of_list, length_rev, length_list_of_string.
Qed.

Lemma rev_string_nonempty (c : ascii) (s : string) :
  rev_string (String c s) <> EmptyString.
Proof.
  intros E. apply (f_equal String.length) in E.
  rewrite length_rev_string in E. discriminate.
Qed.

Lemma length_append (a b : string) :
  String.length (String.append a b) = (String.length a + String.length b)%nat.
Proof.
  induction a as [|c a IH]; [reflexivity|].
  rewrite append_cons. cbn [String.length]. now rewrite IH.
Qed.

End SliceFacts.

(** ** Trimming and splitting, rune by rune *)
Section TrimFacts.
Import utf8.

Lemma lastRuneStart_le (n : nat) (s : string) (lim : Z) :
  forall start, lastRuneStart n s lim start <= start.
Proof.
  induction n as [|n IH]; intros start; cbn [lastRuneStart]; [lia|].
  destruct (start <? lim); [lia|].
  destruct (RuneStart _); [lia|]. specialize (IH (start - 1)). lia.
Qed.

(** The last rune is a suffix of the string, as wide as the rune that
    the decoder finds in it; when it is not [RuneError], the suffix
    begins at a rune boundary. *)
Lemma DecodeLastRuneInString_split (s : string) (r : Z) (size : nat) :
  s <> EmptyString ->
  DecodeLastRuneInString s = (r, size) ->
  exists s' w, s = String.append s' w /\ String.length w = size /\
               w <> EmptyString /\ snd (DecodeRuneInString w) = size /\
               (r <> RuneError -> startsRune w).
Proof.
  intros Hne. unfold DecodeLastRuneInString.
  assert (Hpos : (1 <= String.length s)%nat)
    by (destruct s; [congruence|cbn; lia]).
  destruct (Z.of_nat (String.length s) =? 0) eqn:E0; [bool_lia|]. clear E0.
  set (i := Z.to_nat (Z.of_nat (String.length s) - 1)).
  assert (Hi : i = (String.length s - 1)%nat) by (unfold i; lia).
  assert (Hlast : exists c, drop_string i s = String c EmptyString).
  { assert (Hlen := length_drop_string i s).
    destruct (drop_string i s) as [|c [|d w]]; cbn [String.length] in Hlen;
      [lia|now exists c|lia]. }
  destruct Hlast as (c & Hc).
  assert (Hone : snd (DecodeRuneInString (String c EmptyString)) = 1%nat).
  { assert (W := DecodeRuneInString_width (String c EmptyString)
                   ltac:(discriminate)).
    cbn [String.length] in W. lia. }
  assert (Es : s = String.append (take_string i s) (String c EmptyString))
    by now rewrite <- Hc, take_drop_string.
  destruct (at_ s i <? RuneSelf) eqn:Ea.
  - intros [= <- <-]. apply Z.ltb_lt in Ea.
    rewrite at_drop_string, Hc in Ea.
    exists (take_string i s), (String c EmptyString).
    split; [exact Es|]. split; [reflexivity|]. split; [discriminate|].
    split; [exact Hone|]. intros _. now apply startsRune_ascii.
  - set (start := Z.max 0 _).
    assert (Hs : 0 <= start < Z.of_nat (String.length s)).
    { unfold start.
      match goal with
      | |- context [lastRuneStart ?n ?s ?lim ?st] =>
          assert (L := lastRuneStart_le n s lim st)
      end. lia. }
    destruct (DecodeRuneInString (drop_string (Z.to_nat start) s))
      as [r1 size1] eqn:D.
    destruct (start + Z.of_nat size1 =? Z.of_nat (String.length s)) eqn:Ee.
    + apply Z.eqb_eq in Ee. intros [= <- <-].
      exists (take_string (Z.to_nat start) s), (drop_string (Z.to_nat start) s).
      split; [now rewrite take_drop_string|].
      split; [rewrite length_drop_string; lia|].
      assert (Hw : drop_string (Z.to_nat start) s <> EmptyString).
      { intros Hw. apply (f_equal String.length) in Hw.
        rewrite length_drop_string in Hw. cbn [String.length] in Hw. lia. }
      split; [exact Hw|]. split; [now rewrite D|].
      intros Hr. apply DecodeRuneInString_start. now rewrite D.
    + intros [= <- <-].
      exists (take_string i s), (String c EmptyString).
      split; [exact Es|]. split; [reflexivity|]. split; [discriminate|].
      split; [exact Hone|]. congruence.
Qed.

Lemma trimLeftRunes_suffix (f : Z -> bool) (s : string) :
  forall k, exists pre, s = String.append pre (trimLeftRunes f k s).
Proof.
  induction s as [|c s IH]; intros k; [now exists EmptyString|].
  cbn [trimLeftRunes]. destruct k as [|k].
  - destruct (DecodeRuneInString (String c s)) as [r w].
    destruct (f r); [|now exists EmptyString].
    destruct (IH (w - 1)%nat) as (pre & E). exists (String c pre).
    now rewrite append_cons, <- E.
  - destruct (IH k) as (pre & E). exists (String c pre).
    now rewrite append_cons, <- E.
Qed.


Lemma trimRightRunes_skip (f : Z -> bool) (k : nat) :
  forall rs, trimRightRunes f k rs = trimRightRunes f 0 (drop_string k rs).
Proof.
  induction k as [|k IH]; intros [|c rs]; try reflexivity.
  cbn [drop_string]. rewrite <- IH. reflexivity.
Qed.

(** Trimming on the right cuts at a rune boundary. *)
Lemma trimRightRunes_prefix (f : Z -> bool) :
  f RuneError = false ->
  forall n rs, (String.length rs <= n)%nat ->
    exists post,
      rev_string rs = String.append (rev_string (trimRightRunes f 0 rs)) post /\
      startsRune post.
Proof.
  intros Hf. induction n as [|n IH]; intros rs Hn.
  - destruct rs; [|cbn in Hn; lia]. now exists EmptyString.
  - destruct rs as [|c rs]; [now exists EmptyString|].
    cbn [trimRightRunes].
    destruct (DecodeLastRuneInString (rev_string (String c rs)))
      as [r size] eqn:D.
    destruct (f r) eqn:Er.
    2:{ exists EmptyString. now rewrite append_nil_r. }
    assert (Hr : r <> RuneError) by congruence.
    destruct (DecodeLastRuneInString_split _ _ _
                (rev_string_nonempty _ _) D)
      as (s' & w & E & Hlen & Hw & _ & Hstart).
    specialize (Hstart Hr).
    apply (f_equal rev_string) in E.
    rewrite rev_string_involutive, rev_string_app in E.
    assert (Hdrop : drop_string (size - 1) rs = rev_string s').
    { assert (X : drop_string size (String c rs) = rev_string s').
      { rewrite E, <- Hlen, <- (length_rev_string w). apply drop_string_app. }
      destruct size as [|size].
      - destruct w; [congruence|discriminate].
      - cbn [drop_string] in X. now rewrite Nat.sub_succ, Nat.sub_0_r. }
    rewrite trimRightRunes_skip, Hdrop.
    assert (Hshort : (String.length (rev_string s') <= n)%nat).
    { apply (f_equal String.length) in E.
      rewrite length_append, !length_rev_string in E.
      rewrite length_rev_string. cbn [String.length] in E, Hn.
      destruct w; [congruence|]. cbn [String.length] in E. lia. }
    destruct (IH _ Hshort) as (post & Ep & Hp).
    rewrite rev_string_involutive in Ep.
    exists (String.append post w). split.
    + rewrite <- (rev_string_involutive (String c rs)) at 1.
      rewrite E, rev_string_app, !rev_string_involutive.
      rewrite Ep at 1. now rewrite append_assoc.
    + now apply startsRune_app.
Qed.

Lemma IsSpace_RuneError : unicode.IsSpace RuneError = false.
Proof. reflexivity. Qed.

(** [TrimRightFunc] keeps what the loop keeps: the rune at which the
    loop stops is stepped over by the forward decoder, which finds it as
    wide as the backward decoder did. *)
Lemma TrimRightFunc_prefix (s : string) (f : Z -> bool) :
  f RuneError = false ->
  exists post, s = String.append (TrimRightFunc s f) post /\ startsRune post.
Proof.
  intros Hf.
  destruct (trimRightRunes_prefix f Hf _ (rev_string s) (Nat.le_refl _))
    as (post & E & Hp).
  rewrite rev_string_involutive in E.
  exists post. split; [|exact Hp].
  rewrite E at 1. f_equal.
  unfold TrimRightFunc, lastIndexFunc.
  destruct (rev_string (trimRightRunes f 0 (rev_string s)))
    as [|c kept] eqn:Ek.
  - reflexivity.
  - destruct (DecodeLastRuneInString (String c kept)) as [r size] eqn:D.
    destruct (DecodeLastRuneInString_split (String c kept) r size
                ltac:(discriminate) D)
      as (s' & w & Ew & Hlen & Hw & Hd & _).
    cbn [snd]. rewrite Ew in E |- *.
    assert (Hi : Z.to_nat (Z.of_nat (String.length (String.append s' w))
                           - Z.of_nat size) = String.length s').
    { rewrite length_append. lia. }
    assert (Hi' : 0 <= Z.of_nat (String.length (String.append s' w))
                        - Z.of_nat size).
    { rewrite length_append. lia. }
    apply Z.leb_le in Hi'. rewrite Hi', Hi. cbn [andb].
    assert (Edrop : drop_string (String.length s') s = String.append w post).
    { rewrite E, append_assoc. apply drop_string_app. }
    rewrite at_drop_string, Edrop.
    assert (Hwidth : snd (DecodeRuneInString (String.append w post)) = size).
    { rewrite DecodeRuneInString_app by auto. exact Hd. }
    assert (Hfinal : forall k, k = Z.of_nat (String.length (String.append s' w)) ->
              take_string (Z.to_nat k) s = String.append s' w).
    { intros k ->. rewrite Nat2Z.id, E. apply take_string_app. }
    destruct w as [|d w]; [congruence|]. rewrite append_cons.
    cbn [at_ String.get].
    destruct (RuneSelf <=? byte d) eqn:Ed; symmetry; apply Hfinal.
    + rewrite <- append_cons, Hwidth. lia.
    + apply Z.leb_gt in Ed. unfold RuneSelf in Ed.
      rewrite DecodeRuneInString_ascii in Hd by exact Ed.
      cbn [snd] in Hd. subst size. lia.
Qed.

Lemma TrimSpace_Substring (s : string) : Substring (TrimSpace s) s.
Proof.
  unfold TrimSpace, TrimLeftFunc.
  destruct (trimLeftRunes_suffix unicode.IsSpace s 0) as (pre & E).
  destruct (TrimRightFunc_prefix (trimLeftRunes unicode.IsSpace 0 s)
              unicode.IsSpace IsSpace_RuneError) as (post & E' & _).
  exists pre, post. now rewrite <- E', <- E.
Qed.




End TrimFacts.

(** ** Lower case *)
Section LowerFacts.
Context {cases : unicode.CaseRanges}.


End LowerFacts.

(** ** Fields *)
Section FieldsFacts.
Import utf8.

(** The first [k] bytes of [s] are there and none of them is an ASCII
    byte. *)
Fixpoint highBytes (k : nat) (s : string) : Prop :=
  match k with
  | O => True
  | S k' =>
      match s with
      | EmptyString => False
      | String c s' => 0x80 <= byte c /\ highBytes k' s'
      end
  end.

(** An ASCII byte is a rune of its own, and the bytes of a longer rune
    are not ASCII bytes. *)
Lemma DecodeRuneInString_bytes (c : ascii) (s : string) (r : Z) (w : nat) :
  DecodeRuneInString (String c s) = (r, w) ->
  highBytes (w - 1) s /\ (byte c < 0x80 -> r = byte c).
Proof.
  unfold DecodeRuneInString.
  destruct (first (byte c)) as [[[sz lo] hi]|] eqn:F.
  - destruct (first_Some _ _ _ _ F) as (Hsz & Hlo & Hhi & Hc).
    intros Hd. split; [|lia]. revert Hd.
    destruct s as [|c1 [|c2 [|c3 s]]]; destruct Hsz as [-> | [-> | ->]];
      cbn [String.length at_ String.get Nat.ltb Nat.leb];
      repeat match goal with
             | |- context [if ?c then _ else _] => destruct c eqn:?
             end; intros [= <- <-]; cbn [Nat.sub highBytes]; auto;
      bool_lia; repeat split; lia.
  - intros [= <- <-]. split; [exact I|]. unfold RuneSelf. intros Hc.
    destruct (byte c <? 128) eqn:E; [reflexivity|bool_lia].
Qed.

Lemma isSpace_IsSpace (c : ascii) :
  isSpace c = true -> byte c < 0x80 /\ unicode.IsSpace (byte c) = true.
Proof.
  destruct c as [[] [] [] [] [] [] [] []]; vm_compute; intros Hc;
    (discriminate Hc || (split; reflexivity)).
Qed.

End FieldsFacts.

(** ** Tag parsing *)
Section TagFacts.
Context `{Float64Model} {cases : unicode.CaseRanges}.

Lemma parseJSONTag_total (tag : string) :
  exists name omitEmpty skip, parseJSONTag tag = Some (name, omitEmpty, skip).
Proof.
  unfold parseJSONTag.
  destruct (String.eqb tag ""); [eauto|].
  destruct (String.eqb tag "-"); [eauto|].
  destruct (Split tag ",") as [|name opts] eqn:E; [|eauto].
  exfalso. exact (Split_nonempty _ _ E).
Qed.

Lemma mergeTags_total (j b g d : string) :
  exists info, mergeTags j b g d = Some info.
Proof.
  unfold mergeTags.
  destruct (parseJSONTag_total j) as (name & omitEmpty & skip & ->). eauto.
Qed.

(** What [mergeTags] takes from each namespace. *)
Lemma mergeTags_fields (j b g d : string) (info : TagInfo) :
  mergeTags j b g d = Some info ->
  MaxLength info = MaxLength (parseBindingTag b) /\
  GORMSize info = GORMSize (parseGORMTag g) /\
  PrimaryKey info = PrimaryKey (parseGORMTag g) /\
  AutoCreateTime info = AutoCreateTime (parseGORMTag g) /\
  AutoUpdateTime info = AutoUpdateTime (parseGORMTag g) /\
  Format info = (if String.eqb (DocsFormat (parseDocsTag d)) ""
                 then Format (parseBindingTag b)
                 else DocsFormat (parseDocsTag d)) /\
  Enum info = (match DocsEnum (parseDocsTag d) with
               | [] => Enum (parseBindingTag b)
               | _ :: _ => DocsEnum (parseDocsTag d)
               end).
Proof.
  unfold mergeTags.
  destruct (parseJSONTag_total j) as (name & omitEmpty & skip & ->).
  intros [= <-]. cbn [DocsFormat DocsEnum].
  destruct (String.eqb (DocsFormat (parseDocsTag d)) "");
    destruct (DocsEnum (parseDocsTag d)); cbn; repeat split; reflexivity.
Qed.

Lemma fold_left_filter_id {A B : Type} (f : A -> B -> A) (drop : B -> bool)
  (l : list B) (a : A) :
  (forall a b, drop b = true -> f a b = a) ->
  fold_left f (List.filter (fun b => negb (drop b)) l) a = fold_left f l a.
Proof.
  intros Hdrop. revert a.
  induction l as [|b l IH]; intros a; cbn [List.filter fold_left]; [reflexivity|].
  destruct (drop b) eqn:E; cbn [negb fold_left].
  - now rewrite (Hdrop a b E).
  - apply IH.
Qed.

Lemma failsWith_inv {A : Type} (parse : string -> option A) (prefix part : string) :
  failsWith parse prefix part = true ->
  HasPrefix part prefix = true /\ parse (TrimPrefix part prefix) = None.
Proof.
  unfold failsWith. intros Hf. apply andb_prop in Hf as [Hp Hn].
  split; [exact Hp|]. destruct (parse (TrimPrefix part prefix)); [discriminate|reflexivity].
Qed.

Ltac peel_prefix H := repeat (apply HasPrefix_cons in H as (? & -> & H)).

(** A validation clause with an unparseable bound leaves the directive
    as it was. *)
Lemma bindingClause_unparseable (info : TagInfo) (part : string) :
  unparseableBound part = true -> bindingClause info part = info.
Proof.
  unfold unparseableBound, bindingClause.
  generalize (TrimSpace part) as p. clear part. cbv zeta. intros p Hp.
  repeat (apply orb_prop in Hp as [Hp|Hp]);
    apply failsWith_inv in Hp as [Hp Hn];
    pose proof Hp as Hp'; peel_prefix Hp';
    cbn; rewrite ?Hp', ?Hn; reflexivity.
Qed.

(** A persistence [size:] clause with an unparseable value leaves the
    directive as it was. *)
Lemma gormClause_unparseable (info : TagInfo) (part : string) :
  unparseableSize part = true -> gormClause info part = info.
Proof.
  unfold unparseableSize, gormClause.
  generalize (TrimSpace part) as p. clear part. cbv zeta. intros p.
  generalize (ToLower p) as lower. intros lower Hp.
  apply failsWith_inv in Hp as [Hp Hn].
  pose proof Hp as Hp'; peel_prefix Hp'.
  cbn; rewrite ?Hp', ?Hn; reflexivity.
Qed.

(** [parseBindingTag] is the fold of its clauses, and clauses with an
    unparseable bound can be left out. *)
Lemma parseBindingTag_drops (tag : string) :
  parseBindingTag tag =
  if String.eqb tag "-" then with_BindingSkip true zeroTagInfo
  else fold_left bindingClause
         (List.filter (fun part => negb (unparseableBound part))
                      (Split tag ","))
         zeroTagInfo.
Proof.
  rewrite fold_left_filter_id by (intros; now apply bindingClause_unparseable).
  unfold parseBindingTag.
  destruct (String.eqb_spec tag "") as [->|_]; [reflexivity|].
  destruct (String.eqb tag "-"); reflexivity.
Qed.

Lemma parseGORMTag_drops (tag : string) :
  parseGORMTag tag =
  if String.eqb tag "-" || String.eqb tag "-:all"
  then with_GORMSkip true zeroTagInfo
  else fold_left gormClause
         (List.filter (fun part => negb (unparseableSize part))
                      (Split tag ";"))
         zeroTagInfo.
Proof.
  rewrite fold_left_filter_id by (intros; now apply gormClause_unparseable).
  unfold parseGORMTag.
  destruct (String.eqb_spec tag "") as [->|_]; [reflexivity|].
  destruct (String.eqb tag "-" || String.eqb tag "-:all"); reflexivity.
Qed.

(** How one persistence clause changes the identity-key and
    auto-timestamp flags. *)
Lemma gormClause_flags (info : TagInfo) (part : string) :
  let lower := ToLower (TrimSpace part) in
  PrimaryKey (gormClause info part)
  = PrimaryKey info
    || (String.eqb lower "primarykey" || String.eqb lower "primary_key") /\
  AutoCreateTime (gormClause info part)
  = AutoCreateTime info || String.eqb lower "autocreatetime" /\
  AutoUpdateTime (gormClause info part)
  = AutoUpdateTime info || String.eqb lower "autoupdatetime".
Proof.
  unfold gormClause.
  generalize (TrimSpace part) as p. clear part. cbv zeta. intros p.
  generalize (ToLower p) as lower. intros lower.
  destruct (String.eqb_spec lower "primarykey") as [->|_];
    [cbn; rewrite !orb_true_r, !orb_false_r; auto|].
  destruct (String.eqb_spec lower "primary_key") as [->|_];
    [cbn; rewrite !orb_true_r, !orb_false_r; auto|].
  destruct (String.eqb_spec lower "autocreatetime") as [->|_];
    [cbn; rewrite !orb_true_r, !orb_false_r; auto|].
  destruct (String.eqb_spec lower "autoupdatetime") as [->|_];
    [cbn; rewrite !orb_true_r, !orb_false_r; auto|].
  cbn [orb]. rewrite !orb_false_r.
  repeat match goal with
         | |- context [if ?b then _ else _] => destruct b
         | |- context [match ?o with Some _ => _ | None => _ end] => destruct o
         end; cbn; auto.
Qed.





End TagFacts.

(** ** Pointer dereference and schema names *)
Section DerefFacts.
Context `{Float64Model} {cases : unicode.CaseRanges}.
Variable U : reflect.Types.

Lemma derefPtr_notPtr (fuel : nat) (t : reflect.rtype) :
  reflect.isPtr (reflect.Kind U t) = false -> derefPtr fuel U t = Some t.
Proof. intros Hk. destruct fuel; cbn [derefPtr]; now rewrite Hk. Qed.

Lemma derefPtr_mono (fuel fuel' : nat) (t t' : reflect.rtype) :
  (fuel <= fuel')%nat ->
  derefPtr fuel U t = Some t' -> derefPtr fuel' U t = Some t'.
Proof.
  revert fuel' t. induction fuel as [|fuel IH]; intros fuel' t Hle.
  - cbn [derefPtr]. destruct (reflect.isPtr (reflect.Kind U t)) eqn:Hk;
      [discriminate|].
    intros [= <-]. now apply derefPtr_notPtr.
  - destruct fuel' as [|fuel']; [lia|]. cbn [derefPtr].
    destruct (reflect.isPtr (reflect.Kind U t)); [|auto].
    apply IH. lia.
Qed.

Lemma derefPtr_DerefsTo (fuel : nat) (t t' : reflect.rtype) :
  derefPtr fuel U t = Some t' -> DerefsTo U t t'.
Proof.
  revert t. induction fuel as [|fuel IH]; intros t; cbn [derefPtr];
    destruct (reflect.isPtr (reflect.Kind U t)) eqn:Hk.
  - discriminate.
  - intros [= <-]. now constructor.
  - intros Hd. apply DerefsTo_elem; auto.
  - intros [= <-]. now constructor.
Qed.

Lemma DerefsTo_fun (t a b : reflect.rtype) :
  DerefsTo U t a -> DerefsTo U t b -> a = b.
Proof.
  induction 1 as [t Hk|t t' Hk _ IH]; inversion 1; subst;
    try congruence; auto.
Qed.

Lemma DerefsTo_notPtr (t t' : reflect.rtype) :
  DerefsTo U t t' -> reflect.isPtr (reflect.Kind U t') = false.
Proof. induction 1; auto. Qed.

Lemma derefPtr_result_notPtr (fuel : nat) (t t' : reflect.rtype) :
  derefPtr fuel U t = Some t' -> reflect.isPtr (reflect.Kind U t') = false.
Proof. intros Hd. eapply DerefsTo_notPtr, derefPtr_DerefsTo, Hd. Qed.

Lemma derefPtr_idem (fuel fuel' : nat) (t t' : reflect.rtype) :
  derefPtr fuel U t = Some t' -> derefPtr fuel' U t' = Some t'.
Proof. intros Hd. eapply derefPtr_notPtr, derefPtr_result_notPtr, Hd. Qed.

Lemma isPtr_hasElem (k : reflect.kind) :
  reflect.isPtr k = true -> hasElem k = true.
Proof. destruct k; cbn; congruence. Qed.

(** In a ranked graph the dereference loop ends, and it does not climb. *)
Lemma derefPtr_terminates (rank : reflect.rtype -> nat) (fuel : nat)
  (t : reflect.rtype) :
  Ranked U rank -> (rank t <= fuel)%nat ->
  exists t', derefPtr fuel U t = Some t' /\ (rank t' <= rank t)%nat.
Proof.
  intros HR. revert t. induction fuel as [|fuel IH]; intros t Hle;
    cbn [derefPtr]; destruct (reflect.isPtr (reflect.Kind U t)) eqn:Hk;
    try (exists t; split; [reflexivity|lia]).
  - pose proof (proj1 (HR t) (isPtr_hasElem _ Hk)). lia.
  - pose proof (proj1 (HR t) (isPtr_hasElem _ Hk)) as Hlt.
    destruct (IH (reflect.Elem U t)) as (t' & Hd & Hr); [lia|].
    exists t'. split; [exact Hd|lia].
Qed.

Lemma PointerTo_derefPtr (n fuel : nat) (p t : reflect.rtype) :
  PointerTo U n p t -> derefPtr (n + fuel) U p = derefPtr fuel U t.
Proof.
  revert p. induction n as [|n IH]; intros p; cbn [PointerTo].
  - now intros ->.
  - intros [Hk Hp]. cbn [Nat.add derefPtr]. rewrite Hk. now apply IH.
Qed.

Lemma derefPtr_PointerTo (n fuel : nat) (p t t0 : reflect.rtype) :
  PointerTo U n p t ->
  derefPtr fuel U p = Some t0 -> derefPtr fuel U t = Some t0.
Proof.
  revert p fuel. induction n as [|n IH]; intros p fuel; cbn [PointerTo].
  - now intros ->.
  - intros [Hk Hp] Hd. destruct fuel as [|fuel]; cbn [derefPtr] in Hd;
      rewrite Hk in Hd; [discriminate|].
    apply (derefPtr_mono fuel); [lia|]. eapply IH; eauto.
Qed.

(** The name under which a struct type is registered. *)
Definition registeredName (t : reflect.rtype) : string :=
  if String.eqb (reflect.Name U t) "" then "AnonymousStruct"
  else reflect.Name U t.

Lemma schemaName_notPtr (fuel : nat) (t : reflect.rtype) :
  reflect.isPtr (reflect.Kind U t) = false ->
  schemaName fuel U t = Some (registeredName t).
Proof.
  intros Hk. unfold schemaName, registeredName.
  rewrite (derefPtr_notPtr _ _ Hk). cbn.
  destruct (String.eqb (reflect.Name U t) ""); reflexivity.
Qed.

Lemma schemaName_derefPtr (fuel : nat) (t : reflect.rtype) :
  schemaName fuel U t = registeredName <$> derefPtr fuel U t.
Proof.
  unfold schemaName, registeredName.
  destruct (derefPtr fuel U t) as [t'|]; cbn; [|reflexivity].
  destruct (String.eqb (reflect.Name U t') ""); reflexivity.
Qed.

Lemma isStruct_notPtr (k : reflect.kind) :
  reflect.isStruct k = true -> reflect.isPtr k = false.
Proof. destruct k; cbn; congruence. Qed.

Lemma RefPath_nonempty (name : string) : String.eqb (RefPath name) "" = false.
Proof. reflexivity. Qed.

Lemma RefPath_inj (a b : string) : RefPath a = RefPath b -> a = b.
Proof. unfold RefPath. apply String.app_inj. Qed.

(** The table is finite: a struct type is one of its entries. *)
Lemma struct_in_table (t : reflect.rtype) :
  reflect.isStruct (reflect.Kind U t) = true ->
  (t < length (reflect.types U))%nat.
Proof.
  unfold reflect.Kind, reflect.info. intros Hk.
  destruct (reflect.types U !! t) eqn:E.
  - eapply lookup_lt_Some, E.
  - discriminate.
Qed.

Lemma fields_in_table (t : reflect.rtype) (f : reflect.StructField) :
  In f (reflect.Fields U t) -> (t < length (reflect.types U))%nat.
Proof.
  unfold reflect.Fields, reflect.info. intros Hin.
  destruct (reflect.types U !! t) eqn:E.
  - eapply lookup_lt_Some, E.
  - destruct Hin.
Qed.

End DerefFacts.

(** ** Fuel: more never hurts *)
Section Monotone.
Context `{Float64Model} {cases : unicode.CaseRanges}.
Variable U : reflect.Types.

Lemma forEachField_mono body body' fs st st' :
  (forall f s s', body f s = Some s' -> body' f s = Some s') ->
  forEachField body fs st = Some st' -> forEachField body' fs st = Some st'.
Proof.
  intros Hb. revert st. induction fs as [|f fs IH]; intros st; cbn [forEachField]; [auto|].
  destruct (body f st) as [s1|] eqn:E; [|discriminate].
  rewrite (Hb _ _ _ E). apply IH.
Qed.

Lemma bind_mono {A B : Type} (e e' : option A) (k k' : A -> option B) (x : B) :
  (forall v, e = Some v -> e' = Some v) ->
  (forall v y, k v = Some y -> k' v = Some y) ->
  e ≫= k = Some x -> e' ≫= k' = Some x.
Proof.
  intros He Hk. destruct e as [v|]; cbn; [|discriminate].
  rewrite (He v eq_refl). cbn. apply Hk.
Qed.

Lemma embeddedStruct_mono fuel fuel' f x :
  (fuel <= fuel')%nat -> embeddedStruct fuel U f = Some x -> embeddedStruct fuel' U f = Some x.
Proof.
  intros Hle. unfold embeddedStruct. destruct (reflect.Anonymous f); [|auto].
  apply bind_mono; [|auto]. intros v. now apply derefPtr_mono.
Qed.

Lemma schemaName_mono fuel fuel' t x :
  (fuel <= fuel')%nat -> schemaName fuel U t = Some x -> schemaName fuel' U t = Some x.
Proof.
  intros Hle. unfold schemaName.
  apply bind_mono; [|auto]. intros v. now apply derefPtr_mono.
Qed.

Lemma compile_mono (fuel : nat) :
  forall fuel', (fuel <= fuel')%nat ->
  (forall t r x, typeToSchema fuel U t r = Some x -> typeToSchema fuel' U t r = Some x) /\
  (forall t r x, structToSchema fuel U t r = Some x -> structToSchema fuel' U t r = Some x) /\
  (forall t s r x, processStructFields fuel U t s r = Some x -> processStructFields fuel' U t s r = Some x) /\
  (forall t tags r x, fieldToSchema fuel U t tags r = Some x -> fieldToSchema fuel' U t tags r = Some x).
Proof.
  induction fuel as [|fuel IH]; intros fuel' Hle.
  - repeat split; intros; discriminate.
  - destruct fuel' as [|fuel']; [lia|].
    destruct (IH fuel' ltac:(lia)) as (IHt & IHs & IHp & IHf).
    assert (Hd : forall t t', derefPtr fuel U t = Some t' -> derefPtr fuel' U t = Some t')
      by (intros t t'; apply derefPtr_mono; lia).
    repeat split.
    + intros t r x. cbn [typeToSchema].
      apply bind_mono; [apply Hd|]. intros t0 y.
      destruct (specialTypeSchema U t0); [auto|].
      destruct (reflect.Kind U t0); auto; apply bind_mono; auto.
    + intros t r x. cbn [structToSchema].
      apply bind_mono; [apply Hd|]. intros t0 y.
      apply bind_mono; [intros v; apply schemaName_mono; lia|]. intros name z.
      destruct (Has name r); [auto|]. destruct (isSeen t0 r); [auto|].
      apply bind_mono; auto.
    + intros t s r x. cbn [processStructFields].
      apply forEachField_mono. intros f [s0 r0] s'.
      destruct (negb (reflect.IsExported f)); [auto|].
      apply bind_mono; [intros v; apply embeddedStruct_mono; lia|].
      intros [e|] y; [auto|].
      apply bind_mono; [auto|]. intros tagInfo z.
      destruct (JSONSkip tagInfo || GORMSkip tagInfo || Hidden tagInfo); [auto|].
      apply bind_mono; auto.
    + intros t tags r x. cbn [fieldToSchema].
      apply bind_mono; auto.
Qed.

Lemma typeToSchema_mono (fuel fuel' : nat) t r x :
  (fuel <= fuel')%nat ->
  typeToSchema fuel U t r = Some x -> typeToSchema fuel' U t r = Some x.
Proof. intros Hle. now apply compile_mono. Qed.

Lemma structToSchema_mono (fuel fuel' : nat) t r x :
  (fuel <= fuel')%nat ->
  structToSchema fuel U t r = Some x -> structToSchema fuel' U t r = Some x.
Proof. intros Hle. now apply compile_mono. Qed.

Lemma fieldToSchema_mono (fuel fuel' : nat) t tags r x :
  (fuel <= fuel')%nat ->
  fieldToSchema fuel U t tags r = Some x ->
  fieldToSchema fuel' U t tags r = Some x.
Proof. intros Hle. now apply compile_mono. Qed.

End Monotone.

(** ** Schemas produced by the compiler *)
Section SchemaFacts.
Context `{Float64Model} {cases : unicode.CaseRanges}.
Variable U : reflect.Types.

Ltac next_let x :=
  lazymatch goal with
  | |- ?Q (let y := ?a in @?b y) =>
      change (let y := a in Q (b y)); cbv beta; intros x
  end.

Ltac split_cases :=
  repeat match goal with
         | |- context [if ?b then _ else _] => destruct b
         | |- context [match ?o with Some _ => _ | None => _ end] => destruct o
         end; auto.

(** A property kept by every assignment of [applyTagConstraints] is kept
    by [applyTagConstraints]. *)
Lemma applyTagConstraints_keeps (P : Schema.SchemaObject -> Prop) :
  (forall v x, P x -> P (Schema.with_Description v x)) ->
  (forall v x, P x -> P (Schema.with_Format v x)) ->
  (forall v x, P x -> P (Schema.with_Enum v x)) ->
  (forall v x, P x -> P (Schema.with_Minimum v x)) ->
  (forall v x, P x -> P (Schema.with_Maximum v x)) ->
  (forall v x, P x -> P (Schema.with_MinLength v x)) ->
  (forall v x, P x -> P (Schema.with_MaxLength v x)) ->
  (forall v x, P x -> P (Schema.with_Default v x)) ->
  (forall v x, P x -> P (Schema.with_ReadOnly v x)) ->
  (forall v x, P x -> P (Schema.with_Deprecated v x)) ->
  (forall v x, P x -> P (Schema.with_Example v x)) ->
  forall s tags, P s -> P (applyTagConstraints s tags).
Proof.
  intros H1 H2 H3 H4 H5 H6 H7 H8 H9 H10 H11 s tags Hs.
  cbv beta delta [applyTagConstraints].
  next_let x1. assert (P x1) by (subst x1; split_cases). clearbody x1.
  next_let x2. assert (P x2) by (subst x2; split_cases). clearbody x2.
  next_let x3. assert (P x3) by (subst x3; split_cases). clearbody x3.
  next_let x4. assert (P x4) by (subst x4; split_cases). clearbody x4.
  next_let x5. assert (P x5) by (subst x5; split_cases). clearbody x5.
  next_let x6. assert (P x6) by (subst x6; cbv zeta; split_cases). clearbody x6.
  next_let x7. assert (P x7) by (subst x7; split_cases). clearbody x7.
  next_let x8. assert (P x8) by (subst x8; split_cases). clearbody x8.
  next_let x9. assert (P x9) by (subst x9; split_cases). clearbody x9.
  split_cases.
Qed.

(** The parts of a schema that [applyTagConstraints] never assigns. *)
Lemma applyTagConstraints_frame (s : Schema.SchemaObject) (tags : TagInfo) :
  let s' := applyTagConstraints s tags in
  Schema.Ref s' = Schema.Ref s /\ Schema.Type_ s' = Schema.Type_ s /\
  Schema.Items s' = Schema.Items s /\
  Schema.AdditionalProperties s' = Schema.AdditionalProperties s /\
  Schema.Properties s' = Schema.Properties s /\
  Schema.AllOf s' = Schema.AllOf s /\ Schema.OneOf s' = Schema.OneOf s /\
  Schema.AnyOf s' = Schema.AnyOf s.
Proof.
  cbv zeta.
  apply (applyTagConstraints_keeps
           (fun x =>
              Schema.Ref x = Schema.Ref s /\ Schema.Type_ x = Schema.Type_ s /\
              Schema.Items x = Schema.Items s /\
              Schema.AdditionalProperties x = Schema.AdditionalProperties s /\
              Schema.Properties x = Schema.Properties s /\
              Schema.AllOf x = Schema.AllOf s /\
              Schema.OneOf x = Schema.OneOf s /\
              Schema.AnyOf x = Schema.AnyOf s));
    try (intros v x Hx; exact Hx).
  repeat split.
Qed.

(** On a string schema the length bound is the validation bound when
    there is one, and the storage size otherwise. *)
Lemma applyTagConstraints_MaxLength (s : Schema.SchemaObject) (tags : TagInfo) :
  Schema.Type_ s = "string" ->
  Schema.MaxLength (applyTagConstraints s tags)
  = match MaxLength tags with Some m => Some m | None => GORMSize tags end.
Proof.
  intros Hs.
  set (Q := fun z : Schema.SchemaObject =>
              Schema.MaxLength z
              = match MaxLength tags with
                | Some m => Some m
                | None => GORMSize tags
                end).
  change (Q (applyTagConstraints s tags)).
  cbv beta delta [applyTagConstraints].
  next_let x1.
  assert (Schema.Type_ x1 = "string") by (subst x1; split_cases). clearbody x1.
  next_let x2.
  assert (Schema.Type_ x2 = "string") by (subst x2; split_cases). clearbody x2.
  next_let x3.
  assert (Schema.Type_ x3 = "string") by (subst x3; split_cases). clearbody x3.
  next_let x4.
  assert (Schema.Type_ x4 = "string") by (subst x4; split_cases). clearbody x4.
  next_let x5.
  assert (Hx5 : Schema.Type_ x5 = "string") by (subst x5; split_cases).
  clearbody x5.
  next_let x6. assert (Q x6).
  { subst x6 Q. cbv beta zeta. rewrite Hx5. cbn.
    destruct (GORMSize tags), (MaxLength tags); reflexivity. }
  clearbody x6.
  next_let x7. assert (Q x7) by (subst x7 Q; cbv beta in *; split_cases).
  clearbody x7.
  next_let x8. assert (Q x8) by (subst x8 Q; cbv beta in *; split_cases).
  clearbody x8.
  next_let x9. assert (Q x9) by (subst x9 Q; cbv beta in *; split_cases).
  clearbody x9.
  subst Q; cbv beta in *; split_cases.
Qed.

Lemma NoReadOnly_leaf (s : Schema.SchemaObject) :
  Schema.ReadOnly s = false -> Schema.Items s = None ->
  Schema.AdditionalProperties s = None -> Schema.Properties s = ∅ ->
  Schema.AllOf s = [] -> Schema.OneOf s = [] -> Schema.AnyOf s = [] ->
  NoReadOnly s.
Proof.
  intros Hr Hi Ha Hp H1 H2 H3. constructor; auto.
  - rewrite Hi. discriminate.
  - rewrite Ha. discriminate.
  - rewrite Hp. intros k v Hk. now rewrite lookup_empty in Hk.
  - rewrite H1. intros v [].
  - rewrite H2. intros v [].
  - rewrite H3. intros v [].
Qed.

Lemma NoReadOnly_node (s : Schema.SchemaObject) :
  Schema.ReadOnly s = false ->
  (forall i, Schema.Items s = Some i -> NoReadOnly i) ->
  (forall a, Schema.AdditionalProperties s = Some a -> NoReadOnly a) ->
  Schema.Properties s = ∅ ->
  Schema.AllOf s = [] -> Schema.OneOf s = [] -> Schema.AnyOf s = [] ->
  NoReadOnly s.
Proof.
  intros Hr Hi Ha Hp H1 H2 H3. constructor; auto.
  - rewrite Hp. intros k v Hk. now rewrite lookup_empty in Hk.
  - rewrite H1. intros v [].
  - rewrite H2. intros v [].
  - rewrite H3. intros v [].
Qed.

Lemma NoReadOnly_SchemaRef (name : string) : NoReadOnly (SchemaRef name).
Proof. apply NoReadOnly_leaf; reflexivity. Qed.

(** [structToSchema] answers with a reference to the registered name of
    the struct. *)
Lemma structToSchema_is_ref (fuel : nat) t r s r' :
  structToSchema fuel U t r = Some (s, r') ->
  exists t0, DerefsTo U t t0 /\ s = SchemaRef (registeredName U t0).
Proof.
  destruct fuel as [|fuel]; [discriminate|]. cbn [structToSchema].
  destruct (derefPtr fuel U t) as [t0|] eqn:Hd; cbn [mbind option_bind];
    [|discriminate].
  rewrite schemaName_derefPtr, (derefPtr_idem U _ fuel _ _ Hd). cbn.
  intros Hs. exists t0. split; [eapply derefPtr_DerefsTo, Hd|].
  destruct (Has _ r); [now injection Hs as <- _|].
  destruct (isSeen t0 r); [now injection Hs as <- _|].
  destruct (processStructFields fuel U t0 _ _) as [[s1 r1]|]; cbn in Hs;
    [|discriminate].
  now injection Hs as <- _.
Qed.

(** What [typeToSchema] returns: a schema without a reference, or the
    reference to the struct the type dereferences to.  Nothing in it is
    read-only. *)
Lemma typeToSchema_shape (fuel : nat) :
  forall t r s r',
    typeToSchema fuel U t r = Some (s, r') ->
    NoReadOnly s /\
    (Schema.Ref s = "" \/
     exists t0, DerefsTo U t t0 /\
                reflect.isStruct (reflect.Kind U t0) = true /\
                specialTypeSchema U t0 = None /\
                s = SchemaRef (registeredName U t0)).
Proof.
  induction fuel as [|fuel IH]; intros t r s r'; [discriminate|].
  cbn [typeToSchema].
  destruct (derefPtr fuel U t) as [t0|] eqn:Hd; cbn [mbind option_bind];
    [|discriminate].
  unfold specialTypeSchema at 1.
  destruct (Nat.eqb t0 (reflect.timeTime U)) eqn:Htime.
  { intros [= <- <-]. split; [apply NoReadOnly_leaf; reflexivity|now left]. }
  destruct (reflect.ImplementsTextMarshaler U t0) eqn:Htext.
  { intros [= <- <-]. split; [apply NoReadOnly_leaf; reflexivity|now left]. }
  assert (Hsp : specialTypeSchema U t0 = None)
    by (unfold specialTypeSchema; now rewrite Htime, Htext).
  destruct (reflect.Kind U t0) eqn:Hk;
    try (intros [= <- <-]; split;
         [apply NoReadOnly_leaf; reflexivity|now left]).
  - (* Array *)
    destruct (typeToSchema fuel U (reflect.Elem U t0) r) as [[es r1]|] eqn:He;
      cbn [mbind option_bind]; [|discriminate].
    destruct (IH _ _ _ _ He) as [Hes _].
    destruct (reflect.isUint8 _); intros [= <- <-];
      (split; [|now left]); [apply NoReadOnly_leaf; reflexivity|].
    apply NoReadOnly_node; try reflexivity; cbn; try discriminate;
      now intros ? [= <-].
  - (* Map *)
    destruct (typeToSchema fuel U (reflect.Elem U t0) r) as [[es r1]|] eqn:He;
      cbn [mbind option_bind]; [|discriminate].
    destruct (IH _ _ _ _ He) as [Hes _].
    intros [= <- <-]. split; [|now left].
    apply NoReadOnly_node; try reflexivity; cbn; try discriminate;
      now intros ? [= <-].
  - (* Slice *)
    destruct (typeToSchema fuel U (reflect.Elem U t0) r) as [[es r1]|] eqn:He;
      cbn [mbind option_bind]; [|discriminate].
    destruct (IH _ _ _ _ He) as [Hes _].
    destruct (reflect.isUint8 _); intros [= <- <-];
      (split; [|now left]); [apply NoReadOnly_leaf; reflexivity|].
    apply NoReadOnly_node; try reflexivity; cbn; try discriminate;
      now intros ? [= <-].
  - (* Struct *)
    intros Hs. destruct (structToSchema_is_ref _ _ _ _ _ Hs) as (t1 & Hd1 & ->).
    split; [apply NoReadOnly_SchemaRef|]. right.
    assert (t1 = t0) as ->.
    { eapply DerefsTo_fun; [exact Hd1|]. constructor.
      eapply derefPtr_result_notPtr, Hd. }
    exists t0. repeat split; auto.
    + eapply derefPtr_DerefsTo, Hd.
    + now rewrite Hk.
Qed.

(** What [fieldToSchema] returns, in the three ways it can end. *)
Lemma fieldToSchema_cases (fuel : nat) t tags r s r' :
  fieldToSchema fuel U t tags r = Some (s, r') ->
  exists fuel' base,
    fuel = S fuel' /\ typeToSchema fuel' U t r = Some (base, r') /\
    ((Schema.Ref base = "" /\ s = applyTagConstraints base tags) \/
     (Schema.Ref base <> "" /\ s = base) \/
     (Schema.Ref base <> "" /\ Schema.Ref s = "" /\ Schema.Type_ s = "" /\
      Schema.ReadOnly s = false /\ Schema.AllOf s = [base] /\
      Schema.Items s = None /\ Schema.AdditionalProperties s = None /\
      Schema.Properties s = ∅ /\ Schema.OneOf s = [] /\ Schema.AnyOf s = [])).
Proof.
  destruct fuel as [|fuel]; [discriminate|]. cbn [fieldToSchema].
  destruct (typeToSchema fuel U t r) as [[base r1]|] eqn:Hb;
    cbn [mbind option_bind]; [|discriminate].
  intros Hs. exists fuel, base.
  destruct (String.eqb_spec (Schema.Ref base) "") as [Hr|Hr]; cbn [negb] in Hs.
  - injection Hs as <- <-. repeat split; auto.
  - destruct (negb (String.eqb (Description tags) "") || Deprecated tags);
      injection Hs as <- <-; repeat split; auto.
    right. right. repeat split; auto.
Qed.

End SchemaFacts.

(** ** The three field loops as one

    [processStructFields], [processCreateFields] and
    [processUpdateFields] run the same loop; they differ in the fields
    they pass over ([skip]), in what they do to a field schema before
    storing it ([post]) and in whether they collect required names
    ([req]). *)
Section FieldLoops.
Context `{Float64Model} {cases : unicode.CaseRanges}.
Variable U : reflect.Types.

Local Abbreviation SchemaObject := Schema.SchemaObject.
Local Abbreviation State := (Schema.SchemaObject * TypeRegistry)%type.

Definition fieldStep (skip : reflect.StructField -> bool)
  (post : SchemaObject -> SchemaObject) (req : bool) (fuel : nat)
  (processEmbedded : reflect.rtype -> SchemaObject -> TypeRegistry -> option State)
  (compileField : reflect.rtype -> TagInfo -> TypeRegistry -> option State)
  (field : reflect.StructField) (st : State) : option State :=
  let '(schema, registry) := st in
  if negb (reflect.IsExported field) then Some (schema, registry)
  else
    embedded ← embeddedStruct fuel U field;
    match embedded with
    | Some embeddedType => processEmbedded embeddedType schema registry
    | None =>
        if skip field then Some (schema, registry)
        else
          tagInfo ← fieldTags field;
          if JSONSkip tagInfo || GORMSkip tagInfo || Hidden tagInfo
          then Some (schema, registry)
          else
            let propName := propertyName tagInfo field in
            '(fieldSchema, registry) ←
              compileField (reflect.FieldType field) tagInfo registry;
            let fieldSchema := post fieldSchema in
            let schema :=
              Schema.with_Properties
                (<[propName := fieldSchema]> (Schema.Properties schema))
                schema in
            let schema :=
              if req && Required tagInfo
              then Schema.with_Required
                     (Schema.Required schema ++ [propName])%list schema
              else schema in
            Some (schema, registry)
    end.

Fixpoint processFields (skip : reflect.StructField -> bool)
  (post : SchemaObject -> SchemaObject) (req : bool) (fuel : nat)
  (t : reflect.rtype) (schema : SchemaObject) (registry : TypeRegistry)
  {struct fuel} : option State :=
  match fuel with
  | O => None
  | S fuel' =>
      forEachField
        (fieldStep skip post req fuel'
           (processFields skip post req fuel') (fieldToSchema fuel' U))
        (reflect.Fields U t) (schema, registry)
  end.

Definition keepAll (field : reflect.StructField) : bool := false.
Definition unchanged (fieldSchema : SchemaObject) : SchemaObject := fieldSchema.

(** [if fieldSchema.Ref == "" { fieldSchema.ReadOnly = false }] *)
Definition clearReadOnly (fieldSchema : SchemaObject) : SchemaObject :=
  if String.eqb (Schema.Ref fieldSchema) ""
  then Schema.with_ReadOnly false fieldSchema else fieldSchema.

(** The empty object [&SchemaObject{Type: "object", Properties: make(...)}]. *)
Definition emptyObject : SchemaObject :=
  Schema.with_Properties ∅ (Schema.with_Type_ "object" Schema.zero).

Lemma forEachField_ext (body body' : reflect.StructField -> State -> option State)
  (fs : list reflect.StructField) (st : State) :
  (forall f s, body f s = body' f s) ->
  forEachField body fs st = forEachField body' fs st.
Proof.
  intros Hb. revert st. induction fs as [|f fs IH]; intros st;
    cbn [forEachField]; [reflexivity|].
  rewrite Hb. destruct (body' f st); auto.
Qed.

Lemma fieldStep_ext skip post req fuel pe pe' cf f st :
  (forall e s r, pe e s r = pe' e s r) ->
  fieldStep skip post req fuel pe cf f st
  = fieldStep skip post req fuel pe' cf f st.
Proof.
  intros Hpe. unfold fieldStep. destruct st as [s r].
  destruct (negb (reflect.IsExported f)); [reflexivity|].
  destruct (embeddedStruct fuel U f) as [[e|]|]; cbn; auto.
Qed.

Lemma processStructFields_generic (fuel : nat) t s r :
  processStructFields fuel U t s r
  = processFields keepAll unchanged true fuel t s r.
Proof.
  revert t s r. induction fuel as [|fuel IH]; intros t s r; [reflexivity|].
  cbn [processStructFields processFields].
  apply forEachField_ext. intros f [s0 r0].
  rewrite <- (fieldStep_ext _ _ _ _ (processStructFields fuel U)) by apply IH.
  reflexivity.
Qed.

Lemma processCreateFields_generic (fuel : nat) t s r :
  processCreateFields fuel U t s r
  = processFields (shouldSkipForCreate U) unchanged true fuel t s r.
Proof.
  revert t s r. induction fuel as [|fuel IH]; intros t s r; [reflexivity|].
  cbn [processCreateFields processFields].
  apply forEachField_ext. intros f [s0 r0].
  rewrite <- (fieldStep_ext _ _ _ _ (processCreateFields fuel U)) by apply IH.
  reflexivity.
Qed.

Lemma processUpdateFields_generic (fuel : nat) t s r :
  processUpdateFields fuel U t s r
  = processFields (shouldSkipForCreate U) clearReadOnly false fuel t s r.
Proof.
  revert t s r. induction fuel as [|fuel IH]; intros t s r; [reflexivity|].
  cbn [processUpdateFields processFields].
  apply forEachField_ext. intros f [s0 r0].
  rewrite <- (fieldStep_ext _ _ _ _ (processUpdateFields fuel U)) by apply IH.
  reflexivity.
Qed.

Lemma generateCreateVariant_generic (fuel : nat) t r :
  generateCreateVariant fuel U t r
  = processFields (shouldSkipForCreate U) unchanged true (S fuel) t
                  emptyObject r.
Proof.
  unfold generateCreateVariant. cbn [processFields].
  apply forEachField_ext. intros f [s0 r0].
  rewrite <- (fieldStep_ext _ _ _ _ (processCreateFields fuel U))
    by apply processCreateFields_generic.
  reflexivity.
Qed.

Lemma generateUpdateVariant_generic (fuel : nat) t r :
  generateUpdateVariant fuel U t r
  = processFields (shouldSkipForCreate U) clearReadOnly false (S fuel) t
                  emptyObject r.
Proof.
  unfold generateUpdateVariant. cbn [processFields].
  apply forEachField_ext. intros f [s0 r0].
  rewrite <- (fieldStep_ext _ _ _ _ (processUpdateFields fuel U))
    by apply processUpdateFields_generic.
  reflexivity.
Qed.

Lemma processFields_mono skip post req (fuel fuel' : nat) t s r x :
  (fuel <= fuel')%nat ->
  processFields skip post req fuel t s r = Some x ->
  processFields skip post req fuel' t s r = Some x.
Proof.
  revert fuel' t s r x. induction fuel as [|fuel IH];
    intros fuel' t s r x Hle; [discriminate|].
  destruct fuel' as [|fuel']; [lia|]. cbn [processFields].
  apply forEachField_mono. intros f [s0 r0] s'. unfold fieldStep.
  destruct (negb (reflect.IsExported f)); [auto|].
  apply bind_mono; [intros v; apply embeddedStruct_mono; lia|].
  intros [e|] y; [apply IH; lia|].
  destruct (skip f); [auto|].
  apply bind_mono; [auto|]. intros tagInfo z.
  destruct (JSONSkip tagInfo || GORMSkip tagInfo || Hidden tagInfo); [auto|].
  apply bind_mono; [|auto]. intros v. apply fieldToSchema_mono. lia.
Qed.

End FieldLoops.

(** ** What compilation does to the registry *)
Section RegistryFacts.
Context `{Float64Model} {cases : unicode.CaseRanges}.
Variable U : reflect.Types.

Local Abbreviation State := (Schema.SchemaObject * TypeRegistry)%type.

(** A later registry: the same types in progress, no schema removed. *)
Definition Extends (r r' : TypeRegistry) : Prop :=
  seen r' = seen r /\ dom (schemas r) ⊆ dom (schemas r').

Lemma Extends_refl (r : TypeRegistry) : Extends r r.
Proof. split; [reflexivity|set_solver]. Qed.

Lemma Extends_trans (a b c : TypeRegistry) :
  Extends a b -> Extends b c -> Extends a c.
Proof. intros [Hs1 Hd1] [Hs2 Hd2]. split; [congruence|set_solver]. Qed.

Lemma Has_dom (name : string) (r : TypeRegistry) :
  Has name r = true <-> name ∈ dom (schemas r).
Proof.
  unfold Has. rewrite elem_of_dom.
  destruct (schemas r !! name); split; intros Hx; try reflexivity;
    try discriminate; eauto.
  destruct Hx as [? ?]. discriminate.
Qed.

Lemma Has_Extends (name : string) (r r' : TypeRegistry) :
  Extends r r' -> Has name r = true -> Has name r' = true.
Proof. intros [_ Hd]. rewrite !Has_dom. set_solver. Qed.

Lemma Has_Register (name : string) (s : Schema.SchemaObject) (r : TypeRegistry) :
  Has name (Register name s r) = true.
Proof. unfold Has, Register. cbn. now rewrite lookup_insert_eq. Qed.

Lemma isSeen_false (t : reflect.rtype) (r : TypeRegistry) :
  isSeen t r = false <-> t ∉ seen r.
Proof. unfold isSeen. apply bool_decide_eq_false. Qed.

Lemma isSeen_true (t : reflect.rtype) (r : TypeRegistry) :
  isSeen t r = true <-> t ∈ seen r.
Proof. unfold isSeen. apply bool_decide_eq_true. Qed.

(** Marking, compiling the fields, registering and unmarking. *)
Lemma Extends_struct (t : reflect.rtype) (name : string)
  (s : Schema.SchemaObject) (r r1 : TypeRegistry) :
  isSeen t r = false ->
  Extends (markSeen t r) r1 ->
  Extends r (unmarkSeen t (Register name s r1)).
Proof.
  intros Hns [Hs Hd]. apply isSeen_false in Hns.
  split; cbn in *.
  - rewrite Hs. set_solver.
  - rewrite dom_insert_L. set_solver.
Qed.

Lemma forEachField_invariant (R : State -> State -> Prop)
  (body : reflect.StructField -> State -> option State)
  (fs : list reflect.StructField) (st st' : State) :
  (forall s, R s s) ->
  (forall a b c, R a b -> R b c -> R a c) ->
  (forall f s s', In f fs -> body f s = Some s' -> R s s') ->
  forEachField body fs st = Some st' -> R st st'.
Proof.
  intros Hrefl Htrans. revert st.
  induction fs as [|f fs IH]; intros st Hb; cbn [forEachField].
  - intros [= <-]. apply Hrefl.
  - destruct (body f st) as [s1|] eqn:E; [|discriminate].
    intros Hl. eapply Htrans.
    + eapply Hb; [now left|exact E].
    + apply IH; [|exact Hl]. intros g s s' Hin. apply Hb. now right.
Qed.

Lemma fieldStep_extends skip post req fuel pe cf f (st st' : State) :
  (forall e s r x, pe e s r = Some x -> Extends r x.2) ->
  (forall t tags r x, cf t tags r = Some x -> Extends r x.2) ->
  fieldStep U skip post req fuel pe cf f st = Some st' ->
  Extends st.2 st'.2.
Proof.
  intros Hpe Hcf. unfold fieldStep. destruct st as [s r].
  destruct (negb (reflect.IsExported f));
    [intros [= <-]; apply Extends_refl|].
  destruct (embeddedStruct fuel U f) as [[e|]|]; cbn [mbind option_bind];
    [apply Hpe| |discriminate].
  destruct (skip f); [intros [= <-]; apply Extends_refl|].
  destruct (fieldTags f) as [tagInfo|]; cbn [mbind option_bind];
    [|discriminate].
  destruct (JSONSkip tagInfo || GORMSkip tagInfo || Hidden tagInfo);
    [intros [= <-]; apply Extends_refl|].
  destruct (cf (reflect.FieldType f) tagInfo r) as [[fs r1]|] eqn:E;
    cbn [mbind option_bind]; [|discriminate].
  intros [= <-]. exact (Hcf _ _ _ _ E).
Qed.

Lemma compile_extends (fuel : nat) :
  (forall t r x, typeToSchema fuel U t r = Some x -> Extends r x.2) /\
  (forall t r x, structToSchema fuel U t r = Some x -> Extends r x.2) /\
  (forall skip post req t s r x,
     processFields U skip post req fuel t s r = Some x -> Extends r x.2) /\
  (forall t tags r x, fieldToSchema fuel U t tags r = Some x -> Extends r x.2).
Proof.
  induction fuel as [|fuel (IHt & IHs & IHp & IHf)];
    [split; [|split; [|split]]; intros; discriminate|].
  split; [|split; [|split]].
  - intros t r x. cbn [typeToSchema].
    destruct (derefPtr fuel U t) as [t0|]; cbn [mbind option_bind];
      [|discriminate].
    destruct (specialTypeSchema U t0);
      [intros [= <-]; apply Extends_refl|].
    destruct (reflect.Kind U t0);
      try (intros [= <-]; apply Extends_refl);
      try (destruct (typeToSchema fuel U (reflect.Elem U t0) r)
             as [[es r1]|] eqn:E; cbn [mbind option_bind]; [|discriminate];
           pose proof (IHt _ _ _ E);
           try destruct (reflect.isUint8 _); intros [= <-]; assumption).
    apply IHs.
  - intros t r x. cbn [structToSchema].
    destruct (derefPtr fuel U t) as [t0|]; cbn [mbind option_bind];
      [|discriminate].
    destruct (schemaName fuel U t0) as [name|]; cbn [mbind option_bind];
      [|discriminate].
    destruct (Has name r); [intros [= <-]; apply Extends_refl|].
    destruct (isSeen t0 r) eqn:Hseen; [intros [= <-]; apply Extends_refl|].
    rewrite processStructFields_generic.
    destruct (processFields U keepAll unchanged true fuel t0 _ _)
      as [[s1 r1]|] eqn:E; cbn [mbind option_bind]; [|discriminate].
    intros [= <-]. cbn [snd].
    apply Extends_struct; [exact Hseen|]. exact (IHp _ _ _ _ _ _ _ E).
  - intros skip post req t s r x. cbn [processFields]. intros Hl.
    apply (forEachField_invariant (fun a b => Extends a.2 b.2) _ _ _ _
             (fun s => Extends_refl s.2)
             (fun a b c => Extends_trans a.2 b.2 c.2)) in Hl; [exact Hl|].
    intros f s0 s' _. apply fieldStep_extends; [apply IHp|apply IHf].
  - intros t tags r x. cbn [fieldToSchema].
    destruct (typeToSchema fuel U t r) as [[base r1]|] eqn:E;
      cbn [mbind option_bind]; [|discriminate].
    pose proof (IHt _ _ _ E).
    repeat match goal with
           | |- context [if ?b then _ else _] => destruct b
           end; intros [= <-]; assumption.
Qed.

Lemma typeToSchema_extends (fuel : nat) t r s r' :
  typeToSchema fuel U t r = Some (s, r') -> Extends r r'.
Proof. intros Hc. exact (proj1 (compile_extends fuel) _ _ _ Hc). Qed.

Lemma processFields_extends skip post req (fuel : nat) t s r s' r' :
  processFields U skip post req fuel t s r = Some (s', r') -> Extends r r'.
Proof.
  intros Hc.
  exact (proj1 (proj2 (proj2 (compile_extends fuel))) _ _ _ _ _ _ _ Hc).
Qed.

Lemma fieldToSchema_extends (fuel : nat) t tags r s r' :
  fieldToSchema fuel U t tags r = Some (s, r') -> Extends r r'.
Proof.
  intros Hc. exact (proj2 (proj2 (proj2 (compile_extends fuel))) _ _ _ _ Hc).
Qed.

End RegistryFacts.

(** ** Termination on ranked type graphs *)
Section Termination.
Context `{Float64Model} {cases : unicode.CaseRanges}.
Variable U : reflect.Types.
Variable rank : reflect.rtype -> nat.
Hypothesis HR : Ranked U rank.

Local Abbreviation State := (Schema.SchemaObject * TypeRegistry)%type.

Lemma filter_length_lt {A : Type} (f g : A -> bool) (l : list A) (x : A) :
  In x l -> f x = true -> g x = false ->
  (forall y, g y = true -> f y = true) ->
  (length (List.filter g l) < length (List.filter f l))%nat.
Proof.
  intros Hin Hf Hg Hsub.
  assert (Hle : forall l', (length (List.filter g l') <= length (List.filter f l'))%nat).
  { induction l' as [|y l' IH]; cbn [List.filter]; [lia|].
    destruct (g y) eqn:Egy.
    - rewrite (Hsub y Egy). cbn [length]. lia.
    - destruct (f y); cbn [length]; lia. }
  induction l as [|y l IH]; [destruct Hin|]. cbn [List.filter].
  destruct Hin as [->|Hin].
  - rewrite Hf, Hg. cbn [length]. specialize (Hle l). lia.
  - specialize (IH Hin). destruct (g y) eqn:Egy.
    + rewrite (Hsub y Egy). cbn [length]. lia.
    + destruct (f y); cbn [length]; lia.
Qed.

Lemma unseen_markSeen (t : reflect.rtype) (r : TypeRegistry) :
  isSeen t r = false -> (t < length (reflect.types U))%nat ->
  (unseen U (markSeen t r) < unseen U r)%nat.
Proof.
  intros Hns Hlt. unfold unseen.
  apply (filter_length_lt _ _ _ t).
  - apply in_seq. lia.
  - now rewrite Hns.
  - apply negb_false_iff, isSeen_true. cbn. set_solver.
  - intros y Hy. apply negb_true_iff in Hy. apply negb_true_iff.
    apply isSeen_false in Hy. apply isSeen_false. cbn in Hy. set_solver.
Qed.

Lemma unseen_Extends (r r' : TypeRegistry) :
  Extends r r' -> unseen U r' = unseen U r.
Proof. intros [Hs _]. unfold unseen, isSeen. now rewrite Hs. Qed.

(** The loop of [processFields], over any list of fields. *)
Definition loopFields skip post req (fuel : nat)
  (fs : list reflect.StructField) (st : State) : option State :=
  forEachField
    (fieldStep U skip post req fuel
       (processFields U skip post req fuel) (fieldToSchema fuel U))
    fs st.

Lemma loopFields_mono skip post req (fuel fuel' : nat) fs st x :
  (fuel <= fuel')%nat ->
  loopFields skip post req fuel fs st = Some x ->
  loopFields skip post req fuel' fs st = Some x.
Proof.
  intros Hle. unfold loopFields.
  apply forEachField_mono. intros f [s0 r0] s'. unfold fieldStep.
  destruct (negb (reflect.IsExported f)); [auto|].
  apply bind_mono; [intros v; apply embeddedStruct_mono; lia|].
  intros [e|] y; [now apply processFields_mono|].
  destruct (skip f); [auto|].
  apply bind_mono; [auto|]. intros tagInfo z.
  destruct (JSONSkip tagInfo || GORMSkip tagInfo || Hidden tagInfo); [auto|].
  apply bind_mono; [|auto]. intros v. apply fieldToSchema_mono. lia.
Qed.

Lemma loopFields_cons skip post req (fuel : nat) f fs st st1 st2 :
  loopFields skip post req fuel [f] st = Some st1 ->
  loopFields skip post req fuel fs st1 = Some st2 ->
  loopFields skip post req fuel (f :: fs) st = Some st2.
Proof.
  unfold loopFields. cbn [forEachField].
  destruct (fieldStep _ _ _ _ _ _ _ f st) as [s1|]; [|discriminate].
  now intros [= ->].
Qed.

Lemma loopFields_extends skip post req (fuel : nat) fs st st' :
  loopFields skip post req fuel fs st = Some st' -> Extends st.2 st'.2.
Proof.
  unfold loopFields. intros Hl.
  apply (forEachField_invariant (fun a b => Extends a.2 b.2) _ _ _ _
           (fun s => Extends_refl s.2)
           (fun a b c => Extends_trans a.2 b.2 c.2)) in Hl; [exact Hl|].
  intros f s0 s' _. apply fieldStep_extends.
  - intros e s r x Hx. destruct x as [s1 r1].
    eapply processFields_extends, Hx.
  - intros t tags r x Hx. destruct x as [s1 r1].
    eapply fieldToSchema_extends, Hx.
Qed.

Lemma embeddedStruct_sound (fuel : nat) (f : reflect.StructField) e :
  embeddedStruct fuel U f = Some (Some e) -> EmbedsStruct U f e.
Proof.
  unfold embeddedStruct, EmbedsStruct.
  destruct (reflect.Anonymous f); [|discriminate].
  destruct (derefPtr fuel U (reflect.FieldType f)) as [t0|] eqn:Hd;
    cbn [mbind option_bind]; [|discriminate].
  destruct (reflect.isStruct (reflect.Kind U t0)) eqn:Hk; [|discriminate].
  destruct (specialTypeSchema U t0) eqn:Hsp; [discriminate|].
  intros [= <-]. repeat split; auto. eapply derefPtr_DerefsTo, Hd.
Qed.

Lemma embeddedStruct_none (fuel : nat) (f : reflect.StructField) :
  embeddedStruct fuel U f = Some None -> forall e, ~ EmbedsStruct U f e.
Proof.
  unfold embeddedStruct, EmbedsStruct. intros He e (Ha & Hd & Hk & Hsp).
  rewrite Ha in He.
  destruct (derefPtr fuel U (reflect.FieldType f)) as [t0|] eqn:Hd0;
    cbn [mbind option_bind] in He; [|discriminate].
  assert (t0 = e) as ->
    by (eapply DerefsTo_fun; [eapply derefPtr_DerefsTo, Hd0|exact Hd]).
  rewrite Hk, Hsp in He. discriminate.
Qed.

Lemma embeddedStruct_terminates (f : reflect.StructField) :
  exists x, embeddedStruct (rank (reflect.FieldType f)) U f = Some x.
Proof.
  unfold embeddedStruct. destruct (reflect.Anonymous f); [|eauto].
  destruct (derefPtr_terminates U rank _ (reflect.FieldType f) HR (le_n _))
    as (t0 & -> & _).
  cbn [mbind option_bind].
  destruct (reflect.isStruct _); [|eauto].
  destruct (specialTypeSchema U t0); eauto.
Qed.

Lemma fieldToSchema_of_typeToSchema (fuel : nat) t tags r s r' :
  typeToSchema fuel U t r = Some (s, r') ->
  exists s', fieldToSchema (S fuel) U t tags r = Some (s', r').
Proof.
  intros Ht. cbn [fieldToSchema]. rewrite Ht. cbn [mbind option_bind].
  repeat match goal with
         | |- context [if ?b then _ else _] => destruct b
         end; eauto.
Qed.

(** If types compile at a level, field loops run to their end there. *)
Lemma level_fields (n : nat) skip post req :
  (forall r t, (unseen U r <= n)%nat ->
               exists fuel s r', typeToSchema fuel U t r = Some (s, r')) ->
  forall t s r, (unseen U r <= n)%nat ->
  exists fuel x, processFields U skip post req fuel t s r = Some x.
Proof.
  intros HT t. remember (rank t) as k eqn:Hk. revert t Hk.
  induction k as [k IHk] using lt_wf_ind. intros t Hk s r Hn.
  assert (Hloop : forall fs, (forall f, In f fs -> In f (reflect.Fields U t)) ->
            forall st, (unseen U st.2 <= n)%nat ->
            exists fuel x, loopFields skip post req fuel fs st = Some x).
  { induction fs as [|f fs IHfs]; intros Hfs st Hst.
    - exists O, st. reflexivity.
    - assert (Hstep : exists fuel st1,
                 loopFields skip post req fuel [f] st = Some st1).
      { unfold loopFields. cbn [forEachField]. unfold fieldStep.
        destruct st as [s0 r0].
        destruct (negb (reflect.IsExported f)) eqn:Hex; [exists O; eauto|].
        apply negb_false_iff in Hex.
        destruct (embeddedStruct_terminates f) as ([e|] & He).
        - pose proof (embeddedStruct_sound _ _ _ He) as Hemb.
          pose proof (proj2 (HR t) f e (Hfs f (or_introl eq_refl)) Hex Hemb)
            as Hlt.
          destruct (IHk (rank e) ltac:(lia) e eq_refl s0 r0 Hst)
            as (fuelE & x & HE).
          exists (Nat.max (rank (reflect.FieldType f)) fuelE).
          rewrite (embeddedStruct_mono U _ _ _ _ (Nat.le_max_l _ _) He).
          cbn [mbind option_bind].
          rewrite (processFields_mono U _ _ _ _ _ _ _ _ _
                     (Nat.le_max_r _ _) HE).
          eauto.
        - destruct (skip f) eqn:Hskip.
          { exists (rank (reflect.FieldType f)). rewrite He.
            cbn [mbind option_bind]. eauto. }
          destruct (mergeTags_total
                      (reflect.Get (reflect.FieldTag f) "json")
                      (reflect.Get (reflect.FieldTag f) "binding")
                      (reflect.Get (reflect.FieldTag f) "gorm")
                      (reflect.Get (reflect.FieldTag f) "docs"))
            as (tagInfo & Htags).
          destruct (JSONSkip tagInfo || GORMSkip tagInfo || Hidden tagInfo)
            eqn:Hhid.
          { exists (rank (reflect.FieldType f)). rewrite He.
            cbn [mbind option_bind].
            unfold fieldTags. rewrite Htags. cbn [mbind option_bind].
            rewrite Hhid. eauto. }
          destruct (HT r0 (reflect.FieldType f) Hst) as (fuelT & bs & r1 & Ht).
          destruct (fieldToSchema_of_typeToSchema _ _ tagInfo _ _ _ Ht)
            as (fs1 & Hf).
          exists (Nat.max (rank (reflect.FieldType f)) (S fuelT)).
          rewrite (embeddedStruct_mono U _ _ _ _ (Nat.le_max_l _ _) He).
          cbn [mbind option_bind].
          unfold fieldTags. rewrite Htags. cbn [mbind option_bind].
          rewrite Hhid.
          rewrite (fieldToSchema_mono U _ _ _ _ _ _ (Nat.le_max_r _ _) Hf).
          cbn [mbind option_bind]. eauto. }
      destruct Hstep as (fuel1 & st1 & H1).
      destruct (IHfs (fun g Hg => Hfs g (or_intror Hg)) st1) as (fuel2 & st2 & H2).
      { rewrite (unseen_Extends _ _ (loopFields_extends _ _ _ _ _ _ _ H1)).
        exact Hst. }
      exists (Nat.max fuel1 fuel2), st2.
      eapply loopFields_cons.
      + eapply loopFields_mono; [apply Nat.le_max_l|exact H1].
      + eapply loopFields_mono; [apply Nat.le_max_r|exact H2]. }
  destruct (Hloop (reflect.Fields U t) (fun f Hf => Hf) (s, r) Hn)
    as (fuel & x & Hl).
  exists (S fuel), x. exact Hl.
Qed.

Lemma structToSchema_known (fuel : nat) (t : reflect.rtype) (r : TypeRegistry) :
  reflect.isPtr (reflect.Kind U t) = false ->
  Has (registeredName U t) r || isSeen t r = true ->
  structToSchema (S fuel) U t r = Some (SchemaRef (registeredName U t), r).
Proof.
  intros Hk Hor. cbn [structToSchema].
  rewrite (derefPtr_notPtr U _ _ Hk). cbn [mbind option_bind].
  rewrite (schemaName_notPtr U _ _ Hk). cbn [mbind option_bind].
  destruct (Has (registeredName U t) r); [reflexivity|].
  cbn [orb] in Hor. now rewrite Hor.
Qed.

Lemma structToSchema_fresh (fuel : nat) (t : reflect.rtype) (r : TypeRegistry) :
  reflect.isPtr (reflect.Kind U t) = false ->
  Has (registeredName U t) r = false -> isSeen t r = false ->
  structToSchema (S fuel) U t r
  = '(schema, registry) ←
      processFields U keepAll unchanged true fuel t emptyObject (markSeen t r);
    Some (SchemaRef (registeredName U t),
          unmarkSeen t (Register (registeredName U t) schema registry)).
Proof.
  intros Hk Hhas Hseen. cbn [structToSchema].
  rewrite (derefPtr_notPtr U _ _ Hk). cbn [mbind option_bind].
  rewrite (schemaName_notPtr U _ _ Hk). cbn [mbind option_bind].
  rewrite Hhas, Hseen, processStructFields_generic. reflexivity.
Qed.

(** If the field loops run to their end below a level, types compile at
    that level. *)
Lemma level_type (n : nat) :
  (forall t s r, (unseen U r < n)%nat ->
     exists fuel x, processFields U keepAll unchanged true fuel t s r = Some x) ->
  forall t r, (unseen U r <= n)%nat ->
  exists fuel s r', typeToSchema fuel U t r = Some (s, r').
Proof.
  intros HP t. remember (rank t) as k eqn:Hk. revert t Hk.
  induction k as [k IHk] using lt_wf_ind. intros t Hk r Hn.
  destruct (derefPtr_terminates U rank (rank t) t HR (le_n _))
    as (t0 & Hd & Hr0).
  assert (Hstart : forall fuel, (rank t <= fuel)%nat ->
            typeToSchema (S fuel) U t r
            = typeToSchema (S fuel) U t0 r).
  { intros fuel Hle. cbn [typeToSchema].
    rewrite (derefPtr_mono U _ _ _ _ Hle Hd).
    now rewrite (derefPtr_idem U _ fuel _ _ Hd). }
  assert (Hself : forall fuel, derefPtr fuel U t0 = Some t0)
    by (intros fuel; eapply derefPtr_idem, Hd).
  destruct (specialTypeSchema U t0) as [sp|] eqn:Hsp.
  { exists (S (rank t)), sp, r. rewrite Hstart by lia.
    cbn [typeToSchema]. rewrite Hself. cbn [mbind option_bind].
    now rewrite Hsp. }
  destruct (reflect.Kind U t0) eqn:Hkind;
    try (eexists (S (rank t)), _, r; rewrite Hstart by lia;
         cbn [typeToSchema]; rewrite Hself; cbn [mbind option_bind];
         rewrite Hsp, Hkind; reflexivity).
  - (* Array *)
    assert (Hlt : (rank (reflect.Elem U t0) < rank t0)%nat)
      by (apply (HR t0); now rewrite Hkind).
    destruct (IHk (rank (reflect.Elem U t0)) ltac:(lia) _ eq_refl r Hn)
      as (fuelE & es & r1 & HE).
    exists (S (Nat.max (rank t) fuelE)). rewrite Hstart by lia.
    cbn [typeToSchema]. rewrite Hself. cbn [mbind option_bind].
    rewrite Hsp, Hkind.
    rewrite (typeToSchema_mono U _ _ _ _ _ (Nat.le_max_r _ _) HE).
    cbn [mbind option_bind]. destruct (reflect.isUint8 _); eauto.
  - (* Map *)
    assert (Hlt : (rank (reflect.Elem U t0) < rank t0)%nat)
      by (apply (HR t0); now rewrite Hkind).
    destruct (IHk (rank (reflect.Elem U t0)) ltac:(lia) _ eq_refl r Hn)
      as (fuelE & es & r1 & HE).
    exists (S (Nat.max (rank t) fuelE)). rewrite Hstart by lia.
    cbn [typeToSchema]. rewrite Hself. cbn [mbind option_bind].
    rewrite Hsp, Hkind.
    rewrite (typeToSchema_mono U _ _ _ _ _ (Nat.le_max_r _ _) HE).
    cbn [mbind option_bind]. eauto.
  - (* Slice *)
    assert (Hlt : (rank (reflect.Elem U t0) < rank t0)%nat)
      by (apply (HR t0); now rewrite Hkind).
    destruct (IHk (rank (reflect.Elem U t0)) ltac:(lia) _ eq_refl r Hn)
      as (fuelE & es & r1 & HE).
    exists (S (Nat.max (rank t) fuelE)). rewrite Hstart by lia.
    cbn [typeToSchema]. rewrite Hself. cbn [mbind option_bind].
    rewrite Hsp, Hkind.
    rewrite (typeToSchema_mono U _ _ _ _ _ (Nat.le_max_r _ _) HE).
    cbn [mbind option_bind]. destruct (reflect.isUint8 _); eauto.
  - (* Struct *)
    assert (Hnp : reflect.isPtr (reflect.Kind U t0) = false)
      by now rewrite Hkind.
    assert (Hst : exists fuelS x, structToSchema (S fuelS) U t0 r = Some x).
    { destruct (Has (registeredName U t0) r || isSeen t0 r) eqn:Hor.
      - exists O. rewrite structToSchema_known by assumption. eauto.
      - apply orb_false_elim in Hor as [Hhas Hseen].
        assert (Hin : (t0 < length (reflect.types U))%nat)
          by (apply struct_in_table; now rewrite Hkind).
        pose proof (unseen_markSeen t0 r Hseen Hin) as Hm.
        destruct (HP t0 emptyObject (markSeen t0 r) ltac:(lia))
          as (fuelP & [s1 r1] & HPf).
        exists fuelP. rewrite structToSchema_fresh by assumption.
        rewrite HPf. cbn [mbind option_bind]. eauto. }
    destruct Hst as (fuelS & [s1 r1] & HS).
    exists (S (Nat.max (rank t) (S fuelS))), s1, r1. rewrite Hstart by lia.
    cbn [typeToSchema]. rewrite Hself. cbn [mbind option_bind].
    rewrite Hsp, Hkind.
    apply (structToSchema_mono U (S fuelS)); [lia|exact HS].
Qed.

(** On a ranked type graph [typeToSchema] returns, from any registry. *)
Theorem typeToSchema_terminates (t : reflect.rtype) (r : TypeRegistry) :
  exists fuel s r', typeToSchema fuel U t r = Some (s, r').
Proof.
  remember (unseen U r) as n eqn:Hn.
  assert (Hle : (unseen U r <= n)%nat) by lia. clear Hn.
  revert t r Hle. induction n as [n IHn] using lt_wf_ind. intros t r Hle.
  apply (level_type n); [|exact Hle].
  intros t' s' r' Hlt.
  apply (level_fields (unseen U r')); [|lia].
  intros r2 t2 Hle2. apply (IHn (unseen U r')); lia.
Qed.

(** On a ranked type graph every field loop returns. *)
Theorem processFields_terminates skip post req t s r :
  exists fuel x, processFields U skip post req fuel t s r = Some x.
Proof.
  apply (level_fields (unseen U r)); [|lia].
  intros r2 t2 _. apply typeToSchema_terminates.
Qed.

End Termination.

(** ** What a field loop puts into the object *)
Section LoopContents.
Context `{Float64Model} {cases : unicode.CaseRanges}.
Variable U : reflect.Types.
Variable skip : reflect.StructField -> bool.
Variable post : Schema.SchemaObject -> Schema.SchemaObject.
Variable req : bool.

Local Abbreviation State := (Schema.SchemaObject * TypeRegistry)%type.

(** A loop over [fs] emits the property name [k]. *)
Definition Emits (fs : list reflect.StructField) (k : string) : Prop :=
  exists g, Visits U fs g /\ skip g = false /\ EmittedAs g k.

Lemma EmbedsStruct_fun f e e' :
  EmbedsStruct U f e -> EmbedsStruct U f e' -> e = e'.
Proof. intros (_ & Hd & _) (_ & Hd' & _). eapply DerefsTo_fun; eauto. Qed.

Lemma Visits_cons_inv f fs g :
  Visits U (f :: fs) g ->
  (g = f /\ reflect.IsExported f = true /\ forall e, ~ EmbedsStruct U f e) \/
  (exists e, reflect.IsExported f = true /\ EmbedsStruct U f e /\
             Visits U (reflect.Fields U e) g) \/
  Visits U fs g.
Proof. inversion 1; subst; eauto 10. Qed.

Lemma Emits_nil k : ~ Emits [] k.
Proof. intros (g & Hv & _). inversion Hv. Qed.

Lemma Emits_unexported f fs k :
  reflect.IsExported f = false -> Emits (f :: fs) k <-> Emits fs k.
Proof.
  intros Hex. split; intros (g & Hv & Hg); exists g; (split; [|exact Hg]).
  - apply Visits_cons_inv in Hv as [(_ & Hx & _)|[(e & Hx & _)|Hv]];
      congruence.
  - now apply Visits_later.
Qed.

Lemma Emits_embedded f fs e k :
  reflect.IsExported f = true -> EmbedsStruct U f e ->
  Emits (f :: fs) k <-> Emits (reflect.Fields U e) k \/ Emits fs k.
Proof.
  intros Hex He. split.
  - intros (g & Hv & Hg).
    apply Visits_cons_inv in Hv as [(_ & _ & Hn)|[(e' & _ & He' & Hv)|Hv]].
    + exfalso. eapply Hn, He.
    + left. exists g. rewrite (EmbedsStruct_fun _ _ _ He He'). auto.
    + right. exists g. auto.
  - intros [(g & Hv & Hg)|(g & Hv & Hg)]; exists g; (split; [|exact Hg]).
    + eapply Visits_embedded; eauto.
    + now apply Visits_later.
Qed.

Lemma Emits_plain f fs k :
  reflect.IsExported f = true -> (forall e, ~ EmbedsStruct U f e) ->
  Emits (f :: fs) k <-> (skip f = false /\ EmittedAs f k) \/ Emits fs k.
Proof.
  intros Hex Hne. split.
  - intros (g & Hv & Hg).
    apply Visits_cons_inv in Hv as [(-> & _ & _)|[(e' & _ & He' & Hv)|Hv]].
    + now left.
    + exfalso. eapply Hne; eauto.
    + right. exists g. auto.
  - intros [Hf|(g & Hv & Hg)].
    + exists f. split; [now apply Visits_here|exact Hf].
    + exists g. split; [now apply Visits_later|exact Hg].
Qed.

(** The properties of the object after a loop, relative to before. *)
Definition Adds (fs : list reflect.StructField)
  (s s' : Schema.SchemaObject) : Prop :=
  (forall k, k ∈ dom (Schema.Properties s') <->
             k ∈ dom (Schema.Properties s) \/ Emits fs k) /\
  (req = false -> Schema.Required s' = Schema.Required s) /\
  (forall k v, Schema.Properties s' !! k = Some v ->
     Schema.Properties s !! k = Some v \/
     exists fuel t tags r r' v0,
       fieldToSchema fuel U t tags r = Some (v0, r') /\ v = post v0).

Lemma Adds_refl_nil s : Adds [] s s.
Proof.
  repeat split; auto.
  intros [Hk|Hk]; [exact Hk|]. exfalso. eapply Emits_nil, Hk.
Qed.

Lemma Adds_step f fs s s1 s' :
  (forall k, Emits (f :: fs) k <-> Emits [f] k \/ Emits fs k) ->
  Adds [f] s s1 -> Adds fs s1 s' -> Adds (f :: fs) s s'.
Proof.
  intros Hsplit (Hd1 & Hr1 & Hp1) (Hd2 & Hr2 & Hp2). repeat split.
  - rewrite Hd2, Hd1, Hsplit. tauto.
  - rewrite Hd2, Hd1, Hsplit. tauto.
  - intros Hreq. rewrite Hr2, Hr1; auto.
  - intros k v Hv. destruct (Hp2 k v Hv) as [Hv1|Hnew]; [|now right].
    apply Hp1, Hv1.
Qed.

Lemma Emits_split f fs k : Emits (f :: fs) k <-> Emits [f] k \/ Emits fs k.
Proof.
  split.
  - intros (g & Hv & Hg).
    apply Visits_cons_inv in Hv as [(-> & Hx & Hn)|[(e & Hx & He & Hv)|Hv]].
    + left. exists f. split; [now apply Visits_here|exact Hg].
    + left. exists g. split; [eapply Visits_embedded; eauto|exact Hg].
    + right. exists g. auto.
  - intros [(g & Hv & Hg)|(g & Hv & Hg)]; exists g; (split; [|exact Hg]).
    + apply Visits_cons_inv in Hv as [(-> & Hx & Hn)|[(e & Hx & He & Hv)|Hv]].
      * now apply Visits_here.
      * eapply Visits_embedded; eauto.
      * inversion Hv.
    + now apply Visits_later.
Qed.

Lemma Adds_same f s :
  (forall k, ~ Emits [f] k) -> Adds [f] s s.
Proof.
  intros Hno. repeat split; auto.
  intros [Hk|Hk]; [exact Hk|]. exfalso. eapply Hno, Hk.
Qed.

Lemma Adds_embedded f e s s1 :
  reflect.IsExported f = true -> EmbedsStruct U f e ->
  Adds (reflect.Fields U e) s s1 -> Adds [f] s s1.
Proof.
  intros Hex He (Hd & Hr & Hp). repeat split; auto.
  - rewrite Hd. intros [Hk|Hk]; [now left|right].
    apply (Emits_embedded f [] e k Hex He). now left.
  - rewrite Hd. intros [Hk|Hk]; [now left|].
    apply (Emits_embedded f [] e k Hex He) in Hk as [Hk|Hk]; [now right|].
    exfalso. eapply Emits_nil, Hk.
Qed.

(** The field loops add exactly what they emit. *)
Lemma processFields_Adds (fuel : nat) :
  forall t s r s' r',
    processFields U skip post req fuel t s r = Some (s', r') ->
    Adds (reflect.Fields U t) s s'.
Proof.
  induction fuel as [|fuel IH]; intros t s r s' r'; [discriminate|].
  cbn [processFields]. generalize (reflect.Fields U t) as fs.
  intros fs. revert s r.
  induction fs as [|f fs IHfs]; intros s r; cbn [forEachField].
  { intros [= <- <-]. apply Adds_refl_nil. }
  destruct (fieldStep U skip post req fuel _ _ f (s, r)) as [[s1 r1]|] eqn:Hstep;
    [|discriminate].
  intros Hrest. apply (Adds_step f fs s s1 s'); [apply Emits_split| |eauto].
  clear Hrest IHfs. unfold fieldStep in Hstep.
  destruct (reflect.IsExported f) eqn:Hex; cbn [negb] in Hstep.
  2:{ injection Hstep as <- <-. apply Adds_same. intros k Hk.
      apply (Emits_unexported f [] k Hex) in Hk. eapply Emits_nil, Hk. }
  destruct (embeddedStruct fuel U f) as [[e|]|] eqn:Hemb;
    cbn [mbind option_bind] in Hstep; [| |discriminate].
  { eapply Adds_embedded; [exact Hex|eapply embeddedStruct_sound, Hemb|].
    eapply IH, Hstep. }
  pose proof (embeddedStruct_none U _ _ Hemb) as Hne.
  assert (Hplain : forall k, Emits [f] k <-> skip f = false /\ EmittedAs f k).
  { intros k. rewrite (Emits_plain f [] k Hex Hne). split; [|tauto].
    intros [Hf|Hk]; [exact Hf|]. exfalso. eapply Emits_nil, Hk. }
  destruct (skip f) eqn:Hskip.
  { injection Hstep as <- <-. apply Adds_same. intros k Hk.
    apply Hplain in Hk as [? _]. discriminate. }
  destruct (fieldTags f) as [tagInfo|] eqn:Htags;
    cbn [mbind option_bind] in Hstep; [|discriminate].
  destruct (JSONSkip tagInfo || GORMSkip tagInfo || Hidden tagInfo) eqn:Hhid.
  { injection Hstep as <- <-. apply Adds_same. intros k Hk.
    apply Hplain in Hk as [_ (ti & Hti & Hh & _)].
    rewrite Htags in Hti. injection Hti as <-. congruence. }
  destruct (fieldToSchema fuel U (reflect.FieldType f) tagInfo r)
    as [[v0 r0]|] eqn:Hfs; cbn [mbind option_bind] in Hstep; [|discriminate].
  injection Hstep as <- <-.
  assert (Hk : forall k, Emits [f] k <-> k = propertyName tagInfo f).
  { intros k. rewrite Hplain. split.
    - intros [_ (ti & Hti & _ & Hn)]. rewrite Htags in Hti.
      injection Hti as <-. now symmetry.
    - intros ->. split; [reflexivity|]. exists tagInfo. auto. }
  repeat split.
  - intros Hin. rewrite Hk.
    destruct (req && Required tagInfo); cbn in Hin;
      rewrite dom_insert_L in Hin; set_solver.
  - intros Hin. rewrite Hk in Hin.
    destruct (req && Required tagInfo); cbn;
      rewrite dom_insert_L; set_solver.
  - intros ->. reflexivity.
  - intros k v Hv.
    assert (Hv' : <[propertyName tagInfo f := post v0]> (Schema.Properties s) !! k
                  = Some v)
      by (destruct (req && Required tagInfo); exact Hv).
    destruct (decide (propertyName tagInfo f = k)) as [<-|Hne'].
    + rewrite lookup_insert_eq in Hv'. injection Hv' as <-.
      right. eauto 10.
    + rewrite lookup_insert_ne in Hv' by exact Hne'. now left.
Qed.

End LoopContents.

(** * The claims *)
Local Close Scope Z_scope.

Section Claims.
Context `{Float64Model} {cases : unicode.CaseRanges}.

Local Abbreviation State := (Schema.SchemaObject * TypeRegistry)%type.

(** ** Unfolding the compiler at a type of known kind *)

Lemma typeToSchema_at (U : reflect.Types) (fuel : nat) (t : reflect.rtype)
  (r : TypeRegistry) :
  reflect.isPtr (reflect.Kind U t) = false ->
  specialTypeSchema U t = None ->
  typeToSchema (S fuel) U t r
  = match reflect.Kind U t with
    | reflect.Slice | reflect.Array =>
        '(elemSchema, registry) ← typeToSchema fuel U (reflect.Elem U t) r;
        if reflect.isUint8 (reflect.Kind U (reflect.Elem U t)) then
          Some (Schema.with_Format "byte"
                  (Schema.with_Type_ "string" Schema.zero), registry)
        else
          Some (Schema.with_Items (Some elemSchema)
                  (Schema.with_Type_ "array" Schema.zero), registry)
    | reflect.Map =>
        '(valSchema, registry) ← typeToSchema fuel U (reflect.Elem U t) r;
        Some (Schema.with_AdditionalProperties (Some valSchema)
                (Schema.with_Type_ "object" Schema.zero), registry)
    | reflect.Struct => structToSchema fuel U t r
    | _ => typeToSchema 1 U t r
    end.
Proof.
  intros Hk Hsp. cbn [typeToSchema].
  rewrite !(derefPtr_notPtr U _ _ Hk). cbn [mbind option_bind].
  rewrite Hsp. destruct (reflect.Kind U t); reflexivity.
Qed.

Lemma typeToSchema_struct (U : reflect.Types) (fuel : nat) (t : reflect.rtype)
  (r : TypeRegistry) :
  reflect.isStruct (reflect.Kind U t) = true ->
  specialTypeSchema U t = None ->
  typeToSchema (S fuel) U t r = structToSchema fuel U t r.
Proof.
  intros Hk Hsp.
  rewrite typeToSchema_at by (auto using isStruct_notPtr).
  destruct (reflect.Kind U t); try discriminate. reflexivity.
Qed.

Lemma fieldToSchema_fails (U : reflect.Types) (fuel : nat) t tags r :
  (forall fuel', typeToSchema fuel' U t r = None) ->
  fieldToSchema fuel U t tags r = None.
Proof.
  intros Hn. destruct fuel as [|fuel]; [reflexivity|].
  cbn [fieldToSchema]. now rewrite Hn.
Qed.

(** A plain field whose type does not compile stops the loop. *)
Lemma fieldStep_fails (U : reflect.Types) skip post req fuel pe f tagInfo
  (st : State) :
  reflect.IsExported f = true ->
  reflect.Anonymous f = false ->
  skip f = false ->
  fieldTags f = Some tagInfo ->
  JSONSkip tagInfo || GORMSkip tagInfo || Hidden tagInfo = false ->
  (forall fuel' r, typeToSchema fuel' U (reflect.FieldType f) r = None) ->
  fieldStep U skip post req fuel pe (fieldToSchema fuel U) f st = None.
Proof.
  intros Hex Han Hskip Htags Hhid Hn. unfold fieldStep. destruct st as [s r].
  rewrite Hex. cbn [negb]. unfold embeddedStruct. rewrite Han.
  cbn [mbind option_bind]. rewrite Hskip, Htags. cbn [mbind option_bind].
  rewrite Hhid, fieldToSchema_fails by auto. reflexivity.
Qed.

(** ** C1: cycles that do not pass through a named struct field *)

(** [type Tree map[string]Tree] never compiles: each call recurses into
    the element type, which is the type itself. *)
Lemma tree_never_compiles (fuel : nat) (r : TypeRegistry) :
  typeToSchema fuel Examples.treeTypes 8 r = None.
Proof.
  revert r. induction fuel as [|fuel IH]; intros r; [reflexivity|].
  rewrite typeToSchema_at by reflexivity.
  change (reflect.Kind Examples.treeTypes 8) with reflect.Map.
  change (reflect.Elem Examples.treeTypes 8) with 8%nat.
  now rewrite IH.
Qed.

Lemma tree_document_never_compiles (fuel : nat) :
  typeToSchema fuel Examples.treeTypes 9 newTypeRegistry = None.
Proof.
  destruct fuel as [|fuel]; [reflexivity|].
  rewrite typeToSchema_struct by reflexivity.
  destruct fuel as [|fuel]; [reflexivity|].
  rewrite structToSchema_fresh by reflexivity.
  destruct fuel as [|fuel]; [reflexivity|].
  cbn [processFields].
  change (reflect.Fields Examples.treeTypes 9)
    with [Examples.field "Meta" 8 [("json", "meta")]].
  cbn [forEachField].
  destruct (fieldTags (Examples.field "Meta" 8 [("json", "meta")]))
    as [tagInfo|] eqn:Htags; [|vm_compute in Htags; discriminate].
  erewrite fieldStep_fails; [reflexivity| | | |exact Htags| |];
    try reflexivity.
  - vm_compute in Htags. injection Htags as <-. reflexivity.
  - intros fuel' r. apply tree_never_compiles.
Qed.

(** [type Node struct { *Node; ... }]: flattening the embedded pointer
    re-enters the same struct without consulting the registry. *)
Lemma self_embedding_never_flattens (fuel : nat) skip post req s r :
  processFields Examples.selfEmbedTypes skip post req fuel 8 s r = None.
Proof.
  revert s r. induction fuel as [|fuel IH]; intros s r; [reflexivity|].
  cbn [processFields].
  change (reflect.Fields Examples.selfEmbedTypes 8)
    with [Examples.embedded "Node" 9; Examples.field "Label" 2 [("json", "label")]].
  cbn [forEachField]. unfold fieldStep at 1.
  change (reflect.IsExported (Examples.embedded "Node" 9)) with true.
  cbn [negb].
  destruct fuel as [|fuel]; [reflexivity|].
  assert (He : embeddedStruct (S fuel) Examples.selfEmbedTypes
                 (Examples.embedded "Node" 9) = Some (Some 8)).
  { unfold embeddedStruct.
    change (reflect.Anonymous (Examples.embedded "Node" 9)) with true.
    change (reflect.FieldType (Examples.embedded "Node" 9)) with 9.
    cbn [derefPtr].
    change (reflect.isPtr (reflect.Kind Examples.selfEmbedTypes 9)) with true.
    change (reflect.Elem Examples.selfEmbedTypes 9) with 8.
    cbv iota. rewrite derefPtr_notPtr by reflexivity. reflexivity. }
  rewrite He. cbn [mbind option_bind]. now rewrite IH.
Qed.

Lemma self_embedding_never_compiles (fuel : nat) :
  typeToSchema fuel Examples.selfEmbedTypes 8 newTypeRegistry = None.
Proof.
  destruct fuel as [|fuel]; [reflexivity|].
  rewrite typeToSchema_struct by reflexivity.
  destruct fuel as [|fuel]; [reflexivity|].
  rewrite structToSchema_fresh by reflexivity.
  now rewrite self_embedding_never_flattens.
Qed.

(** C1 (the code departs from the claim).  Compilation of a root struct
    does not terminate on every self-referential type graph: the seen set
    is consulted only when a struct is reached as a field type.  For the
    root struct [Doc] with a field of the recursive map type
    [type Tree map[string]Tree], and for the root struct
    [type Node struct { *Node; ... }] that embeds a pointer to itself,
    [typeToSchema] returns no result whatever fuel it is given. *)
Theorem C1_cycle_outside_struct_fields_diverges :
  forall fuel : nat,
    typeToSchema fuel Examples.treeTypes 9 newTypeRegistry = None /\
    typeToSchema fuel Examples.selfEmbedTypes 8 newTypeRegistry = None.
Proof.
  intros fuel. split.
  - apply tree_document_never_compiles.
  - apply self_embedding_never_compiles.
Qed.

(** ** C2, C3, C10: one registry entry per name *)

(** A struct that is not being processed is registered when its
    compilation returns. *)
Lemma structToSchema_registers (U : reflect.Types) (fuel : nat) t r s r' :
  reflect.isPtr (reflect.Kind U t) = false ->
  isSeen t r = false ->
  structToSchema fuel U t r = Some (s, r') ->
  s = SchemaRef (registeredName U t) /\
  Has (registeredName U t) r' = true.
Proof.
  intros Hk Hseen. destruct fuel as [|fuel]; [discriminate|].
  destruct (Has (registeredName U t) r) eqn:Hhas.
  - rewrite structToSchema_known by (auto; now rewrite Hhas).
    intros [= <- <-]. auto.
  - rewrite structToSchema_fresh by assumption.
    destruct (processFields U keepAll unchanged true fuel t emptyObject _)
      as [[s1 r1]|]; cbn [mbind option_bind]; [|discriminate].
    intros [= <- <-]. split; [reflexivity|]. apply Has_Register.
Qed.

(** A struct whose name is registered compiles to the reference to that
    name, and the registry is left as it was. *)
Lemma registered_struct_is_ref (U : reflect.Types) (fuel : nat) t r :
  reflect.isStruct (reflect.Kind U t) = true ->
  specialTypeSchema U t = None ->
  Has (registeredName U t) r = true ->
  typeToSchema (S (S fuel)) U t r = Some (SchemaRef (registeredName U t), r) /\
  structToSchema (S fuel) U t r = Some (SchemaRef (registeredName U t), r).
Proof.
  intros Hk Hsp Hhas.
  rewrite typeToSchema_struct by assumption.
  rewrite structToSchema_known
    by (auto using isStruct_notPtr; now rewrite Hhas).
  auto.
Qed.

(** C2.  A struct type is compiled at most once per registry.  When the
    first compilation of a struct that is not in progress returns, the
    result is the reference to its registered name and the registry holds
    one schema under that name; from then on, in every registry that
    still has the schemas of that one, [typeToSchema] and
    [structToSchema] return the same reference and leave the registry
    unchanged (no field is walked, no schema body is built). *)
Theorem C2_struct_compiled_at_most_once :
  forall (U : reflect.Types) (fuel : nat) (t : reflect.rtype)
         (r r' : TypeRegistry) (s : Schema.SchemaObject),
    reflect.isStruct (reflect.Kind U t) = true ->
    specialTypeSchema U t = None ->
    isSeen t r = false ->
    typeToSchema fuel U t r = Some (s, r') ->
    s = SchemaRef (registeredName U t) /\
    (exists schema, Get (registeredName U t) r' = Some schema /\
       forall schema', Get (registeredName U t) r' = Some schema' ->
                       schema' = schema) /\
    forall r2 fuel2,
      dom (schemas r') ⊆ dom (schemas r2) ->
      typeToSchema (S (S fuel2)) U t r2
      = Some (SchemaRef (registeredName U t), r2) /\
      structToSchema (S fuel2) U t r2
      = Some (SchemaRef (registeredName U t), r2).
Proof.
  intros U fuel t r r' s Hk Hsp Hseen Hc.
  destruct fuel as [|fuel]; [discriminate|].
  rewrite typeToSchema_struct in Hc by assumption.
  destruct (structToSchema_registers U _ _ _ _ _
              (isStruct_notPtr _ Hk) Hseen Hc) as [-> Hhas].
  split; [reflexivity|]. split.
  - unfold Has in Hhas. unfold Get.
    destruct (schemas r' !! registeredName U t) as [schema|];
      [|discriminate].
    exists schema. split; [reflexivity|]. now intros schema' [= <-].
  - intros r2 fuel2 Hsub. apply registered_struct_is_ref; auto.
    apply Has_dom. apply Has_dom in Hhas. set_solver.
Qed.

(** C3 (amended).  The registered name of a struct is its bare type name
    and does not depend on the defining package.  Take two struct types
    with the same bare name, neither of them a special type ([time.Time]
    or an implementation of [encoding.TextMarshaler], which are described
    inline and never registered).  When the first one is not in progress
    and its compilation against a registry returns, it returns the
    reference to the bare name and the bare name is registered; compiling
    the second one against the resulting registry then returns the
    reference to that same name and leaves the registry unchanged. *)
Theorem C3_same_bare_name_shares_entry :
  forall (U : reflect.Types) (fuel : nat) (a b : reflect.rtype)
         (r r1 : TypeRegistry) (s : Schema.SchemaObject),
    reflect.isStruct (reflect.Kind U a) = true ->
    reflect.isStruct (reflect.Kind U b) = true ->
    specialTypeSchema U a = None ->
    specialTypeSchema U b = None ->
    reflect.Name U a = reflect.Name U b ->
    isSeen a r = false ->
    typeToSchema fuel U a r = Some (s, r1) ->
    registeredName U b = registeredName U a /\
    s = SchemaRef (registeredName U a) /\
    Has (registeredName U a) r1 = true /\
    forall fuel2,
      typeToSchema (S (S fuel2)) U b r1
      = Some (SchemaRef (registeredName U a), r1).
Proof.
  intros U fuel a b r r1 s Ha Hb Hspa Hspb Hname Hseen Hc.
  assert (Hreg : registeredName U b = registeredName U a)
    by (unfold registeredName; now rewrite Hname).
  destruct fuel as [|fuel]; [discriminate|].
  rewrite typeToSchema_struct in Hc by assumption.
  destruct (structToSchema_registers U _ _ _ _ _
              (isStruct_notPtr _ Ha) Hseen Hc) as [-> Hhas].
  repeat split; auto.
  intros fuel2. rewrite <- Hreg.
  apply registered_struct_is_ref; auto. now rewrite Hreg.
Qed.


(** ** C9: pointers are dereferenced before compilation *)

Lemma typeToSchema_same_target (U : reflect.Types) (fuel : nat)
  (p t t0 : reflect.rtype) (r : TypeRegistry) :
  derefPtr fuel U p = Some t0 -> derefPtr fuel U t = Some t0 ->
  typeToSchema (S fuel) U p r = typeToSchema (S fuel) U t r.
Proof. intros Hp Ht. cbn [typeToSchema]. now rewrite Hp, Ht. Qed.

(** C9.  Compiling a pointer type, at any depth of indirection, is
    compiling the type it points to: whenever one of the two calls
    returns, the other returns the same schema and the same registry
    (the pointer needs one unit of fuel more per level), and both types
    have the same schema name. *)
Theorem C9_pointer_compiles_as_pointee :
  forall (U : reflect.Types) (n : nat) (p t : reflect.rtype),
    PointerTo U n p t ->
    (forall fuel r x,
       typeToSchema fuel U p r = Some x -> typeToSchema fuel U t r = Some x) /\
    (forall fuel r x,
       typeToSchema fuel U t r = Some x ->
       typeToSchema (n + fuel) U p r = Some x) /\
    (forall fuel name,
       schemaName fuel U p = Some name -> schemaName fuel U t = Some name) /\
    (forall fuel name,
       schemaName fuel U t = Some name ->
       schemaName (n + fuel) U p = Some name).
Proof.
  intros U n p t Hpt. repeat split.
  - intros fuel r x. destruct fuel as [|fuel]; [discriminate|]. intros Hc.
    destruct (derefPtr fuel U p) as [t0|] eqn:Hd;
      [|cbn [typeToSchema] in Hc; rewrite Hd in Hc; discriminate].
    rewrite <- (typeToSchema_same_target U fuel p t t0 r Hd); [exact Hc|].
    eapply derefPtr_PointerTo; eauto.
  - intros fuel r x. destruct fuel as [|fuel]; [discriminate|]. intros Hc.
    destruct (derefPtr fuel U t) as [t0|] eqn:Hd;
      [|cbn [typeToSchema] in Hc; rewrite Hd in Hc; discriminate].
    rewrite Nat.add_succ_r.
    rewrite (typeToSchema_same_target U (n + fuel) p t t0 r).
    + apply (typeToSchema_mono U (S fuel)); [lia|exact Hc].
    + now rewrite (PointerTo_derefPtr U n fuel p t Hpt).
    + apply (derefPtr_mono U fuel); [lia|exact Hd].
  - intros fuel name. rewrite !schemaName_derefPtr.
    destruct (derefPtr fuel U p) as [t0|] eqn:Hd; [|discriminate].
    now rewrite (derefPtr_PointerTo U n fuel p t t0 Hpt Hd).
  - intros fuel name. rewrite !schemaName_derefPtr.
    now rewrite (PointerTo_derefPtr U n fuel p t Hpt).
Qed.

(** ** C4, C5, C8: the merged directive *)

(** C4.  Whenever the docs tag yields a format, the merged format is that
    format, and whenever it yields an enum, the merged enum is that enum,
    whatever the binding tag says.  In particular a binding tag [email]
    with a docs tag [format:uri] merges to the format [uri]. *)
Theorem C4_docs_format_and_enum_win :
  forall j b g d : string,
    exists info,
      mergeTags j b g d = Some info /\
      (DocsFormat (parseDocsTag d) <> EmptyString ->
       Format info = DocsFormat (parseDocsTag d)) /\
      (DocsEnum (parseDocsTag d) <> [] ->
       Enum info = DocsEnum (parseDocsTag d)) /\
      (Format (parseBindingTag "email") = "email" /\
       (d = "format:uri" -> Format info = "uri")).
Proof.
  intros j b g d. destruct (mergeTags_total j b g d) as (info & Hm).
  exists info. split; [exact Hm|].
  destruct (mergeTags_fields _ _ _ _ _ Hm) as (_ & _ & _ & _ & _ & Hf & He).
  repeat split.
  - intros Hne. rewrite Hf.
    destruct (String.eqb_spec (DocsFormat (parseDocsTag d)) "");
      [contradiction|reflexivity].
  - intros Hne. rewrite He. destruct (DocsEnum (parseDocsTag d));
      [contradiction|reflexivity].
  - intros ->. rewrite Hf. reflexivity.
Qed.

(** C5.  On a field compiled to a string schema, [maxLength] is the
    binding bound when the binding tag sets one, and the GORM size
    otherwise: the size fills the gap and never replaces the binding
    bound. *)
Theorem C5_gorm_size_fills_max_length :
  forall (U : reflect.Types) (fuel : nat) (t : reflect.rtype)
         (j b g d : string) (tags : TagInfo) (r r' : TypeRegistry)
         (s : Schema.SchemaObject),
    mergeTags j b g d = Some tags ->
    fieldToSchema fuel U t tags r = Some (s, r') ->
    Schema.Type_ s = "string" ->
    Schema.MaxLength s
    = match MaxLength (parseBindingTag b) with
      | Some m => Some m
      | None => GORMSize (parseGORMTag g)
      end.
Proof.
  intros U fuel t j b g d tags r r' s Hm Hf Hty.
  destruct (mergeTags_fields _ _ _ _ _ Hm) as (Hmax & Hsize & _).
  rewrite <- Hmax, <- Hsize.
  destruct (fieldToSchema_cases U _ _ _ _ _ _ Hf)
    as (fuel' & base & _ & Hb & [(Hr & ->)|[(Hr & ->)|(_ & _ & Hty' & _)]]).
  - apply applyTagConstraints_MaxLength.
    destruct (applyTagConstraints_frame base tags) as (_ & <- & _).
    exact Hty.
  - destruct (typeToSchema_shape U _ _ _ _ _ Hb) as [_ [Hr'|(t0 & _ & _ & _ & ->)]];
      [contradiction|discriminate].
  - rewrite Hty' in Hty. discriminate.
Qed.

(** C8 (amended).  Parsing never fails: the only indexing, in
    [parseJSONTag], is within bounds, so [mergeTags] always returns a
    directive.  A binding clause [min=], [max=], [len=], [gte=], [gt=],
    [lte=] or [lt=] and a GORM clause [size:] whose value does not parse
    leave the directive as it was, so each of [parseBindingTag] and
    [parseGORMTag] returns what the remaining clauses of the tag
    produce.  A binding clause [oneof=] with no value yields the empty
    enum. *)
Theorem C8_unparseable_bounds_are_dropped :
  (forall tag, exists x, parseJSONTag tag = Some x) /\
  (forall j b g d, exists info, mergeTags j b g d = Some info) /\
  (forall tag,
     parseBindingTag tag =
     if String.eqb tag "-" then with_BindingSkip true zeroTagInfo
     else fold_left bindingClause
            (List.filter (fun part => negb (unparseableBound part))
                         (Split tag ","))
            zeroTagInfo) /\
  (forall tag,
     parseGORMTag tag =
     if String.eqb tag "-" || String.eqb tag "-:all"
     then with_GORMSkip true zeroTagInfo
     else fold_left gormClause
            (List.filter (fun part => negb (unparseableSize part))
                         (Split tag ";"))
            zeroTagInfo) /\
  (forall info, Enum (bindingClause info "oneof=") = []).
Proof.
  split; [|split; [|split; [|split]]].
  - intros tag. destruct (parseJSONTag_total tag) as (n & o & k & ->). eauto.
  - apply mergeTags_total.
  - apply parseBindingTag_drops.
  - apply parseGORMTag_drops.
  - reflexivity.
Qed.

(** ** C6, C7: the create and update variants *)






(** C7 (the code departs from the claim).  The update variant is not
    generated for every struct type: for the struct
    [type Node struct { *Node; Label string }], which embeds a pointer to
    itself, [generateUpdateVariant] returns no result whatever fuel it is
    given and whatever the registry holds.  The loop flattens the
    embedded struct by calling [processUpdateFields] on it, which meets
    the same embedded field again; the set of types in progress, which
    [structToSchema] consults, is never consulted on this path. *)
Theorem C7_update_variant_diverges_on_self_embedding :
  forall (fuel : nat) (r : TypeRegistry),
    generateUpdateVariant fuel Examples.selfEmbedTypes 8 r = None.
Proof.
  intros fuel r. rewrite generateUpdateVariant_generic.
  apply self_embedding_never_flattens.
Qed.

(** ** Deciding that a type table is ranked *)

Lemma outside_table (U : reflect.Types) (t : reflect.rtype) :
  (length (reflect.types U) <= t)%nat ->
  reflect.Kind U t = reflect.Invalid /\ reflect.Fields U t = [].
Proof.
  intros Hge. unfold reflect.Kind, reflect.Fields, reflect.info.
  destruct (reflect.types U !! t) eqn:E; [|auto].
  apply lookup_lt_Some in E. lia.
Qed.

Lemma rankedb_sound (U : reflect.Types) (rank : reflect.rtype -> nat) :
  rankedb U rank = true -> Ranked U rank.
Proof.
  unfold rankedb. intros Hb t.
  destruct (Nat.lt_ge_cases t (length (reflect.types U))) as [Hlt|Hge].
  - rewrite forallb_forall in Hb.
    specialize (Hb t ltac:(apply in_seq; lia)).
    apply andb_prop in Hb as [He Hf]. split.
    + intros Hk. rewrite Hk in He. now apply Nat.ltb_lt.
    + intros f e Hin Hex Hemb. rewrite forallb_forall in Hf.
      specialize (Hf f Hin). rewrite Hex in Hf.
      destruct (embeddedStruct _ U f) as [[e'|]|] eqn:Hes.
      * apply embeddedStruct_sound in Hes.
        rewrite (EmbedsStruct_fun U _ _ _ Hemb Hes). now apply Nat.ltb_lt.
      * exfalso. eapply embeddedStruct_none; eauto.
      * discriminate.
  - destruct (outside_table U t Hge) as [Hk Hf]. rewrite Hk, Hf. split.
    + discriminate.
    + intros f e [].
Qed.

End Claims.
(** * Further properties *)

(** ** Splitting and joining *)
Section SplitFacts.

(** [strings.Join(elems, sep)] for a one-byte separator. *)
Fixpoint Join (elems : list string) (sep : ascii) : string :=
  match elems with
  | [] => EmptyString
  | e :: rest =>
      match rest with
      | [] => e
      | _ :: _ => String.append e (String sep (Join rest sep))
      end
  end.

Lemma Contains_byte_cons (c sep : ascii) (s : string) :
  Contains (String c s) (String sep EmptyString)
  = Ascii.eqb c sep || Contains s (String sep EmptyString).
Proof. cbn [Contains HasPrefix]. destruct s; now rewrite ?andb_true_r. Qed.

Lemma Contains_byte_nil (sep : ascii) :
  Contains EmptyString (String sep EmptyString) = false.
Proof. reflexivity. Qed.

(** No piece of a split contains the separator. *)
Lemma Split_parts_no_sep (s : string) (sep : ascii) (p : string) :
  In p (Split s sep) -> Contains p (String sep EmptyString) = false.
Proof.
  revert p. induction s as [|c s IH]; intros p; cbn [Split].
  - intros [<-|[]]. reflexivity.
  - destruct (Ascii.eqb c sep) eqn:Ec.
    + intros [<-|Hin]; [reflexivity|now apply IH].
    + destruct (Split s sep) as [|q qs] eqn:E.
      * intros [<-|[]]. now rewrite Contains_byte_cons, Ec.
      * intros [<-|Hin].
        -- rewrite Contains_byte_cons, Ec. apply IH. now left.
        -- apply IH. now right.
Qed.

(** Joining the pieces of a split gives the string back. *)
Lemma Join_Split (s : string) (sep : ascii) : Join (Split s sep) sep = s.
Proof.
  induction s as [|c s IH]; cbn [Split]; [reflexivity|].
  destruct (Ascii.eqb_spec c sep) as [->|Hc].
  - cbn [Join]. destruct (Split s sep) as [|q qs] eqn:E;
      [now destruct (Split_nonempty s sep)|].
    rewrite IH. now rewrite append_nil_l.
  - destruct (Split s sep) as [|q qs] eqn:E;
      [now destruct (Split_nonempty s sep)|].
    cbn [Join] in *. destruct qs as [|q' qs'].
    + now rewrite IH.
    + rewrite append_cons. now rewrite IH.
Qed.

Lemma Split_single (s : string) (sep : ascii) (q : string) :
  Split s sep = [q] -> q = s /\ Contains s (String sep EmptyString) = false.
Proof.
  intros E. pose proof (Join_Split s sep) as J. rewrite E in J. cbn in J.
  subst q. split; [reflexivity|].
  apply (Split_parts_no_sep s sep). rewrite E. now left.
Qed.

Lemma HasPrefix_inv (s p : string) :
  HasPrefix s p = true ->
  s = String.append p (drop_string (String.length p) s).
Proof.
  revert s. induction p as [|c p IH]; intros s; [reflexivity|].
  destruct s as [|d s]; cbn [HasPrefix]; [discriminate|].
  intros Hp. apply andb_prop in Hp as [Hc Hp].
  apply Ascii.eqb_eq in Hc as ->.
  rewrite append_cons. cbn [String.length drop_string]. f_equal. now apply IH.
Qed.

Lemma Contains_Substring (s sub : string) :
  Contains s sub = true -> Substring sub s.
Proof.
  induction s as [|c s IH]; cbn [Contains].
  - rewrite orb_false_r. intros Hp. apply HasPrefix_inv in Hp.
    exists EmptyString, (drop_string (String.length sub) EmptyString).
    now rewrite append_nil_l.
  - intros Hp. apply orb_prop in Hp as [Hp|Hp].
    + apply HasPrefix_inv in Hp.
      exists EmptyString, (drop_string (String.length sub) (String c s)).
      now rewrite append_nil_l.
    + apply Substring_cons. now apply IH.
Qed.

(** A string without an occurrence of [x] has no substring with one. *)
Lemma Substring_free (a b x : string) :
  Substring a b -> Contains b x = false -> Contains a x = false.
Proof.
  intros Hab Hb. destruct (Contains a x) eqn:Ha; [|reflexivity].
  apply Contains_Substring in Ha.
  pose proof (Substring_Contains _ _ (Substring_trans _ _ _ Ha Hab)) as Hc.
  congruence.
Qed.

Lemma TrimPrefix_Substring (s p : string) : Substring (TrimPrefix s p) s.
Proof.
  unfold TrimPrefix. destruct (HasPrefix s p) eqn:Hp; [|apply Substring_refl].
  apply HasPrefix_inv in Hp. exists p, EmptyString.
  now rewrite append_nil_r.
Qed.

Lemma lastPart_cons (p : string) (ps : list string) :
  lastPart (p :: ps) = match ps with [] => Some p | _ :: _ => lastPart ps end.
Proof. unfold lastPart. cbn [List.map List.last]. now destruct ps. Qed.

Lemma lastPart_Some (parts : list string) :
  parts <> [] -> exists l, lastPart parts = Some l /\ In l parts.
Proof.
  induction parts as [|p ps IH]; [congruence|]. intros _.
  rewrite lastPart_cons. destruct ps as [|q qs].
  - exists p. split; [reflexivity|now left].
  - destruct IH as (l & E & Hin); [congruence|].
    exists l. split; [exact E|now right].
Qed.

(** The last piece of a split is a suffix. *)
Lemma Split_last_suffix (s : string) (sep : ascii) (l : string) :
  lastPart (Split s sep) = Some l -> exists pre, s = String.append pre l.
Proof.
  revert l. induction s as [|c s IH]; intros l; cbn [Split].
  - intros [= <-]. now exists EmptyString.
  - destruct (Ascii.eqb c sep).
    + rewrite lastPart_cons.
      destruct (Split s sep) as [|q qs] eqn:E;
        [now destruct (Split_nonempty s sep)|].
      intros Hl. destruct (IH _ Hl) as (pre & ->).
      exists (String c pre). now rewrite append_cons.
    + destruct (Split s sep) as [|q qs] eqn:E;
        [now destruct (Split_nonempty s sep)|].
      rewrite lastPart_cons. destruct qs as [|q' qs'].
      * intros [= <-]. apply Split_single in E as [-> _].
        exists EmptyString. now rewrite append_nil_l.
      * intros Hl. rewrite lastPart_cons in IH.
        destruct (IH _ Hl) as (pre & ->).
        exists (String c pre). now rewrite append_cons.
Qed.

End SplitFacts.

(** ** Handler names and tag directives *)
Section TagExtras.
Context `{Float64Model} {cases : unicode.CaseRanges}.

Lemma more_than_one {A : Type} (x y : A) (l : list A) :
  (1 <? Z.of_nat (length (x :: y :: l)))%Z = true.
Proof. apply Z.ltb_lt. cbn [length]. lia. Qed.

(** X1.  [handlerFuncName] and [handlerPackageName] never index out of
    range, whatever the handler name.  The function name is a suffix of
    the handler name, the package name occurs in it, and neither contains
    a slash or a dot: the path and the receiver/closure qualifiers are
    cut off. *)
Theorem handler_names_are_clean :
  forall handlerName : string,
    exists f p,
      handlerFuncName handlerName = Some f /\
      handlerPackageName handlerName = Some p /\
      Contains f "/" = false /\ Contains f "." = false /\
      Contains p "/" = false /\ Contains p "." = false /\
      (exists pre, handlerName = String.append pre f) /\
      Substring p handlerName.
Proof.
  intros n.
  destruct (lastPart_Some (Split n "/")) as (last & El & Hin);
    [apply Split_nonempty|].
  pose proof (Split_parts_no_sep _ _ _ Hin) as Hslash.
  pose proof (Split_Substring _ _ _ Hin) as Hsub.
  destruct (Split_last_suffix _ _ _ El) as (pre & Hpre).
  unfold handlerFuncName, handlerPackageName. cbv zeta. rewrite El.
  cbn [mbind option_bind].
  destruct (Split last ".") as [|d ds] eqn:Ed;
    [now destruct (Split_nonempty last ".")|].
  destruct ds as [|d' ds'].
  - apply Split_single in Ed as [-> Hdot].
    change (1 <? Z.of_nat (length [last]))%Z with false. cbv iota.
    exists last, last. repeat split; auto. now exists pre.
  - rewrite more_than_one.
    destruct (lastPart_Some (d :: d' :: ds')) as (f & Ef & Hf); [congruence|].
    rewrite Ef. cbn [List.head]. exists f, d.
    assert (Hd : In d (Split last ".")) by (rewrite Ed; now left).
    rewrite <- Ed in Hf, Ef.
    pose proof (Split_Substring _ _ _ Hf) as Hfs.
    pose proof (Split_Substring _ _ _ Hd) as Hds.
    split; [reflexivity|]. split; [reflexivity|].
    split; [exact (Substring_free _ _ _ Hfs Hslash)|].
    split; [exact (Split_parts_no_sep _ _ _ Hf)|].
    split; [exact (Substring_free _ _ _ Hds Hslash)|].
    split; [exact (Split_parts_no_sep _ _ _ Hd)|].
    split; [|exact (Substring_trans _ _ _ Hds Hsub)].
    destruct (Split_last_suffix _ _ _ Ef) as (pre' & Hpre').
    exists (String.append pre pre'). rewrite append_assoc.
    now rewrite <- Hpre', <- Hpre.
Qed.

Lemma omitEmpty_fold (opts : list string) (b : bool) :
  fold_left (fun omitEmpty opt =>
               if String.eqb opt "omitempty" then true else omitEmpty)
            opts b
  = b || existsb (fun opt => String.eqb opt "omitempty") opts.
Proof.
  revert b. induction opts as [|o opts IH]; intros b; cbn [fold_left existsb].
  - now rewrite orb_false_r.
  - rewrite IH. destruct (String.eqb o "omitempty"), b; reflexivity.
Qed.

(** X2.  [parseJSONTag] never fails.  The field is skipped exactly when
    the tag is ["-"]; otherwise the name is the first comma-separated
    piece of the tag (so it contains no comma and the tag is the name,
    or the name followed by a comma and the options), and [omitempty] is
    set exactly when one of the later pieces is ["omitempty"]. *)
Theorem parseJSONTag_name_and_options :
  forall tag : string,
    exists name omitEmpty,
      parseJSONTag tag = Some (name, omitEmpty, String.eqb tag "-") /\
      (tag <> "-" ->
       Contains name "," = false /\
       (exists opts, Split tag "," = name :: opts /\
                     (omitEmpty = true <-> In "omitempty" opts)) /\
       (tag = name \/
        exists rest, tag = String.append name (String.append "," rest))).
Proof.
  intros tag. unfold parseJSONTag.
  destruct (String.eqb_spec tag "") as [->|Hne].
  - exists "", false. split; [reflexivity|]. intros _.
    split; [reflexivity|]. split; [|now left].
    exists []. split; [reflexivity|]. split; [discriminate|intros []].
  - destruct (String.eqb_spec tag "-") as [->|Hd].
    + exists "", false. split; [reflexivity|]. congruence.
    + cbv zeta. pose proof (Join_Split tag ",") as J.
      destruct (Split tag ",") as [|name opts] eqn:E;
        [now destruct (Split_nonempty tag ",")|].
      eexists name, _. split; [reflexivity|]. intros _.
      split; [apply (Split_parts_no_sep tag ","); rewrite E; now left|].
      split.
      * exists opts. split; [reflexivity|]. rewrite omitEmpty_fold.
        cbn [orb]. rewrite existsb_exists. split.
        -- intros (x & Hin & Hx). apply String.eqb_eq in Hx. now subst.
        -- intros Hin. exists "omitempty". split; [exact Hin|reflexivity].
      * cbn [Join] in J. destruct opts as [|o opts']; [now left|].
        right. exists (Join (o :: opts') ","). now rewrite <- J.
Qed.

(** A flag that a clause raises on a word is raised by the fold exactly
    when some clause is that word. *)
Lemma fold_left_flag (step : TagInfo -> string -> TagInfo)
  (flag : TagInfo -> bool) (word : string -> bool)
  (parts : list string) (info : TagInfo) :
  (forall info part, flag (step info part) = flag info || word part) ->
  flag (fold_left step parts info) = flag info || existsb word parts.
Proof.
  intros Hstep. revert info.
  induction parts as [|p parts IH]; intros info; cbn [fold_left existsb].
  - now rewrite orb_false_r.
  - now rewrite IH, Hstep, orb_assoc.
Qed.

Lemma bindingClause_Required (info : TagInfo) (part : string) :
  Required (bindingClause info part)
  = Required info || String.eqb (TrimSpace part) "required".
Proof.
  unfold bindingClause.
  generalize (TrimSpace part) as p. clear part. cbv zeta. intros p.
  destruct (String.eqb p "required"); [cbn; now rewrite orb_true_r|].
  rewrite orb_false_r.
  repeat match goal with
         | |- context [if ?b then _ else _] => destruct b
         | |- context [match ?o with Some _ => _ | None => _ end] => destruct o
         end; reflexivity.
Qed.

(** X3.  [parseBindingTag] marks the field required exactly when one of
    the comma-separated clauses of the tag is the word [required] once
    [strings.TrimSpace] has been applied to it.  The comparison is an
    equality of strings: a clause that only contains the word, or
    spells it in another letter case, does not count. *)
Theorem binding_required_iff_clause :
  forall tag : string,
    Required (parseBindingTag tag) = true <->
    exists part, In part (Split tag ",") /\ TrimSpace part = "required".
Proof.
  intros tag.
  assert (E : Required (parseBindingTag tag)
              = existsb (fun part => String.eqb (TrimSpace part) "required")
                        (Split tag ",")).
  { unfold parseBindingTag. cbv zeta.
    destruct (String.eqb_spec tag "") as [->|_]; [reflexivity|].
    destruct (String.eqb_spec tag "-") as [->|_]; [reflexivity|].
    cbn [orb]. rewrite (fold_left_flag bindingClause Required
               (fun part => String.eqb (TrimSpace part) "required")).
    - reflexivity.
    - apply bindingClause_Required. }
  rewrite E, existsb_exists. split.
  - intros (x & Hin & Hx). exists x. split; [exact Hin|].
    now apply String.eqb_eq.
  - intros (x & Hin & Hx). exists x. split; [exact Hin|].
    now apply String.eqb_eq.
Qed.

(** X4.  [parseGORMTag] raises the primary-key flag exactly when one of
    the semicolon-separated clauses of the tag, after
    [strings.TrimSpace] and then [strings.ToLower] have been applied to
    it, is the word [primarykey] or [primary_key], and the
    auto-timestamp flags exactly when one of them is then the word
    [autocreatetime], respectively [autoupdatetime]. *)
Theorem gorm_flags_iff_clause :
  forall tag : string,
    let clauseIs (w : string) :=
      exists part, In part (Split tag ";") /\ ToLower (TrimSpace part) = w in
    (PrimaryKey (parseGORMTag tag) = true <->
     clauseIs "primarykey" \/ clauseIs "primary_key") /\
    (AutoCreateTime (parseGORMTag tag) = true <-> clauseIs "autocreatetime") /\
    (AutoUpdateTime (parseGORMTag tag) = true <-> clauseIs "autoupdatetime").
Proof.
  intros tag clauseIs.
  assert (E : forall (flag : TagInfo -> bool) (word : string -> bool),
             flag zeroTagInfo = false ->
             flag (with_GORMSkip true zeroTagInfo) = false ->
             word "" = false -> word "-" = false -> word "-:all" = false ->
             (forall info part,
                flag (gormClause info part)
                = flag info || word (ToLower (TrimSpace part))) ->
             flag (parseGORMTag tag)
             = existsb (fun part => word (ToLower (TrimSpace part)))
                       (Split tag ";")).
  { intros flag word H0 H1 W0 W1 W2 Hstep. unfold parseGORMTag. cbv zeta.
    destruct (String.eqb_spec tag "") as [->|_];
      [rewrite H0; symmetry; change (word "" || false = false);
       now rewrite W0|].
    destruct (String.eqb_spec tag "-") as [->|_];
      [cbn [orb]; rewrite H1; symmetry; change (word "-" || false = false);
       now rewrite W1|].
    destruct (String.eqb_spec tag "-:all") as [->|_];
      [cbn [orb]; rewrite H1; symmetry;
       change (word "-:all" || false = false); now rewrite W2|].
    cbn [orb].
    rewrite (fold_left_flag gormClause flag
               (fun part => word (ToLower (TrimSpace part)))); [|exact Hstep].
    now rewrite H0. }
  assert (X : forall (word : string -> bool) (P : string -> Prop),
             (forall s, word s = true <-> P s) ->
             existsb (fun part => word (ToLower (TrimSpace part)))
                     (Split tag ";") = true <->
             exists part, In part (Split tag ";") /\
                          P (ToLower (TrimSpace part))).
  { intros word P HP. rewrite existsb_exists.
    split; intros (x & Hin & Hx); exists x; (split; [exact Hin|]);
      now apply HP. }
  assert (Y : forall (flag : TagInfo -> bool) (word : string -> bool)
                    (P : string -> Prop),
             flag zeroTagInfo = false ->
             flag (with_GORMSkip true zeroTagInfo) = false ->
             word "" = false -> word "-" = false -> word "-:all" = false ->
             (forall info part,
                flag (gormClause info part)
                = flag info || word (ToLower (TrimSpace part))) ->
             (forall s, word s = true <-> P s) ->
             flag (parseGORMTag tag) = true <->
             exists part, In part (Split tag ";") /\
                          P (ToLower (TrimSpace part))).
  { intros flag word P H0 H1 W0 W1 W2 Hstep HP.
    rewrite (E flag word H0 H1 W0 W1 W2 Hstep). now apply X. }
  split; [|split].
  - rewrite (Y PrimaryKey
               (fun l => String.eqb l "primarykey" || String.eqb l "primary_key")
               (fun l => l = "primarykey" \/ l = "primary_key"));
      try reflexivity.
    + unfold clauseIs. split.
      * intros (p & Hin & [Hp|Hp]); [left|right]; now exists p.
      * intros [(p & Hin & Hp)|(p & Hin & Hp)]; exists p; auto.
    + intros; apply gormClause_flags.
    + intros s. rewrite orb_true_iff, !String.eqb_eq. reflexivity.
  - apply (Y AutoCreateTime (fun l => String.eqb l "autocreatetime")
             (fun l => l = "autocreatetime")); try reflexivity.
    + intros; apply gormClause_flags.
    + intros s. now rewrite String.eqb_eq.
  - apply (Y AutoUpdateTime (fun l => String.eqb l "autoupdatetime")
             (fun l => l = "autoupdatetime")); try reflexivity.
    + intros; apply gormClause_flags.
    + intros s. now rewrite String.eqb_eq.
Qed.

(** The values a docs tag yields are free of commas. *)
Definition commaFree (info : TagInfo) : Prop :=
  Contains (Description info) "," = false /\
  Contains (Example info) "," = false /\
  Contains (DocsFormat info) "," = false /\
  forall v, In v (DocsEnum info) ->
            Contains v "," = false /\ Contains v "|" = false.

Lemma docsClause_commaFree (info : TagInfo) (part : string) :
  Contains part "," = false -> commaFree info ->
  commaFree (docsClause info part).
Proof.
  intros Hpart (Hd & He & Hf & Hv). unfold docsClause.
  pose proof (Substring_free _ _ _ (TrimSpace_Substring part) Hpart) as Hp.
  revert Hp. generalize (TrimSpace part) as p. clear part Hpart.
  cbv zeta. intros p Hp.
  assert (Hval : forall pre, Contains (TrimPrefix p pre) "," = false).
  { intros pre. exact (Substring_free _ _ _ (TrimPrefix_Substring p pre) Hp). }
  repeat match goal with
         | |- context [if ?b then _ else _] => destruct b
         end; unfold commaFree; cbn [Description Example DocsFormat DocsEnum
           with_Description with_Example with_DocsFormat with_DocsEnum
           with_Deprecated with_Hidden]; repeat split; auto;
    match goal with
    | Hin : In ?v (DocsEnum info) |- _ => now destruct (Hv v Hin)
    | Hin : In ?v (Split _ _) |- Contains ?v "," = false =>
        eapply Substring_free; [eapply Split_Substring; exact Hin|apply Hval]
    | Hin : In ?v (Split _ _) |- Contains ?v "|" = false =>
        exact (Split_parts_no_sep _ _ _ Hin)
    end.
Qed.

(** X5.  The description, example and format that [parseDocsTag] takes
    from a docs tag never contain a comma, and no enum value contains a
    comma or a vertical bar: the tag is split at every comma first, so a
    value stops at the first comma of its text. *)
Theorem docs_values_stop_at_comma :
  forall tag : string,
    Contains (Description (parseDocsTag tag)) "," = false /\
    Contains (Example (parseDocsTag tag)) "," = false /\
    Contains (DocsFormat (parseDocsTag tag)) "," = false /\
    forall v, In v (DocsEnum (parseDocsTag tag)) ->
              Contains v "," = false /\ Contains v "|" = false.
Proof.
  intros tag. change (commaFree (parseDocsTag tag)).
  assert (Z0 : commaFree zeroTagInfo).
  { repeat split; try reflexivity;
      match goal with Hin : In _ _ |- _ => destruct Hin end. }
  unfold parseDocsTag. cbv zeta.
  destruct (String.eqb tag ""); [exact Z0|].
  pose proof (Split_parts_no_sep tag ",") as Hparts.
  revert Hparts. generalize (Split tag ",") as parts.
  generalize zeroTagInfo as info, Z0.
  intros info Hinfo parts. revert info Hinfo.
  induction parts as [|p parts IH]; intros info Hinfo Hparts; [exact Hinfo|].
  cbn [fold_left]. apply IH.
  - apply docsClause_commaFree; [apply Hparts; now left|exact Hinfo].
  - intros q Hq. apply Hparts. now right.
Qed.

End TagExtras.

(** ** The registry across a compilation *)
Section RegistryExtras.
Context `{Float64Model} {cases : unicode.CaseRanges}.
Variable U : reflect.Types.

Local Abbreviation State := (Schema.SchemaObject * TypeRegistry)%type.

(** A relation on registries that holds across the marking, field
    processing, registration and unmarking of a struct holds across
    every compilation. *)
Section Invariant.
Variable R : TypeRegistry -> TypeRegistry -> Prop.
Hypothesis R_refl : forall r, R r r.
Hypothesis R_trans : forall a b c, R a b -> R b c -> R a c.
Hypothesis R_struct :
  forall t name s r r1,
    Has name r = false -> isSeen t r = false ->
    R (markSeen t r) r1 -> R r (unmarkSeen t (Register name s r1)).

Lemma fieldStep_invariant skip post req fuel pe cf f (st st' : State) :
  (forall e s r x, pe e s r = Some x -> R r x.2) ->
  (forall t tags r x, cf t tags r = Some x -> R r x.2) ->
  fieldStep U skip post req fuel pe cf f st = Some st' ->
  R st.2 st'.2.
Proof.
  intros Hpe Hcf. unfold fieldStep. destruct st as [s r].
  destruct (negb (reflect.IsExported f));
    [intros [= <-]; apply R_refl|].
  destruct (embeddedStruct fuel U f) as [[e|]|]; cbn [mbind option_bind];
    [apply Hpe| |discriminate].
  destruct (skip f); [intros [= <-]; apply R_refl|].
  destruct (fieldTags f) as [tagInfo|]; cbn [mbind option_bind];
    [|discriminate].
  destruct (JSONSkip tagInfo || GORMSkip tagInfo || Hidden tagInfo);
    [intros [= <-]; apply R_refl|].
  destruct (cf (reflect.FieldType f) tagInfo r) as [[fs r1]|] eqn:E;
    cbn [mbind option_bind]; [|discriminate].
  intros [= <-]. exact (Hcf _ _ _ _ E).
Qed.

Lemma compile_invariant (fuel : nat) :
  (forall t r x, typeToSchema fuel U t r = Some x -> R r x.2) /\
  (forall t r x, structToSchema fuel U t r = Some x -> R r x.2) /\
  (forall skip post req t s r x,
     processFields U skip post req fuel t s r = Some x -> R r x.2) /\
  (forall t tags r x, fieldToSchema fuel U t tags r = Some x -> R r x.2).
Proof.
  induction fuel as [|fuel (IHt & IHs & IHp & IHf)];
    [split; [|split; [|split]]; intros; discriminate|].
  split; [|split; [|split]].
  - intros t r x. cbn [typeToSchema].
    destruct (derefPtr fuel U t) as [t0|]; cbn [mbind option_bind];
      [|discriminate].
    destruct (specialTypeSchema U t0);
      [intros [= <-]; apply R_refl|].
    destruct (reflect.Kind U t0);
      try (intros [= <-]; apply R_refl);
      try (destruct (typeToSchema fuel U (reflect.Elem U t0) r)
             as [[es r1]|] eqn:E; cbn [mbind option_bind]; [|discriminate];
           pose proof (IHt _ _ _ E);
           try destruct (reflect.isUint8 _); intros [= <-]; assumption).
    apply IHs.
  - intros t r x. cbn [structToSchema].
    destruct (derefPtr fuel U t) as [t0|]; cbn [mbind option_bind];
      [|discriminate].
    destruct (schemaName fuel U t0) as [name|]; cbn [mbind option_bind];
      [|discriminate].
    destruct (Has name r) eqn:Hhas; [intros [= <-]; apply R_refl|].
    destruct (isSeen t0 r) eqn:Hseen; [intros [= <-]; apply R_refl|].
    rewrite processStructFields_generic.
    destruct (processFields U keepAll unchanged true fuel t0 _ _)
      as [[s1 r1]|] eqn:E; cbn [mbind option_bind]; [|discriminate].
    intros [= <-]. cbn [snd].
    apply R_struct; [exact Hhas|exact Hseen|]. exact (IHp _ _ _ _ _ _ _ E).
  - intros skip post req t s r x. cbn [processFields]. intros Hl.
    apply (forEachField_invariant (fun a b => R a.2 b.2) _ _ _ _
             (fun s => R_refl s.2)
             (fun a b c => R_trans a.2 b.2 c.2)) in Hl; [exact Hl|].
    intros f s0 s' _. apply fieldStep_invariant; [apply IHp|apply IHf].
  - intros t tags r x. cbn [fieldToSchema].
    destruct (typeToSchema fuel U t r) as [[base r1]|] eqn:E;
      cbn [mbind option_bind]; [|discriminate].
    pose proof (IHt _ _ _ E).
    repeat match goal with
           | |- context [if ?b then _ else _] => destruct b
           end; intros [= <-]; assumption.
Qed.

End Invariant.

(** The same types in progress, and every schema still registered under
    its name. *)
Definition Preserves (r r' : TypeRegistry) : Prop :=
  seen r' = seen r /\ schemas r ⊆ schemas r'.

Lemma Preserves_refl (r : TypeRegistry) : Preserves r r.
Proof. split; reflexivity. Qed.

Lemma Preserves_trans (a b c : TypeRegistry) :
  Preserves a b -> Preserves b c -> Preserves a c.
Proof.
  intros [Hs1 Hd1] [Hs2 Hd2]. split; [congruence|].
  etransitivity; eassumption.
Qed.

Lemma Preserves_struct (t : reflect.rtype) (name : string)
  (s : Schema.SchemaObject) (r r1 : TypeRegistry) :
  Has name r = false -> isSeen t r = false ->
  Preserves (markSeen t r) r1 ->
  Preserves r (unmarkSeen t (Register name s r1)).
Proof.
  intros Hhas Hns [Hs Hd]. apply isSeen_false in Hns.
  split; cbn in *.
  - rewrite Hs. set_solver.
  - apply insert_subseteq_r; [|exact Hd].
    unfold Has in Hhas. now destruct (schemas r !! name).
Qed.

Lemma Preserves_Get (r r' : TypeRegistry) (name : string)
  (schema : Schema.SchemaObject) :
  Preserves r r' -> Get name r = Some schema -> Get name r' = Some schema.
Proof.
  intros [_ Hd]. unfold Get. intros Hg.
  exact (lookup_weaken _ _ _ _ Hg Hd).
Qed.

Lemma compile_Preserves (fuel : nat) (t : reflect.rtype) (tags : TagInfo)
  (r r' : TypeRegistry) (s : Schema.SchemaObject) :
  typeToSchema fuel U t r = Some (s, r') \/
  fieldToSchema fuel U t tags r = Some (s, r') \/
  generateCreateVariant fuel U t r = Some (s, r') \/
  generateUpdateVariant fuel U t r = Some (s, r') ->
  Preserves r r'.
Proof.
  intros Hc.
  pose proof (fun fuel => compile_invariant Preserves Preserves_refl
                Preserves_trans Preserves_struct fuel) as I.
  destruct Hc as [Hc|[Hc|[Hc|Hc]]].
  - exact (proj1 (I fuel) _ _ _ Hc).
  - exact (proj2 (proj2 (proj2 (I fuel))) _ _ _ _ Hc).
  - rewrite generateCreateVariant_generic in Hc.
    exact (proj1 (proj2 (proj2 (I (S fuel)))) _ _ _ _ _ _ _ Hc).
  - rewrite generateUpdateVariant_generic in Hc.
    exact (proj1 (proj2 (proj2 (I (S fuel)))) _ _ _ _ _ _ _ Hc).
Qed.

(** X6.  A compilation never removes or replaces a registered schema and
    leaves the set of types in progress as it found it: when
    [typeToSchema], [fieldToSchema], [generateCreateVariant] or
    [generateUpdateVariant] returns, every name that had a schema still
    has that schema, and the seen set is the one of the call. *)
Theorem compile_keeps_registered_schemas :
  forall (fuel : nat) (t : reflect.rtype) (tags : TagInfo)
         (r r' : TypeRegistry) (s : Schema.SchemaObject),
    typeToSchema fuel U t r = Some (s, r') \/
    fieldToSchema fuel U t tags r = Some (s, r') \/
    generateCreateVariant fuel U t r = Some (s, r') \/
    generateUpdateVariant fuel U t r = Some (s, r') ->
    seen r' = seen r /\
    forall name schema,
      Get name r = Some schema -> Get name r' = Some schema.
Proof.
  intros fuel t tags r r' s Hc.
  pose proof (compile_Preserves fuel t tags r r' s Hc) as HP.
  split; [exact (proj1 HP)|].
  intros name schema. now apply Preserves_Get.
Qed.

(** X7.  On a type graph in which every cycle passes through a named
    struct field (a ranked graph), [typeToSchema] returns for every type
    and every registry: some amount of fuel suffices, and every larger
    amount gives the same schema and registry. *)
Theorem typeToSchema_returns_on_ranked_graphs :
  forall (rank : reflect.rtype -> nat) (t : reflect.rtype) (r : TypeRegistry),
    Ranked U rank ->
    exists fuel s r',
      forall fuel', (fuel <= fuel')%nat ->
                    typeToSchema fuel' U t r = Some (s, r').
Proof.
  intros rank t r HR.
  destruct (typeToSchema_terminates U rank HR t r) as (fuel & s & r' & E).
  exists fuel, s, r'. intros fuel' Hle.
  exact (typeToSchema_mono U fuel fuel' t r (s, r') Hle E).
Qed.

End RegistryExtras.

(** ** Field schemas *)
Section FieldExtras.
Context `{Float64Model} {cases : unicode.CaseRanges}.
Variable U : reflect.Types.

Ltac next_let x :=
  lazymatch goal with
  | |- ?Q (let y := ?a in @?b y) =>
      change (let y := a in Q (b y)); cbv beta; intros x
  end.

Ltac split_cases :=
  repeat match goal with
         | |- context [if ?b then _ else _] => destruct b
         | |- context [match ?o with Some _ => _ | None => _ end] => destruct o
         end; auto.

Lemma append_enum (vs : list string) (enum : list Schema.AnyValue) :
  fold_left (fun enum v => (enum ++ [Schema.VString v])%list) vs enum
  = (enum ++ List.map Schema.VString vs)%list.
Proof.
  revert enum. induction vs as [|v vs IH]; intros enum; cbn [fold_left List.map].
  - now rewrite app_nil_r.
  - rewrite IH, <- app_assoc. reflexivity.
Qed.

(** X8.  [applyTagConstraints] never changes the type of a schema and
    applies bounds by that type.  The numeric bounds of the directive
    replace those of the schema exactly when the type is [integer] or
    [number], and the length bounds exactly when it is [string] (with
    the GORM size as the fallback for [maxLength]); on every other type
    the bounds of the schema are left as they were.  The enum values of
    the directive are appended, and [readOnly] and [deprecated] are only
    ever raised. *)
Theorem constraints_apply_by_schema_type :
  forall (s : Schema.SchemaObject) (tags : TagInfo),
    let s' := applyTagConstraints s tags in
    let numeric := String.eqb (Schema.Type_ s) "integer"
                   || String.eqb (Schema.Type_ s) "number" in
    let text := String.eqb (Schema.Type_ s) "string" in
    Schema.Type_ s' = Schema.Type_ s /\
    Schema.Enum s' = (Schema.Enum s ++ List.map Schema.VString (Enum tags))%list /\
    Schema.Minimum s' = (if numeric then Minimum tags else Schema.Minimum s) /\
    Schema.Maximum s' = (if numeric then Maximum tags else Schema.Maximum s) /\
    Schema.MinLength s' = (if text then MinLength tags else Schema.MinLength s) /\
    Schema.MaxLength s'
    = (if text then match MaxLength tags with
                    | Some m => Some m
                    | None => GORMSize tags
                    end
       else Schema.MaxLength s) /\
    Schema.ReadOnly s'
    = Schema.ReadOnly s
      || (PrimaryKey tags || AutoCreateTime tags || AutoUpdateTime tags) /\
    Schema.Deprecated s' = Schema.Deprecated s || Deprecated tags.
Proof.
  intros s tags. cbv zeta.
  set (St := fun (n : nat) (z : Schema.SchemaObject) =>
    Schema.Type_ z = Schema.Type_ s /\
    Schema.Enum z
    = (if (4 <=? n)%nat
       then (Schema.Enum s ++ List.map Schema.VString (Enum tags))%list
       else Schema.Enum s) /\
    Schema.Minimum z
    = (if (5 <=? n)%nat && (String.eqb (Schema.Type_ s) "integer"
                            || String.eqb (Schema.Type_ s) "number")
       then Minimum tags else Schema.Minimum s) /\
    Schema.Maximum z
    = (if (5 <=? n)%nat && (String.eqb (Schema.Type_ s) "integer"
                            || String.eqb (Schema.Type_ s) "number")
       then Maximum tags else Schema.Maximum s) /\
    Schema.MinLength z
    = (if (6 <=? n)%nat && String.eqb (Schema.Type_ s) "string"
       then MinLength tags else Schema.MinLength s) /\
    Schema.MaxLength z
    = (if (6 <=? n)%nat && String.eqb (Schema.Type_ s) "string"
       then match MaxLength tags with
            | Some m => Some m
            | None => GORMSize tags
            end
       else Schema.MaxLength s) /\
    Schema.ReadOnly z
    = (if (8 <=? n)%nat
       then Schema.ReadOnly s
            || (PrimaryKey tags || AutoCreateTime tags || AutoUpdateTime tags)
       else Schema.ReadOnly s) /\
    Schema.Deprecated z
    = (if (9 <=? n)%nat then Schema.Deprecated s || Deprecated tags
       else Schema.Deprecated s)).
  enough (HQ : St 10%nat (applyTagConstraints s tags)).
  { unfold St in HQ. cbn [Nat.leb andb] in HQ. exact HQ. }
  set (Q := St 10%nat). change (Q (applyTagConstraints s tags)).
  cbv beta delta [applyTagConstraints].
  assert (H0 : St 0%nat s) by (unfold St; cbn [Nat.leb andb]; repeat split).
  next_let x1.
  assert (H1 : St 1%nat x1).
  { subst x1. clear Q; unfold St in *; clear St; cbn [Nat.leb andb] in *. split_cases. }
  clearbody x1. clear H0.
  next_let x2.
  assert (H2 : St 2%nat x2).
  { subst x2. clear Q; unfold St in *; clear St; cbn [Nat.leb andb] in *. split_cases. }
  clearbody x2. clear H1.
  next_let x3.
  assert (H3 : St 3%nat x3).
  { subst x3. clear Q; unfold St in *; clear St; cbn [Nat.leb andb] in *. split_cases. }
  clearbody x3. clear H2.
  next_let x4.
  assert (H4 : St 4%nat x4).
  { subst x4. clear Q; unfold St in *; clear St; cbn [Nat.leb andb] in *.
    destruct H3 as (T & E & R). rewrite append_enum.
    destruct (Enum tags) as [|v vs] eqn:Ev.
    - change (0 <? Z.of_nat (length (@nil string)))%Z with false. cbv iota.
      cbn [List.map]. rewrite app_nil_r. repeat split; tauto.
    - change (0 <? Z.of_nat (length (v :: vs)))%Z with true. cbv iota.
      cbn [Schema.Type_ Schema.Enum Schema.Minimum Schema.Maximum
           Schema.MinLength Schema.MaxLength Schema.ReadOnly
           Schema.Deprecated Schema.with_Enum].
      rewrite E. repeat split; tauto. }
  clearbody x4. clear H3.
  next_let x5.
  assert (H5 : St 5%nat x5).
  { subst x5. clear Q; unfold St in *; clear St; cbn [Nat.leb andb] in *.
    destruct H4 as (T & E & R). rewrite T.
    destruct (String.eqb (Schema.Type_ s) "integer"
              || String.eqb (Schema.Type_ s) "number");
      cbn; repeat split; tauto. }
  clearbody x5. clear H4.
  next_let x6.
  assert (H6 : St 6%nat x6).
  { subst x6. clear Q; unfold St in *; clear St; cbn [Nat.leb andb] in *. cbv zeta.
    destruct H5 as (T & E & Mn & Mx & R). rewrite T.
    destruct (String.eqb (Schema.Type_ s) "string");
      [|repeat split; tauto].
    cbn. destruct (GORMSize tags), (MaxLength tags); cbn; repeat split; tauto. }
  clearbody x6. clear H5.
  next_let x7.
  assert (H7 : St 7%nat x7).
  { subst x7. clear Q; unfold St in *; clear St; cbn [Nat.leb andb] in *. split_cases. }
  clearbody x7. clear H6.
  next_let x8.
  assert (H8 : St 8%nat x8).
  { subst x8. clear Q; unfold St in *; clear St; cbn [Nat.leb andb] in *.
    destruct H7 as (T & E & Mn & Mx & Ml & Mxl & Ro & D).
    destruct (PrimaryKey tags || AutoCreateTime tags || AutoUpdateTime tags);
      cbn; rewrite ?orb_true_r, ?orb_false_r; repeat split; tauto. }
  clearbody x8. clear H7.
  next_let x9.
  assert (H9 : St 9%nat x9).
  { subst x9. clear Q; unfold St in *; clear St; cbn [Nat.leb andb] in *.
    destruct H8 as (T & E & Mn & Mx & Ml & Mxl & Ro & D).
    destruct (Deprecated tags);
      cbn; rewrite ?orb_true_r, ?orb_false_r; repeat split; tauto. }
  clearbody x9. clear H8.
  subst Q. unfold St in *. cbn [Nat.leb andb] in *. split_cases.
Qed.

Lemma SchemaRef_Ref (name : string) :
  Schema.Ref (SchemaRef name) <> EmptyString.
Proof.
  pose proof (RefPath_nonempty name) as Hn. intros Hr.
  change (Schema.Ref (SchemaRef name)) with (RefPath name) in Hr.
  rewrite Hr in Hn. discriminate.
Qed.

(** A struct that is not a special type compiles to the reference to its
    name. *)
Lemma plain_struct_is_ref (fuel : nat) (t t0 : reflect.rtype)
  (r r' : TypeRegistry) (s : Schema.SchemaObject) :
  typeToSchema fuel U t r = Some (s, r') ->
  DerefsTo U t t0 ->
  reflect.isStruct (reflect.Kind U t0) = true ->
  specialTypeSchema U t0 = None ->
  s = SchemaRef (registeredName U t0).
Proof.
  destruct fuel as [|fuel]; [discriminate|]. cbn [typeToSchema].
  destruct (derefPtr fuel U t) as [t1|] eqn:Hd; cbn [mbind option_bind];
    [|discriminate].
  intros Hc Ht Hk Hsp.
  assert (t1 = t0) as ->
    by (eapply DerefsTo_fun; [eapply derefPtr_DerefsTo, Hd|exact Ht]).
  rewrite Hsp in Hc.
  destruct (reflect.Kind U t0); try discriminate.
  destruct (structToSchema_is_ref _ _ _ _ _ _ Hc) as (t2 & Hd2 & ->).
  assert (t2 = t0) as ->; [|reflexivity].
  eapply DerefsTo_fun; [exact Hd2|]. constructor.
  eapply derefPtr_result_notPtr, Hd.
Qed.

(** X9.  [typeToSchema] returns a [$ref] exactly for the struct types
    that are not special types (after dereferencing pointers), and the
    reference is then the one to the schema name of the struct; every
    other type, [time.Time] and text marshalers included, is described
    inline. *)
Theorem reference_iff_plain_struct :
  forall (fuel : nat) (t t0 : reflect.rtype) (r r' : TypeRegistry)
         (s : Schema.SchemaObject),
    typeToSchema fuel U t r = Some (s, r') ->
    DerefsTo U t t0 ->
    (Schema.Ref s <> EmptyString <->
     reflect.isStruct (reflect.Kind U t0) = true /\
     specialTypeSchema U t0 = None) /\
    (Schema.Ref s <> EmptyString -> s = SchemaRef (registeredName U t0)).
Proof.
  intros fuel t t0 r r' s Hc Ht.
  destruct (typeToSchema_shape U fuel t r s r' Hc)
    as [_ [He|(t1 & Ht1 & Hk & Hsp & ->)]].
  - split; [|congruence]. split; [congruence|]. intros [Hk Hsp].
    rewrite (plain_struct_is_ref _ _ _ _ _ _ Hc Ht Hk Hsp).
    apply SchemaRef_Ref.
  - assert (t1 = t0) as -> by (eapply DerefsTo_fun; eassumption).
    split; [|reflexivity]. split; [now intros _|].
    intros _. apply SchemaRef_Ref.
Qed.

(** X10.  A field whose type is (a pointer to) a struct that is not a
    special type takes none of the constraints of its tags.  Its schema
    is the bare reference, or, when the directive has a description or
    is deprecated, a wrapper with the reference as its only [allOf]
    member that carries the description and the deprecation and nothing
    else: no read-only mark, format, enum, bounds, default or
    example. *)
Theorem struct_fields_take_no_constraints :
  forall (fuel : nat) (t t0 : reflect.rtype) (tags : TagInfo)
         (r r' : TypeRegistry) (s : Schema.SchemaObject),
    fieldToSchema fuel U t tags r = Some (s, r') ->
    DerefsTo U t t0 ->
    reflect.isStruct (reflect.Kind U t0) = true ->
    specialTypeSchema U t0 = None ->
    s = (if negb (String.eqb (Description tags) EmptyString) || Deprecated tags
         then Schema.with_Deprecated (Deprecated tags)
                (Schema.with_Description (Description tags)
                   (Schema.with_AllOf [SchemaRef (registeredName U t0)]
                      Schema.zero))
         else SchemaRef (registeredName U t0)) /\
    Schema.ReadOnly s = false /\ Schema.Format s = EmptyString /\
    Schema.Enum s = [] /\ Schema.Default s = None /\
    Schema.Example s = None /\
    Schema.Minimum s = None /\ Schema.Maximum s = None /\
    Schema.MinLength s = None /\ Schema.MaxLength s = None.
Proof.
  intros fuel t t0 tags r r' s Hf Ht Hk Hsp.
  destruct fuel as [|fuel]; [discriminate|]. cbn [fieldToSchema] in Hf.
  destruct (typeToSchema fuel U t r) as [[base r1]|] eqn:Hb;
    cbn [mbind option_bind] in Hf; [|discriminate].
  pose proof (plain_struct_is_ref _ _ _ _ _ _ Hb Ht Hk Hsp) as ->.
  destruct (String.eqb_spec (Schema.Ref (SchemaRef (registeredName U t0)))
              EmptyString) as [Hr|_];
    [now apply SchemaRef_Ref in Hr|].
  cbn [negb] in Hf.
  destruct (negb (String.eqb (Description tags) EmptyString) || Deprecated tags);
    injection Hf as <- <-; repeat split.
Qed.

End FieldExtras.

(** ** What the field loops build *)

(** The field is emitted under the property name [k] and its directive
    marks it required. *)
Definition RequiredAs `{Float64Model} `{unicode.CaseRanges}
    (field : reflect.StructField)
  (k : string) : Prop :=
  exists tagInfo,
    fieldTags field = Some tagInfo /\
    JSONSkip tagInfo || GORMSkip tagInfo || Hidden tagInfo = false /\
    propertyName tagInfo field = k /\
    Required tagInfo = true.

Section LoopExtras.
Context `{Float64Model} {cases : unicode.CaseRanges}.
Variable U : reflect.Types.
Variable skip : reflect.StructField -> bool.
Variable post : Schema.SchemaObject -> Schema.SchemaObject.
Variable req : bool.

Local Abbreviation State := (Schema.SchemaObject * TypeRegistry)%type.

(** A property of the object under construction that the assignments of
    the loop body keep is kept by the loop. *)
Lemma processFields_keeps (P : Schema.SchemaObject -> Prop) :
  (forall s props, P s -> P (Schema.with_Properties props s)) ->
  (forall s l, P s -> P (Schema.with_Required l s)) ->
  forall fuel t s r s' r',
    P s ->
    processFields U skip post req fuel t s r = Some (s', r') -> P s'.
Proof.
  intros HP HR.
  induction fuel as [|fuel IH]; intros t s r s' r' Hs; [discriminate|].
  cbn [processFields]. generalize (reflect.Fields U t) as fs.
  intros fs. revert s r Hs.
  induction fs as [|f fs IHfs]; intros s r Hs; cbn [forEachField].
  { now intros [= <- <-]. }
  destruct (fieldStep U skip post req fuel _ _ f (s, r)) as [[s1 r1]|] eqn:Hstep;
    [|discriminate].
  apply IHfs. clear IHfs. unfold fieldStep in Hstep.
  destruct (negb (reflect.IsExported f)); [now injection Hstep as <- <-|].
  destruct (embeddedStruct fuel U f) as [[e|]|];
    cbn [mbind option_bind] in Hstep; [| |discriminate].
  { eapply IH; [exact Hs|exact Hstep]. }
  destruct (skip f); [now injection Hstep as <- <-|].
  destruct (fieldTags f) as [tagInfo|];
    cbn [mbind option_bind] in Hstep; [|discriminate].
  destruct (JSONSkip tagInfo || GORMSkip tagInfo || Hidden tagInfo);
    [now injection Hstep as <- <-|].
  destruct (fieldToSchema fuel U (reflect.FieldType f) tagInfo r)
    as [[v0 r0]|]; cbn [mbind option_bind] in Hstep; [|discriminate].
  injection Hstep as <- <-.
  destruct (req && Required tagInfo); auto.
Qed.

(** The required names a loop over [fs] appends. *)
Definition Requires (fs : list reflect.StructField) (k : string) : Prop :=
  exists g, Visits U fs g /\ skip g = false /\ RequiredAs g k.

Definition AddsRequired (fs : list reflect.StructField)
  (s s' : Schema.SchemaObject) : Prop :=
  forall k, In k (Schema.Required s') <->
            In k (Schema.Required s) \/ (req = true /\ Requires fs k).

Lemma Requires_nil k : ~ Requires [] k.
Proof. intros (g & Hv & _). inversion Hv. Qed.

Lemma Requires_split f fs k :
  Requires (f :: fs) k <-> Requires [f] k \/ Requires fs k.
Proof.
  split.
  - intros (g & Hv & Hg).
    apply Visits_cons_inv in Hv as [(-> & Hx & Hn)|[(e & Hx & He & Hv)|Hv]].
    + left. exists f. split; [now apply Visits_here|exact Hg].
    + left. exists g. split; [eapply Visits_embedded; eauto|exact Hg].
    + right. exists g. auto.
  - intros [(g & Hv & Hg)|(g & Hv & Hg)]; exists g; (split; [|exact Hg]).
    + apply Visits_cons_inv in Hv as [(-> & Hx & Hn)|[(e & Hx & He & Hv)|Hv]].
      * now apply Visits_here.
      * eapply Visits_embedded; eauto.
      * inversion Hv.
    + now apply Visits_later.
Qed.

Lemma Requires_one f k :
  Requires [f] k <->
  reflect.IsExported f = true /\
  ((exists e, EmbedsStruct U f e /\ Requires (reflect.Fields U e) k) \/
   ((forall e, ~ EmbedsStruct U f e) /\ skip f = false /\ RequiredAs f k)).
Proof.
  split.
  - intros (g & Hv & Hg).
    apply Visits_cons_inv in Hv as [(-> & Hx & Hn)|[(e & Hx & He & Hv)|Hv]].
    + split; [exact Hx|]. right. split; [exact Hn|exact Hg].
    + split; [exact Hx|]. left. exists e. split; [exact He|]. now exists g.
    + inversion Hv.
  - intros [Hx [(e & He & g & Hv & Hg)|(Hn & Hg)]].
    + exists g. split; [eapply Visits_embedded; eauto|exact Hg].
    + exists f. split; [now apply Visits_here|exact Hg].
Qed.

Lemma AddsRequired_same f s :
  (forall k, ~ Requires [f] k) -> AddsRequired [f] s s.
Proof.
  intros Hno k. split; [now left|].
  intros [Hk|[_ Hk]]; [exact Hk|]. exfalso. eapply Hno, Hk.
Qed.

(** The field loops append to the required list exactly the names of the
    required fields they emit. *)
Lemma processFields_Required (fuel : nat) :
  forall t s r s' r',
    processFields U skip post req fuel t s r = Some (s', r') ->
    AddsRequired (reflect.Fields U t) s s'.
Proof.
  induction fuel as [|fuel IH]; intros t s r s' r'; [discriminate|].
  cbn [processFields]. generalize (reflect.Fields U t) as fs.
  intros fs. revert s r.
  induction fs as [|f fs IHfs]; intros s r; cbn [forEachField].
  { intros [= <- <-] k. split; [now left|].
    intros [Hk|[_ Hk]]; [exact Hk|]. exfalso. eapply Requires_nil, Hk. }
  destruct (fieldStep U skip post req fuel _ _ f (s, r)) as [[s1 r1]|] eqn:Hstep;
    [|discriminate].
  intros Hrest. specialize (IHfs _ _ Hrest).
  enough (H1 : AddsRequired [f] s s1).
  { intros k. rewrite (IHfs k), (H1 k), (Requires_split f fs k). tauto. }
  clear Hrest IHfs. unfold fieldStep in Hstep.
  destruct (reflect.IsExported f) eqn:Hex; cbn [negb] in Hstep.
  2:{ injection Hstep as <- <-. apply AddsRequired_same. intros k Hk.
      apply Requires_one in Hk as [Hx _]. congruence. }
  destruct (embeddedStruct fuel U f) as [[e|]|] eqn:Hemb;
    cbn [mbind option_bind] in Hstep; [| |discriminate].
  { pose proof (embeddedStruct_sound U _ _ _ Hemb) as He.
    intros k. rewrite (IH _ _ _ _ _ Hstep k), Requires_one. split.
    - intros [Hk|[Hr Hk]]; [now left|right]. split; [exact Hr|].
      split; [exact Hex|]. left. eauto.
    - intros [Hk|[Hr [_ [(e' & He' & Hk)|(Hn & _)]]]]; [now left| |].
      + right. split; [exact Hr|].
        now rewrite (EmbedsStruct_fun U _ _ _ He He').
      + exfalso. eapply Hn, He. }
  pose proof (embeddedStruct_none U _ _ Hemb) as Hne.
  assert (Hplain : forall k, Requires [f] k <-> skip f = false /\ RequiredAs f k).
  { intros k. rewrite Requires_one. split.
    - intros [_ [(e & He & _)|(_ & Hg)]]; [|exact Hg].
      exfalso. eapply Hne, He.
    - intros Hg. split; [exact Hex|]. right. split; [exact Hne|exact Hg]. }
  destruct (skip f) eqn:Hskip.
  { injection Hstep as <- <-. apply AddsRequired_same. intros k Hk.
    apply Hplain in Hk as [? _]. discriminate. }
  destruct (fieldTags f) as [tagInfo|] eqn:Htags;
    cbn [mbind option_bind] in Hstep; [|discriminate].
  destruct (JSONSkip tagInfo || GORMSkip tagInfo || Hidden tagInfo) eqn:Hhid.
  { injection Hstep as <- <-. apply AddsRequired_same. intros k Hk.
    apply Hplain in Hk as [_ (ti & Hti & Hh & _)].
    rewrite Htags in Hti. injection Hti as <-. congruence. }
  destruct (fieldToSchema fuel U (reflect.FieldType f) tagInfo r)
    as [[v0 r0]|] eqn:Hfs; cbn [mbind option_bind] in Hstep; [|discriminate].
  injection Hstep as <- <-.
  assert (Hk : forall k, Requires [f] k <->
                         k = propertyName tagInfo f /\ Required tagInfo = true).
  { intros k. rewrite Hplain. split.
    - intros [_ (ti & Hti & _ & Hn & Hr)]. rewrite Htags in Hti.
      injection Hti as <-. now split.
    - intros [-> Hr]. split; [reflexivity|]. exists tagInfo. auto. }
  intros k. rewrite Hk.
  destruct req, (Required tagInfo); cbn; rewrite ?in_app_iff; cbn;
    intuition congruence.
Qed.

End LoopExtras.

(** ** Registered schemas and model variants *)
Section StructExtras.
Context `{Float64Model} {cases : unicode.CaseRanges}.
Variable U : reflect.Types.

Lemma emptyObject_facts :
  Schema.Type_ emptyObject = "object" /\
  Schema.Properties emptyObject = ∅ /\
  Schema.Required emptyObject = [].
Proof. repeat split. Qed.

Lemma processFields_Type skip post req fuel t s r s' r' :
  processFields U skip post req fuel t s r = Some (s', r') ->
  Schema.Type_ s' = Schema.Type_ s.
Proof.
  apply (processFields_keeps U skip post req
           (fun x => Schema.Type_ x = Schema.Type_ s)); auto.
Qed.

(** What a loop started on the empty object returns. *)
Lemma processFields_from_empty skip post req fuel t r s' r' :
  processFields U skip post req fuel t emptyObject r = Some (s', r') ->
  Schema.Type_ s' = "object" /\
  (forall k, k ∈ dom (Schema.Properties s') <->
             exists g, Visits U (reflect.Fields U t) g /\ skip g = false /\
                       EmittedAs g k) /\
  (forall k, In k (Schema.Required s') <->
             req = true /\
             exists g, Visits U (reflect.Fields U t) g /\ skip g = false /\
                       RequiredAs g k).
Proof.
  intros Hp. split; [|split].
  - now rewrite (processFields_Type _ _ _ _ _ _ _ _ _ Hp).
  - intros k.
    destruct (processFields_Adds U skip post req fuel t _ _ _ _ Hp)
      as (Hd & _ & _).
    rewrite Hd. change (Schema.Properties emptyObject) with
      (∅ : gmap string Schema.SchemaObject).
    rewrite dom_empty_L. unfold Emits. set_solver.
  - intros k.
    rewrite (processFields_Required U skip post req fuel t _ _ _ _ Hp k).
    change (Schema.Required emptyObject) with (@nil string).
    unfold Requires. cbn [In]. tauto.
Qed.

Lemma RequiredAs_EmittedAs (g : reflect.StructField) (k : string) :
  RequiredAs g k -> EmittedAs g k.
Proof. intros (ti & Ht & Hh & Hn & _). exists ti. auto. Qed.

(** X11.  The schema that the first compilation of a struct registers
    under the struct's name is an object.  Its properties are exactly
    the property names of the fields the loop visits (embedded structs
    flattened, unexported fields passed over) whose tags do not skip or
    hide them, and its required list holds exactly the names of those
    fields whose binding tag requires them, so every required name is a
    property. *)
Theorem registered_struct_schema :
  forall (fuel : nat) (t : reflect.rtype) (r r' : TypeRegistry)
         (s : Schema.SchemaObject),
    reflect.isStruct (reflect.Kind U t) = true ->
    specialTypeSchema U t = None ->
    Has (registeredName U t) r = false ->
    isSeen t r = false ->
    typeToSchema fuel U t r = Some (s, r') ->
    exists schema,
      Get (registeredName U t) r' = Some schema /\
      Schema.Type_ schema = "object" /\
      (forall k, k ∈ dom (Schema.Properties schema) <->
                 exists g, Visits U (reflect.Fields U t) g /\ EmittedAs g k) /\
      (forall k, In k (Schema.Required schema) <->
                 exists g, Visits U (reflect.Fields U t) g /\ RequiredAs g k) /\
      (forall k, In k (Schema.Required schema) ->
                 k ∈ dom (Schema.Properties schema)).
Proof.
  intros fuel t r r' s Hk Hsp Hhas Hseen Hc.
  destruct fuel as [|[|fuel]]; [discriminate| |].
  { rewrite (typeToSchema_struct U 0 t r Hk Hsp) in Hc. discriminate. }
  rewrite (typeToSchema_struct U (S fuel) t r Hk Hsp) in Hc.
  rewrite (structToSchema_fresh U fuel t r (isStruct_notPtr _ Hk) Hhas Hseen)
    in Hc.
  destruct (processFields U keepAll unchanged true fuel t emptyObject
              (markSeen t r)) as [[schema r1]|] eqn:Hp;
    cbn [mbind option_bind] in Hc; [|discriminate].
  injection Hc as <- <-.
  destruct (processFields_from_empty _ _ _ _ _ _ _ _ Hp) as (Ht & Hd & Hr).
  assert (Hd' : forall k, k ∈ dom (Schema.Properties schema) <->
                  exists g, Visits U (reflect.Fields U t) g /\ EmittedAs g k).
  { intros k. rewrite Hd. split.
    - intros (g & Hv & _ & He). eauto.
    - intros (g & Hv & He). exists g. auto. }
  assert (Hr' : forall k, In k (Schema.Required schema) <->
                  exists g, Visits U (reflect.Fields U t) g /\ RequiredAs g k).
  { intros k. rewrite Hr. split.
    - intros (_ & g & Hv & _ & He). eauto.
    - intros (g & Hv & He). split; [reflexivity|]. exists g. auto. }
  exists schema. split; [|split; [exact Ht|split; [exact Hd'|split; [exact Hr'|]]]].
  - unfold Get, unmarkSeen, Register. cbn. apply lookup_insert_eq.
  - intros k Hin. apply Hd'. apply Hr' in Hin as (g & Hv & He).
    exists g. split; [exact Hv|now apply RequiredAs_EmittedAs].
Qed.

(** X12.  The create and the update variant of a type have the same
    property names, whatever the registries they are generated against,
    and every one of them is a property of the full schema that
    [processStructFields] builds for the type.  The create variant
    requires exactly the required fields it emits. *)
Theorem variants_have_the_same_properties :
  forall (fuel fuel' : nat) (t : reflect.rtype) (r1 r1' r2 r2' : TypeRegistry)
         (c u : Schema.SchemaObject),
    generateCreateVariant fuel U t r1 = Some (c, r1') ->
    generateUpdateVariant fuel' U t r2 = Some (u, r2') ->
    Schema.Type_ c = "object" /\ Schema.Type_ u = "object" /\
    dom (Schema.Properties c) = dom (Schema.Properties u) /\
    (forall k, In k (Schema.Required c) <->
               exists g, Visits U (reflect.Fields U t) g /\
                         shouldSkipForCreate U g = false /\ RequiredAs g k) /\
    (forall k, In k (Schema.Required c) -> k ∈ dom (Schema.Properties c)) /\
    (forall fuel3 r3 r3' full,
       processStructFields fuel3 U t emptyObject r3 = Some (full, r3') ->
       dom (Schema.Properties c) ⊆ dom (Schema.Properties full)).
Proof.
  intros fuel fuel' t r1 r1' r2 r2' c u Hc Hu.
  rewrite generateCreateVariant_generic in Hc.
  rewrite generateUpdateVariant_generic in Hu.
  destruct (processFields_from_empty _ _ _ _ _ _ _ _ Hc) as (Htc & Hdc & Hrc).
  destruct (processFields_from_empty _ _ _ _ _ _ _ _ Hu) as (Htu & Hdu & _).
  split; [exact Htc|]. split; [exact Htu|]. split; [|split; [|split]].
  - apply set_eq. intros k. now rewrite Hdc, Hdu.
  - intros k. rewrite Hrc. split; [now intros [_ Hg]|now split].
  - intros k Hin. apply Hdc. apply Hrc in Hin as (_ & g & Hv & Hs & He).
    exists g. split; [exact Hv|]. split; [exact Hs|].
    now apply RequiredAs_EmittedAs.
  - intros fuel3 r3 r3' full Hf k Hin.
    rewrite processStructFields_generic in Hf.
    destruct (processFields_from_empty _ _ _ _ _ _ _ _ Hf) as (_ & Hdf & _).
    apply Hdf. apply Hdc in Hin as (g & Hv & _ & He).
    exists g. auto.
Qed.


End StructExtras.

(** ** Registering GORM models *)
Section ModelExtras.
Context `{Float64Model} {cases : unicode.CaseRanges}.
Variable U : reflect.Types.

Lemma Preserves_dom (r r' : TypeRegistry) :
  Preserves r r' -> dom (schemas r) ⊆ dom (schemas r').
Proof. intros [_ Hs]. now apply subseteq_dom. Qed.

Lemma Create_not_Update (a b : string) :
  String.append "Create" a <> String.append "Update" b.
Proof. rewrite !append_cons. discriminate. Qed.

Lemma Get_Register (name name' : string) (s : Schema.SchemaObject)
  (r : TypeRegistry) :
  Get name' (Register name s r)
  = if String.eqb name name' then Some s else Get name' r.
Proof.
  unfold Get, Register. cbn.
  destruct (String.eqb_spec name name') as [->|Hne].
  - apply lookup_insert_eq.
  - now apply lookup_insert_ne.
Qed.

(** X13.  One iteration of [registerGORMModels].  For a model that is
    not a struct, or a struct without a name, the registry is left as it
    was.  For a named struct, the registry afterwards holds an object
    schema under ["Create" + name] and one under ["Update" + name], with
    the same property names and nothing required in the update variant;
    the struct itself is registered under its name unless it is a
    special type; every other schema of the registry is still there
    under its name, and the set of types in progress is unchanged. *)
Theorem registerGORMModel_registers_variants :
  forall (fuel : nat) (t t0 : reflect.rtype) (r r' : TypeRegistry),
    registerGORMModel fuel U r t = Some r' ->
    DerefsTo U t t0 ->
    seen r' = seen r /\
    dom (schemas r) ⊆ dom (schemas r') /\
    (reflect.isStruct (reflect.Kind U t0) = false \/
     reflect.Name U t0 = EmptyString -> r' = r) /\
    (reflect.isStruct (reflect.Kind U t0) = true ->
     reflect.Name U t0 <> EmptyString ->
     (exists c u,
        Get (String.append "Create" (reflect.Name U t0)) r' = Some c /\
        Get (String.append "Update" (reflect.Name U t0)) r' = Some u /\
        Schema.Type_ c = "object" /\ Schema.Type_ u = "object" /\
        dom (Schema.Properties c) = dom (Schema.Properties u) /\
        Schema.Required u = []) /\
     (specialTypeSchema U t0 = None -> isSeen t0 r = false ->
      Has (reflect.Name U t0) r' = true) /\
     (forall name schema,
        Get name r = Some schema ->
        name <> String.append "Create" (reflect.Name U t0) ->
        name <> String.append "Update" (reflect.Name U t0) ->
        Get name r' = Some schema)).
Proof.
  intros fuel t t0 r r' Hm Ht. unfold registerGORMModel in Hm.
  destruct (derefPtr fuel U t) as [t1|] eqn:Hd; cbn [mbind option_bind] in Hm;
    [|discriminate].
  assert (t1 = t0) as ->
    by (eapply DerefsTo_fun; [eapply derefPtr_DerefsTo, Hd|exact Ht]).
  destruct (reflect.isStruct (reflect.Kind U t0)) eqn:Hk; cbn [negb] in Hm.
  2:{ injection Hm as <-. repeat split; auto; discriminate. }
  destruct (String.eqb_spec (reflect.Name U t0) EmptyString) as [Hn|Hn].
  { injection Hm as <-. repeat split; auto; congruence. }
  destruct (typeToSchema fuel U t0 r) as [[s0 ra]|] eqn:E1;
    cbn [mbind option_bind] in Hm; [|discriminate].
  destruct (generateCreateVariant fuel U t0 ra) as [[c rb]|] eqn:E2;
    cbn [mbind option_bind] in Hm; [|discriminate].
  set (cname := String.append "Create" (reflect.Name U t0)) in *.
  set (uname := String.append "Update" (reflect.Name U t0)) in *.
  destruct (generateUpdateVariant fuel U t0 (Register cname c rb))
    as [[u rc]|] eqn:E3; cbn [mbind option_bind] in Hm; [|discriminate].
  injection Hm as <-.
  pose proof (compile_Preserves U fuel t0 zeroTagInfo r ra s0 (or_introl E1))
    as P1.
  pose proof (compile_Preserves U fuel t0 zeroTagInfo ra rb c
                (or_intror (or_intror (or_introl E2)))) as P2.
  pose proof (compile_Preserves U fuel t0 zeroTagInfo _ rc u
                (or_intror (or_intror (or_intror E3)))) as P3.
  pose proof (Preserves_trans _ _ _ P1 P2) as P12.
  assert (Hcu : cname <> uname) by apply Create_not_Update.
  split; [|split; [|split; [|intros _ _; split; [|split]]]].
  - cbn. rewrite (proj1 P3). cbn. exact (proj1 P12).
  - apply Preserves_dom in P12, P3. cbn in *.
    rewrite dom_insert_L in *. set_solver.
  - intros [Hf|He]; congruence.
  - exists c, u.
    rewrite generateCreateVariant_generic in E2.
    rewrite generateUpdateVariant_generic in E3.
    destruct (processFields_from_empty U _ _ _ _ _ _ _ _ E2) as (Htc & Hdc & _).
    destruct (processFields_from_empty U _ _ _ _ _ _ _ _ E3) as (Htu & Hdu & Hru).
    rewrite !Get_Register, String.eqb_refl.
    destruct (String.eqb_spec uname cname) as [Heq|_]; [congruence|].
    split.
    { eapply Preserves_Get; [exact P3|]. rewrite Get_Register.
      now rewrite String.eqb_refl. }
    split; [reflexivity|]. split; [exact Htc|]. split; [exact Htu|].
    split.
    + apply set_eq. intros k. now rewrite Hdc, Hdu.
    + destruct (Schema.Required u) as [|k ks]; [reflexivity|].
      destruct (proj1 (Hru k) (or_introl eq_refl)) as [Hf _]. discriminate.
  - intros Hsp Hseen.
    assert (Hreg : Has (reflect.Name U t0) ra = true).
    { destruct fuel as [|fuel]; [discriminate|].
      rewrite (typeToSchema_struct U fuel t0 r Hk Hsp) in E1.
      destruct (structToSchema_registers U fuel t0 r s0 ra
                  (isStruct_notPtr _ Hk) Hseen E1) as [_ Hh].
      unfold registeredName in Hh.
      destruct (String.eqb_spec (reflect.Name U t0) "") as [|_];
        [congruence|exact Hh]. }
    apply Has_dom in Hreg. apply Has_dom.
    apply Preserves_dom in P2, P3. cbn in *.
    rewrite dom_insert_L in *. set_solver.
  - intros name schema Hg Hnc Hnu.
    rewrite Get_Register.
    destruct (String.eqb_spec uname name) as [Heq|_]; [congruence|].
    eapply Preserves_Get; [exact P3|]. rewrite Get_Register.
    destruct (String.eqb_spec cname name) as [Heq|_]; [congruence|].
    eapply Preserves_Get; [exact P12|exact Hg].
Qed.

Lemma Extends_Register (name : string) (s : Schema.SchemaObject)
  (r : TypeRegistry) : Extends r (Register name s r).
Proof. split; cbn; [reflexivity|]. rewrite dom_insert_L. set_solver. Qed.

Lemma registerGORMModel_Extends (fuel : nat) (t : reflect.rtype)
  (r r' : TypeRegistry) :
  registerGORMModel fuel U r t = Some r' -> Extends r r'.
Proof.
  unfold registerGORMModel.
  destruct (derefPtr fuel U t) as [t0|]; cbn [mbind option_bind];
    [|discriminate].
  destruct (negb (reflect.isStruct (reflect.Kind U t0)));
    [intros [= <-]; apply Extends_refl|].
  destruct (String.eqb (reflect.Name U t0) EmptyString);
    [intros [= <-]; apply Extends_refl|].
  destruct (typeToSchema fuel U t0 r) as [[s0 ra]|] eqn:E1;
    cbn [mbind option_bind]; [|discriminate].
  destruct (generateCreateVariant fuel U t0 ra) as [[c rb]|] eqn:E2;
    cbn [mbind option_bind]; [|discriminate].
  destruct (generateUpdateVariant fuel U t0 _) as [[u rc]|] eqn:E3;
    cbn [mbind option_bind]; [|discriminate].
  intros [= <-].
  rewrite generateCreateVariant_generic in E2.
  rewrite generateUpdateVariant_generic in E3.
  eapply Extends_trans; [eapply typeToSchema_extends, E1|].
  eapply Extends_trans; [eapply processFields_extends, E2|].
  eapply Extends_trans; [apply Extends_Register|].
  eapply Extends_trans; [eapply processFields_extends, E3|].
  apply Extends_Register.
Qed.

Lemma registerGORMModel_mono (fuel fuel' : nat) (t : reflect.rtype)
  (r x : TypeRegistry) :
  (fuel <= fuel')%nat ->
  registerGORMModel fuel U r t = Some x ->
  registerGORMModel fuel' U r t = Some x.
Proof.
  intros Hle. unfold registerGORMModel.
  destruct (derefPtr fuel U t) as [t0|] eqn:Hd; cbn [mbind option_bind];
    [|discriminate].
  rewrite (derefPtr_mono U fuel fuel' t t0 Hle Hd). cbn [mbind option_bind].
  destruct (negb (reflect.isStruct (reflect.Kind U t0))); [auto|].
  destruct (String.eqb (reflect.Name U t0) EmptyString); [auto|].
  destruct (typeToSchema fuel U t0 r) as [[s0 ra]|] eqn:E1;
    cbn [mbind option_bind]; [|discriminate].
  rewrite (typeToSchema_mono U fuel fuel' t0 r _ Hle E1).
  cbn [mbind option_bind].
  rewrite !generateCreateVariant_generic.
  destruct (processFields U (shouldSkipForCreate U) unchanged true (S fuel)
              t0 emptyObject ra) as [[c rb]|] eqn:E2;
    cbn [mbind option_bind]; [|discriminate].
  rewrite (processFields_mono U _ _ _ (S fuel) (S fuel') _ _ _ _
             ltac:(lia) E2).
  cbn [mbind option_bind].
  rewrite !generateUpdateVariant_generic.
  destruct (processFields U (shouldSkipForCreate U) clearReadOnly false
              (S fuel) t0 emptyObject _) as [[u rc]|] eqn:E3;
    cbn [mbind option_bind]; [|discriminate].
  rewrite (processFields_mono U _ _ _ (S fuel) (S fuel') _ _ _ _
             ltac:(lia) E3).
  cbn [mbind option_bind]. auto.
Qed.

Lemma registerGORMModels_mono (fuel fuel' : nat) (models : list reflect.rtype)
  (r x : TypeRegistry) :
  (fuel <= fuel')%nat ->
  registerGORMModels fuel U models r = Some x ->
  registerGORMModels fuel' U models r = Some x.
Proof.
  intros Hle. revert r.
  induction models as [|m models IH]; intros r; cbn [registerGORMModels];
    [auto|].
  destruct (registerGORMModel fuel U r m) as [r1|] eqn:E;
    cbn [mbind option_bind]; [|discriminate].
  rewrite (registerGORMModel_mono fuel fuel' m r r1 Hle E).
  cbn [mbind option_bind]. apply IH.
Qed.

Lemma registerGORMModel_terminates (rank : reflect.rtype -> nat)
  (t : reflect.rtype) (r : TypeRegistry) :
  Ranked U rank -> exists fuel x, registerGORMModel fuel U r t = Some x.
Proof.
  intros HR.
  destruct (derefPtr_terminates U rank (rank t) t HR (le_n _))
    as (t0 & Hd & _).
  destruct (negb (reflect.isStruct (reflect.Kind U t0))) eqn:Hk.
  { exists (rank t), r. unfold registerGORMModel. rewrite Hd.
    cbn [mbind option_bind]. now rewrite Hk. }
  destruct (String.eqb (reflect.Name U t0) EmptyString) eqn:Hn.
  { exists (rank t), r. unfold registerGORMModel. rewrite Hd.
    cbn [mbind option_bind]. now rewrite Hk, Hn. }
  destruct (typeToSchema_terminates U rank HR t0 r) as (f1 & s0 & ra & E1).
  destruct (processFields_terminates U rank HR (shouldSkipForCreate U)
              unchanged true t0 emptyObject ra) as (f2 & [c rb] & E2).
  destruct (processFields_terminates U rank HR (shouldSkipForCreate U)
              clearReadOnly false t0 emptyObject
              (Register (String.append "Create" (reflect.Name U t0)) c rb))
    as (f3 & [u rc] & E3).
  set (fuel := (rank t + f1 + f2 + f3)%nat).
  exists fuel. eexists. unfold registerGORMModel.
  rewrite (derefPtr_mono U (rank t) fuel t t0 ltac:(lia) Hd).
  cbn [mbind option_bind]. rewrite Hk, Hn.
  rewrite (typeToSchema_mono U f1 fuel t0 r _ ltac:(lia) E1).
  cbn [mbind option_bind].
  rewrite generateCreateVariant_generic.
  rewrite (processFields_mono U _ _ _ f2 (S fuel) _ _ _ _ ltac:(lia) E2).
  cbn [mbind option_bind].
  rewrite generateUpdateVariant_generic.
  rewrite (processFields_mono U _ _ _ f3 (S fuel) _ _ _ _ ltac:(lia) E3).
  cbn [mbind option_bind]. reflexivity.
Qed.

(** X14.  On a ranked type graph [registerGORMModels] returns for every
    list of models and every registry: some amount of fuel suffices and
    every larger amount gives the same registry.  The registry it
    returns has every name the given one had, and the same set of types
    in progress. *)
Theorem registerGORMModels_returns_on_ranked_graphs :
  forall (rank : reflect.rtype -> nat) (models : list reflect.rtype)
         (r : TypeRegistry),
    Ranked U rank ->
    exists fuel r',
      (forall fuel', (fuel <= fuel')%nat ->
                     registerGORMModels fuel' U models r = Some r') /\
      seen r' = seen r /\
      dom (schemas r) ⊆ dom (schemas r').
Proof.
  intros rank models r HR. revert r.
  induction models as [|m models IH]; intros r.
  - exists 0%nat, r. split; [reflexivity|]. split; [reflexivity|set_solver].
  - destruct (registerGORMModel_terminates rank m r HR) as (f1 & r1 & E1).
    destruct (IH r1) as (f2 & r2 & E2 & Hs & Hd).
    destruct (registerGORMModel_Extends _ _ _ _ E1) as [Hs1 Hd1].
    exists (f1 + f2)%nat, r2. split; [|split; [congruence|set_solver]].
    intros fuel' Hle. cbn [registerGORMModels].
    rewrite (registerGORMModel_mono f1 fuel' m r r1 ltac:(lia) E1).
    cbn [mbind option_bind]. apply E2. lia.
Qed.

End ModelExtras.

(** ** Relationships *)

(** [rel] is the relationship that the field [field] of the struct [t],
    of dereferenced type [ft], stands for: a slice whose elements are
    structs is has-many, or many-to-many when the GORM tag says so; a
    struct that is not a special type is belongs-to when the tag names a
    foreign key or the struct has a sibling field [<Name>ID], and has-one
    otherwise. *)
Definition Relates `{Float64Model} `{unicode.CaseRanges}
    (U : reflect.Types) (t : reflect.rtype)
  (field : reflect.StructField) (ft : reflect.rtype)
  (rel : RelationshipInfo) : Prop :=
  let gormTag := ToLower (reflect.Get (reflect.FieldTag field) "gorm") in
  FieldName rel = reflect.FieldName field /\
  ((reflect.Kind U ft = reflect.Slice /\
    reflect.Kind U (reflect.Elem U ft) = reflect.Struct /\
    RelatedModel rel = reflect.Name U (reflect.Elem U ft) /\
    Type_ rel = (if Contains gormTag "many2many" then RelMany2Many
                 else RelHasMany)) \/
   (reflect.Kind U ft = reflect.Struct /\
    specialTypeSchema U ft = None /\
    RelatedModel rel = reflect.Name U ft /\
    Type_ rel = (if Contains gormTag "foreignkey"
                    || hasFieldNamed U t
                         (String.append (reflect.FieldName field) "ID")
                 then RelBelongsTo else RelHasOne))).

Section RelationshipExtras.
Context `{Float64Model} {cases : unicode.CaseRanges}.
Variable U : reflect.Types.

Lemma isStruct_Kind (k : reflect.kind) :
  reflect.isStruct k = true <-> k = reflect.Struct.
Proof. destruct k; cbn; split; congruence. Qed.

Lemma isSlice_Kind (k : reflect.kind) :
  isSlice k = true <-> k = reflect.Slice.
Proof. destruct k; cbn; split; congruence. Qed.

Lemma RelationshipInfo_eq (a b : RelationshipInfo) :
  FieldName a = FieldName b -> Type_ a = Type_ b ->
  RelatedModel a = RelatedModel b -> a = b.
Proof. destruct a, b; cbn; intros -> -> ->; reflexivity. Qed.

Lemma Relates_fun t field ft rel rel' :
  Relates U t field ft rel -> Relates U t field ft rel' -> rel = rel'.
Proof.
  unfold Relates. cbv zeta.
  intros [Hn [(Hk & _ & Hm & Ht)|(Hk & _ & Hm & Ht)]]
         [Hn' [(Hk' & _ & Hm' & Ht')|(Hk' & _ & Hm' & Ht')]];
    try congruence; apply RelationshipInfo_eq; congruence.
Qed.

(** One iteration appends the relationship of the field, if it has
    one. *)
Lemma relationshipStep_spec (fuel : nat) (t : reflect.rtype)
  (rels rels' : list RelationshipInfo) (f : reflect.StructField) :
  relationshipStep fuel U t rels f = Some rels' ->
  exists new,
    rels' = (rels ++ new)%list /\
    (forall rel, In rel new <->
                 exists ft, reflect.IsExported f = true /\
                            DerefsTo U (reflect.FieldType f) ft /\
                            Relates U t f ft rel) /\
    (new = [] \/
     exists rel, new = [rel] /\ FieldName rel = reflect.FieldName f).
Proof.
  unfold relationshipStep.
  destruct (reflect.IsExported f) eqn:Hex; cbn [negb].
  { destruct (derefPtr fuel U (reflect.FieldType f)) as [ft|] eqn:Hd;
      cbn [mbind option_bind]; [|discriminate].
    pose proof (derefPtr_DerefsTo U _ _ _ Hd) as Hft.
    assert (Hnone : forall rels0,
              (forall rel ft', DerefsTo U (reflect.FieldType f) ft' ->
                               ~ Relates U t f ft' rel) ->
              Some rels0 = Some rels' ->
              exists new,
                rels' = (rels0 ++ new)%list /\
                (forall rel, In rel new <->
                   exists ft0, true = true /\
                               DerefsTo U (reflect.FieldType f) ft0 /\
                               Relates U t f ft0 rel) /\
                (new = [] \/
                 exists rel, new = [rel] /\
                             FieldName rel = reflect.FieldName f)).
    { intros rels0 Hno [= <-]. exists []. rewrite app_nil_r.
      split; [reflexivity|]. split; [|now left].
      intros rel. split; [intros []|].
      intros (ft0 & _ & Hd0 & Hr). exfalso. eapply Hno; eauto. }
    assert (Hone : forall rel0,
              Relates U t f ft rel0 ->
              Some (rels ++ [rel0])%list = Some rels' ->
              exists new,
                rels' = (rels ++ new)%list /\
                (forall rel, In rel new <->
                   exists ft0, true = true /\
                               DerefsTo U (reflect.FieldType f) ft0 /\
                               Relates U t f ft0 rel) /\
                (new = [] \/
                 exists rel, new = [rel] /\
                             FieldName rel = reflect.FieldName f)).
    { intros rel0 Hr0 [= <-]. exists [rel0]. split; [reflexivity|].
      split; [|right; exists rel0; split; [reflexivity|apply Hr0]].
      intros rel. split.
      - intros [<-|[]]. exists ft. auto.
      - intros (ft0 & _ & Hd0 & Hr). left.
        rewrite (DerefsTo_fun U _ _ _ Hd0 Hft) in Hr.
        eapply Relates_fun; eassumption. }
    destruct (isSlice (reflect.Kind U ft)) eqn:Hsl; cbn [andb].
    - apply isSlice_Kind in Hsl.
      destruct (reflect.isStruct (reflect.Kind U (reflect.Elem U ft))) eqn:Hel.
      + apply isStruct_Kind in Hel. apply Hone.
        split; [reflexivity|]. left. repeat split; auto.
      + rewrite Hsl. cbn [reflect.isStruct andb]. apply Hnone.
        intros rel ft' Hd' [_ [(_ & Hk & _)|(Hk & _)]];
          rewrite (DerefsTo_fun U _ _ _ Hd' Hft) in Hk.
        * apply isStruct_Kind in Hk. congruence.
        * congruence.
    - destruct (reflect.isStruct (reflect.Kind U ft)) eqn:Hst; cbn [andb].
      + apply isStruct_Kind in Hst. unfold isSpecialType.
        destruct (specialTypeSchema U ft) as [sp|] eqn:Hsp; cbn [negb].
        * apply Hnone.
          intros rel ft' Hd' [_ [(Hk & _)|(_ & Hs & _)]];
            rewrite (DerefsTo_fun U _ _ _ Hd' Hft) in *; congruence.
        * apply Hone. split; [reflexivity|]. right.
          repeat split; auto. cbn [Type_].
          destruct (Contains _ "foreignkey"), (hasFieldNamed U t _);
            reflexivity.
      + apply Hnone.
        intros rel ft' Hd' [_ [(Hk & _)|(Hk & _)]];
          rewrite (DerefsTo_fun U _ _ _ Hd' Hft) in Hk.
        * apply isSlice_Kind in Hk. congruence.
        * apply isStruct_Kind in Hk. congruence. }
  intros [= <-]. exists []. rewrite app_nil_r. split; [reflexivity|].
  split; [|now left]. intros rel. split; [intros []|].
  intros (ft0 & Hx & _). discriminate.
Qed.

Lemma relationshipLoop_spec (fuel : nat) (t : reflect.rtype)
  (fs : list reflect.StructField) :
  forall rels rels',
    relationshipLoop fuel U t fs rels = Some rels' ->
    exists new,
      rels' = (rels ++ new)%list /\
      (forall rel, In rel new <->
                   exists field ft,
                     In field fs /\ reflect.IsExported field = true /\
                     DerefsTo U (reflect.FieldType field) ft /\
                     Relates U t field ft rel) /\
      sublist (List.map FieldName new) (List.map reflect.FieldName fs).
Proof.
  induction fs as [|f fs IH]; intros rels rels'; cbn [relationshipLoop].
  - intros [= <-]. exists []. rewrite app_nil_r. split; [reflexivity|].
    split; [|constructor]. intros rel. split; [intros []|].
    intros (field & ft & [] & _).
  - destruct (relationshipStep fuel U t rels f) as [rels1|] eqn:Hs;
      cbn [mbind option_bind]; [|discriminate].
    intros Hl.
    destruct (relationshipStep_spec _ _ _ _ _ Hs) as (n1 & -> & Hn1 & Hone).
    destruct (IH _ _ Hl) as (n2 & -> & Hn2 & Hsub).
    exists (n1 ++ n2)%list. split; [now rewrite app_assoc|]. split.
    + intros rel. rewrite in_app_iff, Hn1, Hn2. split.
      * intros [(ft & Hx & Hd & Hr)|(field & ft & Hin & Hr)].
        -- exists f, ft. split; [now left|auto].
        -- exists field, ft. split; [now right|exact Hr].
      * intros (field & ft & [<-|Hin] & Hx & Hd & Hr).
        -- left. exists ft. auto.
        -- right. exists field, ft. auto.
    + cbn [List.map]. destruct Hone as [->|(rel & -> & Hname)].
      * cbn. now apply sublist_cons.
      * cbn. rewrite Hname. now apply sublist_skip.
Qed.

(** X15.  [detectRelationships] on a type that does not dereference to a
    struct finds nothing.  On a struct it reports exactly the
    relationships of the exported fields: has-many or many-to-many for a
    field whose (dereferenced) type is a slice with struct elements,
    has-one or belongs-to for a field whose (dereferenced) type is a
    struct that is not a special type, and nothing for any other field
    (a slice of pointers, [time.Time], a scalar).  There is at most one
    relationship per field and they come in field order. *)
Theorem detectRelationships_reports_related_fields :
  forall (fuel : nat) (t t0 : reflect.rtype) (rels : list RelationshipInfo),
    detectRelationships fuel U t = Some rels ->
    DerefsTo U t t0 ->
    (reflect.isStruct (reflect.Kind U t0) = false -> rels = []) /\
    (forall rel,
       In rel rels <->
       reflect.isStruct (reflect.Kind U t0) = true /\
       exists field ft,
         In field (reflect.Fields U t0) /\
         reflect.IsExported field = true /\
         DerefsTo U (reflect.FieldType field) ft /\
         Relates U t0 field ft rel) /\
    sublist (List.map FieldName rels)
            (List.map reflect.FieldName (reflect.Fields U t0)).
Proof.
  intros fuel t t0 rels Hd Ht. unfold detectRelationships in Hd.
  destruct (derefPtr fuel U t) as [t1|] eqn:Hp; cbn [mbind option_bind] in Hd;
    [|discriminate].
  assert (t1 = t0) as ->
    by (eapply DerefsTo_fun; [eapply derefPtr_DerefsTo, Hp|exact Ht]).
  destruct (reflect.isStruct (reflect.Kind U t0)) eqn:Hk; cbn [negb] in Hd.
  - destruct (relationshipLoop_spec _ _ _ _ _ Hd) as (new & -> & Hn & Hsub).
    cbn [app]. split; [discriminate|]. split; [|exact Hsub].
    intros rel. rewrite Hn. tauto.
  - injection Hd as <-. split; [reflexivity|]. split.
    + intros rel. split; [intros []|]. intros [? _]. discriminate.
    + apply sublist_nil_l.
Qed.

(** X16.  On a ranked type graph [detectRelationships] returns for every
    type, and every larger amount of fuel gives the same list. *)
Theorem detectRelationships_returns_on_ranked_graphs :
  forall (rank : reflect.rtype -> nat) (t : reflect.rtype),
    Ranked U rank ->
    exists fuel rels,
      forall fuel', (fuel <= fuel')%nat ->
                    detectRelationships fuel' U t = Some rels.
Proof.
  intros rank t HR.
  assert (Hstep : forall t0 f rels,
            exists fuel rels',
              forall fuel', (fuel <= fuel')%nat ->
                relationshipStep fuel' U t0 rels f = Some rels').
  { intros t0 f rels.
    destruct (derefPtr_terminates U rank _ (reflect.FieldType f) HR (le_n _))
      as (ft & Hd & _).
    exists (rank (reflect.FieldType f)).
    destruct (relationshipStep (rank (reflect.FieldType f)) U t0 rels f)
      as [rels'|] eqn:E.
    - exists rels'. intros fuel' Hle. revert E. unfold relationshipStep.
      destruct (negb (reflect.IsExported f)); [auto|].
      rewrite Hd, (derefPtr_mono U _ fuel' _ _ Hle Hd). auto.
    - exfalso. revert E. unfold relationshipStep.
      destruct (negb (reflect.IsExported f)); [discriminate|].
      rewrite Hd. cbn [mbind option_bind].
      repeat match goal with
             | |- context [if ?b then _ else _] => destruct b
             end; discriminate. }
  assert (Hloop : forall t0 fs rels,
            exists fuel rels',
              forall fuel', (fuel <= fuel')%nat ->
                relationshipLoop fuel' U t0 fs rels = Some rels').
  { intros t0 fs. induction fs as [|f fs IH]; intros rels.
    - now exists 0%nat, rels.
    - destruct (Hstep t0 f rels) as (f1 & rels1 & E1).
      destruct (IH rels1) as (f2 & rels2 & E2).
      exists (f1 + f2)%nat, rels2. intros fuel' Hle. cbn [relationshipLoop].
      rewrite (E1 fuel') by lia. cbn [mbind option_bind]. apply E2. lia. }
  destruct (derefPtr_terminates U rank _ t HR (le_n _)) as (t0 & Hd & _).
  destruct (Hloop t0 (reflect.Fields U t0) []) as (f2 & rels & E2).
  exists (rank t + f2)%nat.
  destruct (negb (reflect.isStruct (reflect.Kind U t0))) eqn:Hk.
  - exists []. intros fuel' Hle. unfold detectRelationships.
    rewrite (derefPtr_mono U (rank t) fuel' _ _ ltac:(lia) Hd).
    cbn [mbind option_bind]. now rewrite Hk.
  - exists rels. intros fuel' Hle. unfold detectRelationships.
    rewrite (derefPtr_mono U (rank t) fuel' _ _ ltac:(lia) Hd).
    cbn [mbind option_bind]. rewrite Hk. apply E2. lia.
Qed.

End RelationshipExtras.

(** ** Compiling again *)
Section StableExtras.
Context `{Float64Model} {cases : unicode.CaseRanges}.
Variable U : reflect.Types.

Local Abbreviation State := (Schema.SchemaObject * TypeRegistry)%type.

Lemma isSeen_Extends (t : reflect.rtype) (r r' : TypeRegistry) :
  Extends r r' -> isSeen t r' = isSeen t r.
Proof. intros [Hs _]. unfold isSeen. now rewrite Hs. Qed.

Lemma forEachField_stable
  (body : reflect.StructField -> State -> option State)
  (fs : list reflect.StructField) :
  (forall f s r x, body f (s, r) = Some x -> Extends r x.2) ->
  (forall f s r x, body f (s, r) = Some x ->
     forall r2, Extends x.2 r2 -> body f (s, r2) = Some (x.1, r2)) ->
  forall s r x,
    forEachField body fs (s, r) = Some x ->
    forall r2, Extends x.2 r2 ->
               forEachField body fs (s, r2) = Some (x.1, r2).
Proof.
  intros Hext Hst. induction fs as [|f fs IH]; intros s r x; cbn [forEachField].
  - intros [= <-] r2 _. reflexivity.
  - destruct (body f (s, r)) as [[s1 r1]|] eqn:E; [|discriminate].
    intros Hl r2 Hr2.
    assert (H1 : Extends r1 x.2).
    { apply (forEachField_invariant (fun a b => Extends a.2 b.2) body fs
               (s1, r1) x (fun a => Extends_refl a.2)
               (fun a b c => Extends_trans a.2 b.2 c.2)); [|exact Hl].
      intros g [s0 r0] s' _ Hb. exact (Hext _ _ _ _ Hb). }
    rewrite (Hst _ _ _ _ E r2 (Extends_trans _ _ _ H1 Hr2)). cbn [fst].
    exact (IH _ _ _ Hl r2 Hr2).
Qed.

Lemma fieldStep_stable skip post req fuel pe cf f s r x :
  (forall e s r x, pe e s r = Some x ->
     forall r2, Extends x.2 r2 -> pe e s r2 = Some (x.1, r2)) ->
  (forall t tags r x, cf t tags r = Some x ->
     forall r2, Extends x.2 r2 -> cf t tags r2 = Some (x.1, r2)) ->
  fieldStep U skip post req fuel pe cf f (s, r) = Some x ->
  forall r2, Extends x.2 r2 ->
             fieldStep U skip post req fuel pe cf f (s, r2) = Some (x.1, r2).
Proof.
  intros Hpe Hcf. unfold fieldStep.
  destruct (negb (reflect.IsExported f)); [now intros [= <-]|].
  destruct (embeddedStruct fuel U f) as [[e|]|]; cbn [mbind option_bind];
    [apply Hpe| |discriminate].
  destruct (skip f); [now intros [= <-]|].
  destruct (fieldTags f) as [tagInfo|]; cbn [mbind option_bind];
    [|discriminate].
  destruct (JSONSkip tagInfo || GORMSkip tagInfo || Hidden tagInfo);
    [now intros [= <-]|].
  destruct (cf (reflect.FieldType f) tagInfo r) as [[v0 r0]|] eqn:E;
    cbn [mbind option_bind]; [|discriminate].
  intros [= <-] r2 Hr2. cbn [snd] in Hr2.
  rewrite (Hcf _ _ _ _ E r2 Hr2). reflexivity.
Qed.

(** A compilation that has returned returns the same schema, and leaves
    the registry alone, against every later registry. *)
Lemma compile_stable (fuel : nat) :
  (forall t r x, typeToSchema fuel U t r = Some x ->
     forall r2, Extends x.2 r2 -> typeToSchema fuel U t r2 = Some (x.1, r2)) /\
  (forall t r x, structToSchema fuel U t r = Some x ->
     forall r2, Extends x.2 r2 -> structToSchema fuel U t r2 = Some (x.1, r2)) /\
  (forall skip post req t s r x,
     processFields U skip post req fuel t s r = Some x ->
     forall r2, Extends x.2 r2 ->
                processFields U skip post req fuel t s r2 = Some (x.1, r2)) /\
  (forall t tags r x, fieldToSchema fuel U t tags r = Some x ->
     forall r2, Extends x.2 r2 ->
                fieldToSchema fuel U t tags r2 = Some (x.1, r2)).
Proof.
  induction fuel as [|fuel (IHt & IHs & IHp & IHf)];
    [split; [|split; [|split]]; intros; discriminate|].
  split; [|split; [|split]].
  - intros t r x. cbn [typeToSchema].
    destruct (derefPtr fuel U t) as [t0|]; cbn [mbind option_bind];
      [|discriminate].
    destruct (specialTypeSchema U t0); [now intros [= <-]|].
    destruct (reflect.Kind U t0);
      try (now intros [= <-]);
      try (destruct (typeToSchema fuel U (reflect.Elem U t0) r)
             as [[es r1]|] eqn:E; cbn [mbind option_bind]; [|discriminate];
           try destruct (reflect.isUint8 _); intros [= <-] r2 Hr2;
           rewrite (IHt _ _ _ E r2 Hr2); reflexivity).
    apply IHs.
  - intros t r x. cbn [structToSchema].
    destruct (derefPtr fuel U t) as [t0|]; cbn [mbind option_bind];
      [|discriminate].
    destruct (schemaName fuel U t0) as [name|]; cbn [mbind option_bind];
      [|discriminate].
    destruct (Has name r) eqn:Hhas.
    { intros [= <-] r2 Hr2. cbn [snd fst] in *.
      now rewrite (Has_Extends name r r2 Hr2 Hhas). }
    destruct (isSeen t0 r) eqn:Hseen.
    { intros [= <-] r2 Hr2. cbn [snd fst] in *.
      rewrite (isSeen_Extends t0 r r2 Hr2), Hseen.
      now destruct (Has name r2). }
    destruct (processStructFields fuel U t0 _ _) as [[s1 r1]|];
      cbn [mbind option_bind]; [|discriminate].
    intros [= <-] r2 Hr2. cbn [snd fst] in *.
    assert (Hn : Has name r2 = true).
    { eapply Has_Extends; [exact Hr2|]. unfold Has, unmarkSeen, Register.
      cbn. now rewrite lookup_insert_eq. }
    now rewrite Hn.
  - intros skip post req t s r x. cbn [processFields].
    apply forEachField_stable.
    + intros f s0 r0 x0. apply (fieldStep_extends U skip post req fuel).
      * intros e s1 r1 x1. exact (proj1 (proj2 (proj2 (compile_extends U fuel)))
                                   skip post req e s1 r1 x1).
      * exact (proj2 (proj2 (proj2 (compile_extends U fuel)))).
    + intros f s0 r0 x0. apply fieldStep_stable; [apply IHp|apply IHf].
  - intros t tags r x. cbn [fieldToSchema].
    destruct (typeToSchema fuel U t r) as [[base r1]|] eqn:E;
      cbn [mbind option_bind]; [|discriminate].
    intros Hx r2 Hr2.
    assert (Hr1 : x.2 = r1).
    { revert Hx.
      repeat match goal with
             | |- context [if ?b then _ else _] => destruct b
             end; now intros [= <-]. }
    rewrite Hr1 in Hr2. rewrite (IHt _ _ _ E r2 Hr2). cbn [mbind option_bind fst].
    revert Hx.
    repeat match goal with
           | |- context [if ?b then _ else _] => destruct b
           end; now intros [= <-].
Qed.

(** X17.  Compilation is stable.  Once [typeToSchema], [fieldToSchema],
    [generateCreateVariant] or [generateUpdateVariant] has returned a
    schema, the same call against the registry it returned, or against
    any registry with at least those names and the same types in
    progress, returns the same schema and leaves that registry
    unchanged: every struct it reaches is already registered, so nothing
    is compiled twice and the output does not depend on what else the
    registry holds. *)
Theorem compile_is_stable :
  forall (fuel : nat) (t : reflect.rtype) (tags : TagInfo)
         (r r' r2 : TypeRegistry) (s : Schema.SchemaObject),
    seen r2 = seen r' ->
    dom (schemas r') ⊆ dom (schemas r2) ->
    (typeToSchema fuel U t r = Some (s, r') ->
     typeToSchema fuel U t r2 = Some (s, r2)) /\
    (fieldToSchema fuel U t tags r = Some (s, r') ->
     fieldToSchema fuel U t tags r2 = Some (s, r2)) /\
    (generateCreateVariant fuel U t r = Some (s, r') ->
     generateCreateVariant fuel U t r2 = Some (s, r2)) /\
    (generateUpdateVariant fuel U t r = Some (s, r') ->
     generateUpdateVariant fuel U t r2 = Some (s, r2)).
Proof.
  intros fuel t tags r r' r2 s Hs Hd.
  assert (He : Extends r' r2) by (split; assumption).
  split; [|split; [|split]].
  - intros Hc. exact (proj1 (compile_stable fuel) _ _ _ Hc r2 He).
  - intros Hc.
    exact (proj2 (proj2 (proj2 (compile_stable fuel))) _ _ _ _ Hc r2 He).
  - rewrite !generateCreateVariant_generic. intros Hc.
    exact (proj1 (proj2 (proj2 (compile_stable (S fuel))))
             _ _ _ _ _ _ _ Hc r2 He).
  - rewrite !generateUpdateVariant_generic. intros Hc.
    exact (proj1 (proj2 (proj2 (compile_stable (S fuel))))
             _ _ _ _ _ _ _ Hc r2 He).
Qed.

(** X18.  The registry is a map from names to schemas with a set of
    types in progress.  A registered schema is what [Get] returns under
    its name, registering under one name leaves every other name and the
    seen set alone, [Has] holds exactly of the names [Get] finds, and a
    type is seen from [markSeen] until [unmarkSeen], which touch no
    schema and no other type.  A new registry has no schema and no type
    in progress. *)
Theorem registry_round_trip :
  forall (name name' : string) (schema : Schema.SchemaObject)
         (t t' : reflect.rtype) (r : TypeRegistry),
    Get name (Register name schema r) = Some schema /\
    (name' <> name -> Get name' (Register name schema r) = Get name' r) /\
    (Has name' r = true <-> exists s, Get name' r = Some s) /\
    (forall s, All r !! name' = Some s <-> Get name' r = Some s) /\
    isSeen t (Register name schema r) = isSeen t r /\
    isSeen t (markSeen t r) = true /\
    isSeen t (unmarkSeen t r) = false /\
    (t' <> t -> isSeen t' (markSeen t r) = isSeen t' r /\
                isSeen t' (unmarkSeen t r) = isSeen t' r) /\
    Get name (markSeen t r) = Get name r /\
    Get name (unmarkSeen t r) = Get name r /\
    Get name newTypeRegistry = None /\
    isSeen t newTypeRegistry = false.
Proof.
  intros name name' schema t t' r.
  assert (Hb : forall (P Q : Prop) `{Decision P} `{Decision Q},
             (P <-> Q) -> bool_decide P = bool_decide Q).
  { intros P Q ? ? HPQ. apply bool_decide_ext, HPQ. }
  unfold Get, Has, All, Register, markSeen, unmarkSeen, isSeen,
    newTypeRegistry. cbn.
  split; [apply lookup_insert_eq|].
  split; [intros Hne; now apply lookup_insert_ne|].
  split.
  { destruct (schemas r !! name') as [s|].
    - split; eauto.
    - split; [discriminate|]. intros [s Hs]. discriminate. }
  split; [reflexivity|]. split; [reflexivity|].
  split; [apply bool_decide_eq_true; set_solver|].
  split; [apply bool_decide_eq_false; set_solver|].
  split; [intros Hne; split; apply Hb; set_solver|].
  split; [reflexivity|]. split; [reflexivity|].
  split; [apply lookup_empty|].
  apply bool_decide_eq_false. set_solver.
Qed.

End StableExtras.

(** ** Enum values of the binding tag *)
Section EnumExtras.
Context `{Float64Model} {cases : unicode.CaseRanges}.

(** No byte of the string is an ASCII white-space byte. *)
Definition noSpace (v : string) : bool :=
  forallb (fun c => negb (isSpace c)) (list_ascii_of_string v).

Definition isWord (v : string) : Prop := v <> EmptyString /\ noSpace v = true.

Lemma flushed_isWord (acc : list ascii) :
  acc <> [] -> forallb (fun c => negb (isSpace c)) acc = true ->
  isWord (string_of_list_ascii (rev acc)).
Proof.
  intros Hne Hacc. split.
  - intros He. apply (f_equal list_ascii_of_string) in He.
    rewrite list_ascii_of_string_of_list_ascii in He. cbn in He.
    apply (f_equal (@rev ascii)) in He. rewrite rev_involutive in He.
    now apply Hne.
  - unfold noSpace. rewrite list_ascii_of_string_of_list_ascii.
    rewrite forallb_forall in *. intros c Hc. apply Hacc.
    now apply in_rev.
Qed.

Lemma fieldsFrom_words (s : string) :
  forall skip sep acc,
    highBytes skip s ->
    forallb (fun c => negb (isSpace c)) acc = true ->
    Forall isWord (fieldsFrom unicode.IsSpace skip sep acc s).
Proof.
  induction s as [|c s IH]; intros skip sep acc Hhigh Hacc.
  - cbn [fieldsFrom]. destruct acc as [|a acc]; cbn [flushField];
      [constructor|].
    constructor; [|constructor]. now apply flushed_isWord.
  - assert (Hc : (utf8.byte c < 128)%Z ->
                 unicode.IsSpace (utf8.byte c) = false ->
                 negb (isSpace c) = true).
    { intros _ Hr. destruct (isSpace c) eqn:Ec; [|reflexivity].
      apply isSpace_IsSpace in Ec as [_ Ec]. congruence. }
    assert (Hc' : (128 <= utf8.byte c)%Z -> negb (isSpace c) = true).
    { intros Hge. destruct (isSpace c) eqn:Ec; [|reflexivity].
      apply isSpace_IsSpace in Ec as [Ec _]. lia. }
    destruct skip as [|skip]; cbn [fieldsFrom].
    + destruct (utf8.DecodeRuneInString (String c s)) as [r w] eqn:D.
      destruct (DecodeRuneInString_bytes _ _ _ _ D) as (Hw & Hr).
      destruct (unicode.IsSpace r) eqn:Er.
      * destruct acc as [|a acc]; cbn [flushField]; [now apply IH|].
        constructor; [now apply flushed_isWord|now apply IH].
      * apply IH; [exact Hw|]. cbn [forallb]. rewrite Hacc, andb_true_r.
        destruct (Z.lt_ge_cases (utf8.byte c) 128%Z) as [Hlt|Hge];
          [|now apply Hc'].
        apply Hc; [exact Hlt|]. now rewrite <- (Hr Hlt).
    + cbn [highBytes] in Hhigh. destruct Hhigh as (Hge & Hhigh).
      apply IH; [exact Hhigh|]. destruct sep; [exact Hacc|].
      cbn [forallb]. now rewrite Hacc, andb_true_r, Hc'.
Qed.

Lemma bindingClause_words (info : TagInfo) (part : string) :
  Forall isWord (Enum info) -> Forall isWord (Enum (bindingClause info part)).
Proof.
  intros Hi. unfold bindingClause.
  generalize (TrimSpace part) as p. clear part. cbv zeta. intros p.
  repeat match goal with
         | |- context [if ?b then _ else _] => destruct b
         | |- context [match ?o with Some _ => _ | None => _ end] => destruct o
         end; try exact Hi.
  cbn [Enum with_Enum]. now apply fieldsFrom_words.
Qed.

(** X19.  Every enum value that [parseBindingTag] takes from a [oneof=]
    clause is a word: it is not empty and contains no ASCII white
    space. *)
Theorem binding_enum_values_are_words :
  forall tag : string, Forall isWord (Enum (parseBindingTag tag)).
Proof.
  intros tag. unfold parseBindingTag. cbv zeta.
  destruct (String.eqb tag "" || String.eqb tag "-").
  { destruct (String.eqb tag "-"); constructor. }
  assert (Z0 : Forall isWord (Enum zeroTagInfo)) by constructor.
  revert Z0. generalize zeroTagInfo as info.
  induction (Split tag ",") as [|p parts IH]; intros info Hinfo;
    cbn [fold_left]; [exact Hinfo|].
  apply IH. now apply bindingClause_words.
Qed.

End EnumExtras.
(** * Closed instances

    The statements below are evaluated on the example type tables, with
    the floats that are integers: [float64(v)] is [v] and [ParseFloat]
    reads decimal integer literals.  The tags and names of the examples
    are ASCII strings, for which the case table is not consulted; the
    table given here has no entry, so it maps every rune to itself. *)
#[global] Instance integerFloats : Float64Model :=
  {| float64 := Z; ParseFloat := Atoi; float64_of_int := fun v => v |}.

#[global] Instance emptyCaseRanges : unicode.CaseRanges :=
  {| unicode.To_LowerCase := fun r => r |}.

(** Evaluation leaves the float model and the case table alone. *)
Ltac any_floats :=
  generalize integerFloats; intros ?F;
  generalize emptyCaseRanges; intros ?T.

(** Every pointer, slice and embedding of the tables points to a type of
    smaller rank. *)
Definition tableRank (t : reflect.rtype) : nat :=
  match t with
  | 1 => 1 | 9 => 1 | 12 => 1 | 13 => 1 | 14 => 2 | 15 => 1 | 16 => 2 | 17 => 1
  | _ => 0
  end.

Lemma testTypes_ranked : Ranked Examples.testTypes tableRank.
Proof. any_floats. apply rankedb_sound. vm_compute. reflexivity. Qed.

Lemma entityTypes_ranked : Ranked Examples.entityTypes tableRank.
Proof. any_floats. apply rankedb_sound. vm_compute. reflexivity. Qed.

(** ** The package tests, evaluated *)

(** The package test [TestTypeToSchema_CircularRef] (scenario B):
    [Node] with [Children []Node] compiles, and the items of [children]
    are a reference to the owning schema. *)
Example circular_reference_resolves :
  (Schema.Ref ∘ fst <$> typeToSchema 10 Examples.testTypes 8 newTypeRegistry)
  = Some "#/components/schemas/TestNode" /\
  ('(_, r) ← typeToSchema 10 Examples.testTypes 8 newTypeRegistry;
   node ← Get "TestNode" r;
   children ← Schema.Properties node !! "children";
   items ← Schema.Items children;
   Some (Schema.Type_ children, Schema.Ref items, elements (seen r)))
  = Some ("array", "#/components/schemas/TestNode", []).
Proof. split; vm_compute; reflexivity. Qed.

(** The package test [TestTypeToSchema_Struct] (scenario A): [name] is
    required with [maxLength] 100, and [email] has the format of the
    binding tag and the length of the GORM size. *)
Example required_and_max_length :
  ('(_, r) ← typeToSchema 10 Examples.testTypes 10 newTypeRegistry;
   user ← Get "TestUser" r;
   name ← Schema.Properties user !! "name";
   email ← Schema.Properties user !! "email";
   Some (Schema.Required user, Schema.MaxLength name,
         Schema.Format email, Schema.MaxLength email))
  = Some (["name"; "email"], Some 100%Z, "email", Some 200%Z).
Proof. vm_compute; reflexivity. Qed.

(** The package test [TestTypeToSchema_EmbeddedStruct]: the fields of an
    embedded struct are properties of the embedding object. *)
Example embedded_fields_are_flattened :
  ('(_, r) ← typeToSchema 10 Examples.testTypes 12 newTypeRegistry;
   child ← Get "TestEmbeddedChild" r;
   Some (dom (Schema.Properties child), dom (schemas r)))
  = Some ({["id"; "created_at"; "name"]}, {["TestEmbeddedChild"]}).
Proof. vm_compute; reflexivity. Qed.

(** A slice of bytes is a base64 string, a slice of byte pointers is an
    array. *)
Example byte_slices :
  ((fun x => (Schema.Type_ x.1, Schema.Format x.1))
     <$> typeToSchema 10 Examples.testTypes 15 newTypeRegistry)
  = Some ("string", "byte") /\
  (Schema.Type_ ∘ fst <$> typeToSchema 10 Examples.testTypes 16 newTypeRegistry)
  = Some "array".
Proof. split; vm_compute; reflexivity. Qed.


(** ** Witnesses *)

(** C2 at [TestNode]. *)
Lemma C2_witness :
  exists s r',
    typeToSchema 10 Examples.testTypes 8 newTypeRegistry = Some (s, r') /\
    s = SchemaRef "TestNode" /\
    forall fuel2,
      typeToSchema (S (S fuel2)) Examples.testTypes 8 r'
      = Some (SchemaRef "TestNode", r').
Proof.
  any_floats.
  destruct (typeToSchema 10 Examples.testTypes 8 newTypeRegistry)
    as [[s r']|] eqn:E; [|vm_compute in E; discriminate].
  exists s, r'. split; [reflexivity|].
  destruct (C2_struct_compiled_at_most_once Examples.testTypes 10 8
              newTypeRegistry r' s eq_refl eq_refl eq_refl E)
    as (Hs & _ & Hnext).
  split; [exact Hs|].
  intros fuel2. exact (proj1 (Hnext r' fuel2 (fun x Hx => Hx))).
Defined.

(** C3 at the two [Item] types. *)
Lemma C3_witness :
  exists s r1,
    typeToSchema 10 Examples.itemTypes 8 newTypeRegistry = Some (s, r1) /\
    forall fuel2,
      typeToSchema (S (S fuel2)) Examples.itemTypes 9 r1
      = Some (SchemaRef "Item", r1).
Proof.
  any_floats.
  destruct (typeToSchema 10 Examples.itemTypes 8 newTypeRegistry)
    as [[s r1]|] eqn:E; [|vm_compute in E; discriminate].
  exists s, r1. split; [reflexivity|].
  exact (proj2 (proj2 (proj2
           (C3_same_bare_name_shares_entry Examples.itemTypes 10 8 9
              newTypeRegistry r1 s eq_refl eq_refl eq_refl eq_refl eq_refl
              eq_refl E)))).
Defined.

(** C5 at a string field with a binding bound and a GORM size. *)
Lemma C5_witness :
  exists tags s r',
    mergeTags "name" "max=100" "size:200" "" = Some tags /\
    fieldToSchema 3 Examples.testTypes 2 tags newTypeRegistry = Some (s, r') /\
    Schema.MaxLength s = Some 100%Z.
Proof.
  any_floats.
  destruct (mergeTags "name" "max=100" "size:200" "") as [tags|] eqn:Em;
    [|vm_compute in Em; discriminate].
  destruct (fieldToSchema 3 Examples.testTypes 2 tags newTypeRegistry)
    as [[s r']|] eqn:Ef;
    [|vm_compute in Em; injection Em as <-; vm_compute in Ef; discriminate].
  exists tags, s, r'. split; [reflexivity|]. split; [exact Ef|].
  refine (C5_gorm_size_fills_max_length Examples.testTypes 3 2
            "name" "max=100" "size:200" "" tags newTypeRegistry r' s Em Ef _).
  vm_compute in Em. injection Em as <-.
  vm_compute in Ef. injection Ef as <- <-. reflexivity.
Defined.


(** C9 at [**TestNode]. *)
Lemma C9_witness :
  exists x,
    typeToSchema 10 Examples.testTypes 8 newTypeRegistry = Some x /\
    typeToSchema 12 Examples.testTypes 14 newTypeRegistry = Some x.
Proof.
  any_floats.
  destruct (typeToSchema 10 Examples.testTypes 8 newTypeRegistry)
    as [x|] eqn:E; [|vm_compute in E; discriminate].
  exists x. split; [reflexivity|].
  exact (proj1 (proj2
           (C9_pointer_compiles_as_pointee Examples.testTypes 2 14 8
              (conj eq_refl (conj eq_refl eq_refl))))
           10 newTypeRegistry x E).
Defined.


(** ** Counterexamples *)

(** C3 as stated fails: the two [Item] types of different packages get
    the same reference, and the registry holds the single name [Item]
    with the schema of the first. *)
Lemma C3_counterexample :
  reflect.PkgPath Examples.itemTypes 8 <> reflect.PkgPath Examples.itemTypes 9 /\
  ('(s1, r1) ← typeToSchema 10 Examples.itemTypes 8 newTypeRegistry;
   '(s2, r2) ← typeToSchema 10 Examples.itemTypes 9 r1;
   item ← Get "Item" r2;
   Some (Schema.Ref s1, Schema.Ref s2, dom (schemas r2),
         dom (Schema.Properties item)))
  = Some ("#/components/schemas/Item", "#/components/schemas/Item",
          {["Item"]}, {["title"]}).
Proof. any_floats. split; [discriminate|]. vm_compute; reflexivity. Qed.

(** C8 as stated fails: an empty [enum:] list in the docs tag is not
    dropped.  It yields the enum of the single empty value, which
    replaces the enum of the binding tag. *)
Lemma C8_counterexample :
  DocsEnum (parseDocsTag "enum:") = [EmptyString] /\
  (Enum <$> mergeTags "" "oneof=a b" "" "enum:") = Some [EmptyString] /\
  (Enum <$> mergeTags "" "oneof=a b" "" "") = Some ["a"; "b"].
Proof. any_floats. repeat split; vm_compute; reflexivity. Qed.



(** ** Further closed instances *)

Definition blogRank (t : reflect.rtype) : nat :=
  match t with
  | 1 => 1 | 13 => 1 | 14 => 1 | 15 => 1 | 16 => 1 | 17 => 2
  | _ => 0
  end.

Lemma blogTypes_ranked : Ranked Blog.blogTypes blogRank.
Proof. any_floats. apply rankedb_sound. vm_compute. reflexivity. Qed.

(** The relationships of [Post]: [Author] belongs-to (there is an
    [AuthorID]), [Labels] many-to-many, [Comments] has-many, [Profile]
    has-one through the pointer; the slice of pointers [Editors], the
    time stamp and the unexported field give nothing. *)
Example blog_relationships :
  detectRelationships 5 Blog.blogTypes 12
  = Some [ {| FieldName := "Author"; Type_ := RelBelongsTo;
              RelatedModel := "Author" |};
           {| FieldName := "Labels"; Type_ := RelMany2Many;
              RelatedModel := "Label" |};
           {| FieldName := "Comments"; Type_ := RelHasMany;
              RelatedModel := "Comment" |};
           {| FieldName := "Profile"; Type_ := RelHasOne;
              RelatedModel := "Profile" |} ].
Proof. vm_compute. reflexivity. Qed.

(** The handler names of the package comment. *)
Example handler_names :
  handlerFuncName "main.createUser" = Some "createUser" /\
  handlerPackageName "main.createUser" = Some "main" /\
  handlerFuncName "github.com/foo/bar.Handler.func1" = Some "func1" /\
  handlerPackageName "github.com/foo/bar.Handler.func1" = Some "bar" /\
  handlerFuncName "" = Some "" /\ handlerPackageName "" = Some "".
Proof. repeat split; vm_compute; reflexivity. Qed.

(** A description stops at its first comma, and only the tag ["-"]
    skips a field. *)
Example tag_edges :
  Description (parseDocsTag "description:Hello, world") = "Hello" /\
  parseJSONTag "-," = Some ("-", false, false) /\
  parseJSONTag "-" = Some ("", false, true) /\
  Required (parseBindingTag "omitempty, required ") = true /\
  Required (parseBindingTag "required_with=Name") = false /\
  PrimaryKey (parseGORMTag "column:id; PrimaryKey") = true.
Proof. any_floats. repeat split; vm_compute; reflexivity. Qed.

(** White space and letters above ASCII.  U+00A0 (bytes C2 A0) and
    U+3000 (bytes E3 80 80) are white space to [strings.TrimSpace] and
    [strings.Fields]; with a case table that maps the Kelvin sign U+212A
    (bytes E2 84 AA) to [k], [strings.ToLower] reads [PRIMARY] followed
    by the Kelvin sign, [E] and [Y] as [primarykey]; a byte that starts
    no well-formed sequence is written out as U+FFFD (bytes EF BF BD). *)
Definition bytes (l : list nat) : string :=
  string_of_list_ascii (map ascii_of_nat l).

Definition kelvinTable : unicode.CaseRanges :=
  {| unicode.To_LowerCase := fun r => if (r =? 0x212A)%Z then 107%Z else r |}.

Example runes_above_ascii :
  TrimSpace (bytes [194; 160] ++ " a b" ++ bytes [227; 128; 128]) = "a b" /\
  Fields ("a" ++ bytes [194; 160] ++ "b c") = ["a"; "b"; "c"] /\
  Required (parseBindingTag (bytes [194; 160] ++ "required")) = true /\
  @ToLower kelvinTable ("PRIMARY" ++ bytes [226; 132; 170] ++ "EY")
  = "primarykey" /\
  @PrimaryKey _ (@parseGORMTag _ kelvinTable
                   ("PRIMARY" ++ bytes [226; 132; 170] ++ "EY")) = true /\
  @ToLower kelvinTable (bytes [255] ++ "A") = bytes [239; 191; 189] ++ "a".
Proof. any_floats. repeat split; vm_compute; reflexivity. Qed.

(** ** Witnesses of the further properties *)

(** Schemas survive a later compilation: [TestNode], then
    [TestEmbeddedChild]. *)
Lemma compile_keeps_registered_schemas_witness :
  exists s1 r1 s2 r2,
    typeToSchema 10 Examples.testTypes 8 newTypeRegistry = Some (s1, r1) /\
    typeToSchema 10 Examples.testTypes 12 r1 = Some (s2, r2) /\
    seen r2 = seen r1 /\
    forall name schema,
      Get name r1 = Some schema -> Get name r2 = Some schema.
Proof.
  any_floats.
  destruct (typeToSchema 10 Examples.testTypes 8 newTypeRegistry)
    as [[s1 r1]|] eqn:E1; [|vm_compute in E1; discriminate].
  destruct (typeToSchema 10 Examples.testTypes 12 r1) as [[s2 r2]|] eqn:E2;
    [|vm_compute in E1; injection E1 as <- <-; vm_compute in E2;
      discriminate].
  exists s1, r1, s2, r2. split; [reflexivity|]. split; [exact E2|].
  exact (compile_keeps_registered_schemas Examples.testTypes 10 12 zeroTagInfo
           r1 r2 s2 (or_introl E2)).
Defined.

(** Termination at [TestUser]. *)
Lemma typeToSchema_returns_witness :
  exists fuel s r',
    forall fuel', (fuel <= fuel')%nat ->
      typeToSchema fuel' Examples.testTypes 10 newTypeRegistry = Some (s, r').
Proof.
  exact (typeToSchema_returns_on_ranked_graphs Examples.testTypes tableRank 10
           newTypeRegistry testTypes_ranked).
Defined.

(** [*TestNode] compiles to the reference to [TestNode]. *)
Lemma reference_iff_plain_struct_witness :
  exists s r',
    typeToSchema 10 Examples.testTypes 13 newTypeRegistry = Some (s, r') /\
    s = SchemaRef "TestNode".
Proof.
  any_floats.
  destruct (typeToSchema 10 Examples.testTypes 13 newTypeRegistry)
    as [[s r']|] eqn:E; [|vm_compute in E; discriminate].
  exists s, r'. split; [reflexivity|].
  destruct (reference_iff_plain_struct Examples.testTypes 10 13 8
              newTypeRegistry r' s E
              (DerefsTo_elem Examples.testTypes 13 8 eq_refl
                 (DerefsTo_here Examples.testTypes 8 eq_refl)))
    as [Hiff Href].
  apply Href, Hiff. split; reflexivity.
Defined.

(** A primary-key field of type [*TestNode] with a description: a
    wrapper around the reference, not read-only. *)
Lemma struct_fields_take_no_constraints_witness :
  exists s r',
    fieldToSchema 10 Examples.testTypes 13
      (with_PrimaryKey true (with_Description "The parent" zeroTagInfo))
      newTypeRegistry = Some (s, r') /\
    Schema.AllOf s = [SchemaRef "TestNode"] /\
    Schema.ReadOnly s = false.
Proof.
  any_floats.
  destruct (fieldToSchema 10 Examples.testTypes 13
              (with_PrimaryKey true (with_Description "The parent" zeroTagInfo))
              newTypeRegistry) as [[s r']|] eqn:E;
    [|vm_compute in E; discriminate].
  exists s, r'. split; [reflexivity|].
  destruct (struct_fields_take_no_constraints Examples.testTypes 10 13 8 _
              newTypeRegistry r' s E
              (DerefsTo_elem Examples.testTypes 13 8 eq_refl
                 (DerefsTo_here Examples.testTypes 8 eq_refl))
              eq_refl eq_refl) as (Hs & Hro & _).
  split; [|exact Hro]. rewrite Hs. reflexivity.
Defined.

(** The registered schema of [TestEmbeddedChild]. *)
Lemma registered_struct_schema_witness :
  exists s r' schema,
    typeToSchema 10 Examples.testTypes 12 newTypeRegistry = Some (s, r') /\
    Get "TestEmbeddedChild" r' = Some schema /\
    Schema.Type_ schema = "object" /\
    forall k, In k (Schema.Required schema) ->
              k ∈ dom (Schema.Properties schema).
Proof.
  any_floats.
  destruct (typeToSchema 10 Examples.testTypes 12 newTypeRegistry)
    as [[s r']|] eqn:E; [|vm_compute in E; discriminate].
  destruct (registered_struct_schema Examples.testTypes 10 12 newTypeRegistry
              r' s eq_refl eq_refl eq_refl eq_refl E)
    as (schema & Hg & Ht & _ & _ & Hsub).
  exists s, r', schema. split; [reflexivity|]. split; [exact Hg|].
  split; [exact Ht|exact Hsub].
Defined.

(** The variants of the entity. *)
Lemma variants_have_the_same_properties_witness :
  exists c r1 u r2,
    generateCreateVariant 3 Examples.entityTypes 8 newTypeRegistry
    = Some (c, r1) /\
    generateUpdateVariant 3 Examples.entityTypes 8 newTypeRegistry
    = Some (u, r2) /\
    dom (Schema.Properties c) = dom (Schema.Properties u).
Proof.
  any_floats.
  destruct (generateCreateVariant 3 Examples.entityTypes 8 newTypeRegistry)
    as [[c r1]|] eqn:Ec; [|vm_compute in Ec; discriminate].
  destruct (generateUpdateVariant 3 Examples.entityTypes 8 newTypeRegistry)
    as [[u r2]|] eqn:Eu; [|vm_compute in Eu; discriminate].
  exists c, r1, u, r2. split; [reflexivity|]. split; [reflexivity|].
  exact (proj1 (proj2 (proj2
           (variants_have_the_same_properties Examples.entityTypes 3 3 8
              newTypeRegistry r1 newTypeRegistry r2 c u Ec Eu)))).
Defined.

(** Registering the entity as a model. *)
Lemma registerGORMModel_registers_variants_witness :
  exists r' c u,
    registerGORMModel 10 Examples.entityTypes newTypeRegistry 8 = Some r' /\
    Get "CreateEntity" r' = Some c /\ Get "UpdateEntity" r' = Some u /\
    Has "Entity" r' = true.
Proof.
  any_floats.
  destruct (registerGORMModel 10 Examples.entityTypes newTypeRegistry 8)
    as [r'|] eqn:E; [|vm_compute in E; discriminate].
  destruct (registerGORMModel_registers_variants Examples.entityTypes 10 8 8
              newTypeRegistry r' E (DerefsTo_here Examples.entityTypes 8 eq_refl))
    as (_ & _ & _ & Hv).
  destruct (Hv eq_refl ltac:(discriminate)) as ((c & u & Hc & Hu & _) & Hn & _).
  exists r', c, u. split; [reflexivity|]. split; [exact Hc|].
  split; [exact Hu|]. exact (Hn eq_refl eq_refl).
Defined.

(** Registering a list of models: the entity, [time.Time] and a
    string. *)
Lemma registerGORMModels_returns_witness :
  exists fuel r',
    (forall fuel', (fuel <= fuel')%nat ->
       registerGORMModels fuel' Examples.entityTypes [8; 0; 2] newTypeRegistry
       = Some r') /\
    seen r' = seen newTypeRegistry /\
    dom (schemas newTypeRegistry) ⊆ dom (schemas r').
Proof.
  exact (registerGORMModels_returns_on_ranked_graphs Examples.entityTypes
           tableRank [8; 0; 2] newTypeRegistry entityTypes_ranked).
Defined.

(** The relationships of [Post] come in field order. *)
Lemma detectRelationships_witness :
  exists rels,
    detectRelationships 5 Blog.blogTypes 12 = Some rels /\
    sublist (List.map FieldName rels)
            (List.map reflect.FieldName (reflect.Fields Blog.blogTypes 12)).
Proof.
  any_floats.
  destruct (detectRelationships 5 Blog.blogTypes 12) as [rels|] eqn:E;
    [|vm_compute in E; discriminate].
  exists rels. split; [reflexivity|].
  exact (proj2 (proj2
           (detectRelationships_reports_related_fields Blog.blogTypes 5 12 12
              rels E (DerefsTo_here Blog.blogTypes 12 eq_refl)))).
Defined.

Lemma detectRelationships_returns_witness :
  exists fuel rels,
    forall fuel', (fuel <= fuel')%nat ->
      detectRelationships fuel' Blog.blogTypes 12 = Some rels.
Proof.
  exact (detectRelationships_returns_on_ranked_graphs Blog.blogTypes blogRank
           12 blogTypes_ranked).
Defined.

(** Compiling [TestNode] a second time. *)
Lemma compile_is_stable_witness :
  exists s r',
    typeToSchema 10 Examples.testTypes 8 newTypeRegistry = Some (s, r') /\
    typeToSchema 10 Examples.testTypes 8 r' = Some (s, r').
Proof.
  any_floats.
  destruct (typeToSchema 10 Examples.testTypes 8 newTypeRegistry)
    as [[s r']|] eqn:E; [|vm_compute in E; discriminate].
  exists s, r'. split; [reflexivity|].
  exact (proj1 (compile_is_stable Examples.testTypes 10 8 zeroTagInfo
                  newTypeRegistry r' r' s eq_refl (fun x Hx => Hx)) E).
Defined.

